(** * horse_racing_ai: the tabular data preparation pipeline

    A shallow embedding of [src/utils/data_validator.py] (class
    [DataValidator]) and [src/data_processing/feature_engineering.py]
    (class [FeatureEngineer]), and the properties of the specification
    that concern them.

    Modelling conventions.
    - A pandas [DataFrame] is an ordered list of named columns; a column
      ([Series]) is a list of cells.  Row labels are positional.
    - A cell is a number or a text.  Numbers are exact real numbers
      extended with the two infinities and NaN; the arithmetic follows the
      IEEE rules for the special values, and is exact on finite values:
      rounding, overflow, underflow and the sign of zero are not
      modelled, nor is the difference between the integer and the floating
      dtypes.  The missing value is NaN, as [np.nan] is.
    - A text is the list of its code points, as a Python [str] is.
    - DataFrames are mutable objects: the methods run in a state monad over
      an object store, where [df.copy()], boolean indexing, [dropna] and
      [replace] allocate a new object and [df[col] = ...] updates an
      object in place.  Exceptions are results of the monad.
    - What pandas does to a single value outside the repository (reading
      a numeric literal, printing a number, reading a calendar date) is a
      member of the class [Pandas].
    - Where the rounding of the floating dtype decides a property, the
      class [FeatureEngineer] is modelled once more in [Binary64], on
      tables of IEEE 754 binary64 numbers ([SpecFloat]): its arithmetic
      is the rounded one, and the means and standard deviations are what
      the aggregations of pandas compute. *)

From Stdlib Require Import Reals Lra Lia ZArith String Ascii Bool List.
From Stdlib Require Import Floats.SpecFloat.
Import ListNotations.

Set Implicit Arguments.

(** ** Numbers *)

Module Float.
Local Open Scope R_scope.

Inductive float : Type :=
| Fin (x : R)
| PInf
| NInf
| NaN.

(** The quotient of [x] by zero. *)
Definition over_zero (x : R) : float :=
  match total_order_T x 0 with
  | inleft (left _) => NInf
  | inleft (right _) => NaN
  | inright _ => PInf
  end.

Definition fneg (a : float) : float :=
  match a with
  | Fin x => Fin (- x)
  | PInf => NInf
  | NInf => PInf
  | NaN => NaN
  end.

Definition fadd (a b : float) : float :=
  match a, b with
  | NaN, _ | _, NaN => NaN
  | Fin x, Fin y => Fin (x + y)
  | PInf, NInf | NInf, PInf => NaN
  | PInf, _ | _, PInf => PInf
  | NInf, _ | _, NInf => NInf
  end.

Definition fsub (a b : float) : float := fadd a (fneg b).

Definition fmul (a b : float) : float :=
  match a, b with
  | NaN, _ | _, NaN => NaN
  | Fin x, Fin y => Fin (x * y)
  | Fin x, PInf | PInf, Fin x => over_zero x
  | Fin x, NInf | NInf, Fin x => over_zero (- x)
  | PInf, PInf | NInf, NInf => PInf
  | PInf, NInf | NInf, PInf => NInf
  end.

Definition fdiv (a b : float) : float :=
  match a, b with
  | NaN, _ | _, NaN => NaN
  | Fin x, Fin y => if Req_dec_T y 0 then over_zero x else Fin (x / y)
  | Fin _, _ => Fin 0
  | PInf, Fin y => if Rlt_dec y 0 then NInf else PInf
  | NInf, Fin y => if Rlt_dec y 0 then PInf else NInf
  | _, _ => NaN
  end.

Definition fsqrt (a : float) : float :=
  match a with
  | Fin x => if Rlt_dec x 0 then NaN else Fin (sqrt x)
  | PInf => PInf
  | _ => NaN
  end.

Definition is_nan (a : float) : bool :=
  match a with NaN => true | _ => false end.

Definition is_finite (a : float) : bool :=
  match a with Fin _ => true | _ => false end.

(** [a <= b]; false as soon as one side is NaN. *)
Definition fleb (a b : float) : bool :=
  match a, b with
  | NaN, _ | _, NaN => false
  | Fin x, Fin y => if Rle_dec x y then true else false
  | NInf, _ | _, PInf => true
  | _, _ => false
  end.

(** [a == b]; NaN equals nothing. *)
Definition feqb (a b : float) : bool :=
  match a, b with
  | Fin x, Fin y => if Req_dec_T x y then true else false
  | PInf, PInf | NInf, NInf => true
  | _, _ => false
  end.

(** Truncation towards zero, what [int(x)] is on a finite [x]. *)
Definition Ztrunc (x : R) : Z :=
  if Rle_dec 0 x then Zfloor x else (- Zfloor (- x))%Z.

(** The sum of a list, accumulated from the left. *)
Definition fsum (xs : list float) : float := fold_left fadd xs (Fin 0).

Definition notnan (a : float) : bool := negb (is_nan a).

(** [Series.mean()], [skipna=True]: the mean of the values that are not
    NaN, NaN when there is none. *)
Definition nanmean (xs : list float) : float :=
  let ys := filter notnan xs in
  match ys with
  | [] => NaN
  | _ => fdiv (fsum ys) (Fin (INR (length ys)))
  end.

(** [Series.var()], [skipna=True], [ddof=1]: NaN below two values. *)
Definition nanvar (xs : list float) : float :=
  let ys := filter notnan xs in
  if (length ys <=? 1)%nat then NaN
  else
    let m := fdiv (fsum ys) (Fin (INR (length ys))) in
    fdiv (fsum (map (fun y => fmul (fsub y m) (fsub y m)) ys))
         (Fin (INR (length ys - 1))).

(** [Series.std()]: the square root of [var]. *)
Definition nanstd (xs : list float) : float := fsqrt (nanvar xs).

(** [Series.max()], [skipna=True], on numbers. *)
Definition fmax (a b : float) : float := if fleb a b then b else a.

Definition nanmax (xs : list float) : float :=
  match filter notnan xs with
  | [] => NaN
  | y :: ys => fold_left fmax ys y
  end.

End Float.
Export Float.

(** ** Texts *)

(** A Python [str]: the list of its code points. *)
Definition pystr := list Z.

(** The [str] of an ASCII literal of the source. *)
Fixpoint py (s : string) : pystr :=
  match s with
  | EmptyString => []
  | String a r => Z.of_N (N_of_ascii a) :: py r
  end.

Definition pystr_eqb (s t : pystr) : bool :=
  if list_eq_dec Z.eq_dec s t then true else false.

(** Lexicographic order on code points, the order of [str]. *)
Fixpoint pystr_leb (s t : pystr) : bool :=
  match s, t with
  | [], _ => true
  | _ :: _, [] => false
  | a :: s', b :: t' =>
      if (a <? b)%Z then true
      else if (b <? a)%Z then false
      else pystr_leb s' t'
  end.

(** [range(n)]. *)
Definition range (n : nat) : list Z := map Z.of_nat (seq 0 n).

(** [s.translate(table)] for a table from code points to code points. *)
Fixpoint table_get (tbl : list (Z * Z)) (c : Z) : option Z :=
  match tbl with
  | [] => None
  | (k, v) :: r => if (k =? c)%Z then Some v else table_get r c
  end.

Definition translate (tbl : list (Z * Z)) (s : pystr) : pystr :=
  map (fun c => match table_get tbl c with Some d => d | None => c end) s.

(** [s.replace(old, new)] on column names: every occurrence of [old],
    from the left, without overlap. *)
Fixpoint str_replace_from (old new s : string) (skip : nat) : string :=
  match s with
  | EmptyString => EmptyString
  | String a r =>
      match skip with
      | S k => str_replace_from old new r k
      | O =>
          if String.prefix old s
          then String.append new
                 (str_replace_from old new r (String.length old - 1))
          else String a (str_replace_from old new r 0)
      end
  end.

Definition str_replace (old new s : string) : string :=
  str_replace_from old new s 0.

(** ** Cells, series and tables *)

Inductive cell : Type :=
| CNum (f : float)
| CStr (s : pystr).

Definition missing : cell := CNum NaN.

(** [pd.isna] of a cell. *)
Definition isna (c : cell) : bool :=
  match c with CNum NaN => true | _ => false end.

(** The equality of the hash tables behind [isin], [duplicated] and
    [groupby]: NaN is the same key as NaN. *)
Definition same_key (a b : cell) : bool :=
  match a, b with
  | CNum NaN, CNum NaN => true
  | CNum x, CNum y => feqb x y
  | CStr s, CStr t => pystr_eqb s t
  | _, _ => false
  end.

(** Python's [a != b]. *)
Definition py_ne (a b : cell) : bool :=
  match a, b with
  | CNum x, CNum y => negb (feqb x y)
  | CStr s, CStr t => negb (pystr_eqb s t)
  | _, _ => true
  end.

Definition Series := list cell.

Definition DataFrame := list (string * Series).

Definition columns (t : DataFrame) : list string := map fst t.

Definition has_col (c : string) (t : DataFrame) : bool :=
  existsb (String.eqb c) (columns t).

Fixpoint get_col (c : string) (t : DataFrame) : option Series :=
  match t with
  | [] => None
  | (c', s) :: r => if String.eqb c' c then Some s else get_col c r
  end.

(** [df[c] = s]: replaces the column, or appends it. *)
Fixpoint set_col (c : string) (s : Series) (t : DataFrame) : DataFrame :=
  match t with
  | [] => [(c, s)]
  | (c', s') :: r =>
      if String.eqb c' c then (c, s) :: r else (c', s') :: set_col c s r
  end.

(** [len(df)]. *)
Definition nrows (t : DataFrame) : nat :=
  match t with
  | [] => 0
  | (_, s) :: _ => length s
  end.

(** Boolean indexing: the elements whose mask is true. *)
Fixpoint select {A : Type} (mask : list bool) (xs : list A) : list A :=
  match mask, xs with
  | b :: m, x :: r => if b then x :: select m r else select m r
  | _, _ => []
  end.

Definition filter_rows (mask : list bool) (t : DataFrame) : DataFrame :=
  map (fun cs => (fst cs, select mask (snd cs))) t.

Fixpoint map2 {A B C : Type} (f : A -> B -> C) (xs : list A) (ys : list B)
  : list C :=
  match xs, ys with
  | x :: xs', y :: ys' => f x y :: map2 f xs' ys'
  | _, _ => []
  end.

(** ** Exceptions and results *)

Inductive exn : Type :=
| KeyError (c : string)
| TypeError
| ValueError
| IndexError
| NoSuchObject.

Inductive result (A : Type) : Type :=
| Ok (a : A)
| Raise (e : exn).

Arguments Ok {A} a.
Arguments Raise {A} e.

Definition rbind {A B : Type} (r : result A) (f : A -> result B) : result B :=
  match r with
  | Ok a => f a
  | Raise e => Raise e
  end.

Notation "'let*' x := r 'in' k" := (rbind r (fun x => k))
  (at level 10, x name, r at level 100, k at level 200).

(** A fallible function over a list: the first failure is raised. *)
Fixpoint mapR {A B : Type} (f : A -> result B) (xs : list A) : result (list B) :=
  match xs with
  | [] => Ok []
  | x :: r =>
      let* y := f x in
      let* ys := mapR f r in
      Ok (y :: ys)
  end.

(** ** What pandas does to one value *)

Definition is_digit (c : Z) : Prop := (48 <= c <= 57)%Z.

(** The number a string of ASCII digits denotes. *)
Definition digits_value (s : pystr) : Z :=
  fold_left (fun acc c => (10 * acc + (c - 48))%Z) s 0%Z.

Class Pandas : Type := {
  (** the number a text denotes, for [pd.to_numeric]; [None] when the
      text is no numeric literal *)
  str_to_float : pystr -> option float;
  (** a text of at most fifteen ASCII digits denotes its decimal value;
      longer ones need not: the value is rounded to the nearest number
      of the floating dtype, and more than three hundred digits are no
      number at all *)
  str_to_float_digits : forall s : pystr,
    s <> [] -> Forall is_digit s -> (length s <= 15)%nat ->
    str_to_float s = Some (Fin (IZR (digits_value s)));
  (** Python's [float(s)], for [astype(float)], which reads more texts
      than [pd.to_numeric] does (digits of other scripts, underscores
      between digits); [None] when it raises *)
  float_of_str : pystr -> option float;
  (** the text of a number, for [astype(str)] *)
  float_to_str : float -> pystr;
  (** [pd.to_datetime(s, errors='coerce').dt.month] *)
  month_of_dates : Series -> Series
}.

Section SeriesOps.
Context {P : Pandas}.

(** [pd.to_numeric(s, errors='coerce')]. *)
Definition to_numeric_cell (c : cell) : cell :=
  match c with
  | CNum f => CNum f
  | CStr s =>
      match str_to_float s with
      | Some f => CNum f
      | None => missing
      end
  end.

Definition to_numeric (s : Series) : Series := map to_numeric_cell s.

(** [s.astype(str)]. *)
Definition astype_str_cell (c : cell) : cell :=
  match c with
  | CNum f => CStr (float_to_str f)
  | CStr s => CStr s
  end.

Definition astype_str (s : Series) : Series := map astype_str_cell s.

(** [s.astype(float)]: a text that is no number raises. *)
Definition astype_float_cell (c : cell) : result cell :=
  match c with
  | CNum f => Ok (CNum f)
  | CStr s =>
      match float_of_str s with
      | Some f => Ok (CNum f)
      | None => Raise ValueError
      end
  end.

Definition astype_float (s : Series) : result Series := mapR astype_float_cell s.

(** [s.astype(int)]: truncates a finite number, raises on the others.
    The truncation is that of the mathematical integers: it is the
    conversion of pandas from [- 2 ^ 63] to below [2 ^ 63], the range of
    the integer dtype, and nothing is stated of a number beyond it. *)
Definition int_of_float (f : float) : result cell :=
  match f with
  | Fin x => Ok (CNum (Fin (IZR (Ztrunc x))))
  | _ => Raise ValueError
  end.

Definition astype_int_cell (c : cell) : result cell :=
  match c with
  | CNum f => int_of_float f
  | CStr s =>
      match str_to_float s with
      | Some (Fin x) =>
          if Req_dec_T x (IZR (Ztrunc x)) then Ok (CNum (Fin x))
          else Raise ValueError
      | _ => Raise ValueError
      end
  end.

Definition astype_int (s : Series) : result Series := mapR astype_int_cell s.

End SeriesOps.

(** [s.isin(values)]. *)
Definition isin (s : Series) (values : list cell) : list bool :=
  map (fun c => existsb (same_key c) values) s.

(** [s.duplicated()]: true at a value seen before. *)
Fixpoint duplicated_from (seen : list cell) (s : Series) : list bool :=
  match s with
  | [] => []
  | c :: r => existsb (same_key c) seen :: duplicated_from (c :: seen) r
  end.

Definition duplicated (s : Series) : list bool := duplicated_from [] s.

(** [mask.any()]. *)
Definition any (mask : list bool) : bool := existsb (fun b => b) mask.

(** Arithmetic on two cells, as pandas does it on columns that may hold
    objects: nothing is computed where a side is missing; numbers follow
    the arithmetic of floats; [+] concatenates two texts; the other
    mixtures raise. *)
Definition cell_add (a b : cell) : result cell :=
  match a, b with
  | CNum x, CNum y => Ok (CNum (fadd x y))
  | CStr s, CStr t => Ok (CStr (s ++ t))
  | _, _ => if isna a || isna b then Ok missing else Raise TypeError
  end.

Definition cell_arith (op : float -> float -> float) (a b : cell) : result cell :=
  match a, b with
  | CNum x, CNum y => Ok (CNum (op x y))
  | _, _ => if isna a || isna b then Ok missing else Raise TypeError
  end.

Definition cell_sub := cell_arith fsub.
Definition cell_mul := cell_arith fmul.
Definition cell_div := cell_arith fdiv.

(** A binary operator on two series. *)
Definition series_op (op : cell -> cell -> result cell) (a b : Series)
  : result Series :=
  mapR (fun ab => op (fst ab) (snd ab)) (combine a b).

(** A binary operator on a series and a scalar. *)
Definition series_op_scalar (op : cell -> cell -> result cell) (a : Series)
  (k : cell) : result Series :=
  mapR (fun x => op x k) a.

(** [s >= k] and [s <= k] for a number [k]: a text raises, NaN is false. *)
Definition cell_ge (k : R) (c : cell) : result bool :=
  match c with
  | CNum x => Ok (fleb (Fin k) x)
  | CStr _ => Raise TypeError
  end.

Definition cell_le (k : R) (c : cell) : result bool :=
  match c with
  | CNum x => Ok (fleb x (Fin k))
  | CStr _ => Raise TypeError
  end.

Definition series_ge (s : Series) (k : R) : result (list bool) := mapR (cell_ge k) s.
Definition series_le (s : Series) (k : R) : result (list bool) := mapR (cell_le k) s.

(** [s.fillna(v)]. *)
Definition fillna_cell (v : cell) (c : cell) : cell := if isna c then v else c.
Definition fillna (v : cell) (s : Series) : Series := map (fillna_cell v) s.

(** The numbers of a column; a text raises, there is no mean of it. *)
Definition as_float (c : cell) : result float :=
  match c with
  | CNum x => Ok x
  | CStr _ => Raise TypeError
  end.

Definition as_floats (s : Series) : result (list float) := mapR as_float s.

(** [s.max()]: the greatest number, NaN skipped; the greatest text of a
    column of texts; a column that mixes texts with anything else raises. *)
Definition as_text (c : cell) : option pystr :=
  match c with CStr s => Some s | CNum _ => None end.

Fixpoint texts_of (s : Series) : option (list pystr) :=
  match s with
  | [] => Some []
  | c :: r =>
      match as_text c, texts_of r with
      | Some x, Some xs => Some (x :: xs)
      | _, _ => None
      end
  end.

Definition text_max (a b : pystr) : pystr := if pystr_leb a b then b else a.

Definition series_max (s : Series) : result cell :=
  match as_floats s with
  | Ok xs => Ok (CNum (nanmax xs))
  | Raise _ =>
      match texts_of s with
      | Some (x :: xs) => Ok (CStr (fold_left text_max xs x))
      | _ => Raise TypeError
      end
  end.

(** [groupby(key)[col].transform(agg)]: at every row, the aggregate of
    the rows that have the same key; NaN where the key is missing. *)
Definition group_values {A : Type} (keys : Series) (vals : list A) (k : cell)
  : list A :=
  select (map (same_key k) keys) vals.

Definition transform (agg : list float -> float) (keys : Series)
  (vals : list float) : Series :=
  map (fun k => if isna k then missing
                else CNum (agg (group_values keys vals k))) keys.

(** ** Tables: missing rows, replacement *)

(** The rows where none of the columns [subset] is missing. *)
Fixpoint notna_mask (subset : list string) (t : DataFrame) : result (list bool) :=
  match subset with
  | [] => Ok (repeat true (nrows t))
  | c :: r =>
      match get_col c t with
      | None => Raise (KeyError c)
      | Some s =>
          let* m := notna_mask r t in
          Ok (map2 andb (map (fun x => negb (isna x)) s) m)
      end
  end.

(** [replace] with a list of (old, new): a cell that is an old value
    becomes the new one; the cells are compared before any is replaced. *)
Fixpoint replace_cell (pairs : list (cell * cell)) (c : cell) : cell :=
  match pairs with
  | [] => c
  | (old, new) :: r => if same_key old c then new else replace_cell r c
  end.

Fixpoint dict_get {A : Type} (d : list (string * A)) (c : string) : option A :=
  match d with
  | [] => None
  | (k, v) :: r => if String.eqb k c then Some v else dict_get r c
  end.

(** [df.replace({col: {old: new}})]: only the columns of the dictionary
    that the table has are touched. *)
Definition replace_columnwise (d : list (string * list (cell * cell)))
  (t : DataFrame) : DataFrame :=
  map (fun cs => match dict_get d (fst cs) with
                 | Some pairs => (fst cs, map (replace_cell pairs) (snd cs))
                 | None => cs
                 end) t.

(** [df.replace(old, new)]. *)
Definition replace_value (old new : cell) (t : DataFrame) : DataFrame :=
  map (fun cs => (fst cs, map (replace_cell [(old, new)]) (snd cs))) t.

(** ** The object store *)

Definition ref := nat.
Definition heap := list DataFrame.

Definition M (A : Type) : Type := heap -> result A * heap.

Definition ret {A : Type} (a : A) : M A := fun h => (Ok a, h).

Definition bind {A B : Type} (m : M A) (f : A -> M B) : M B :=
  fun h =>
    match m h with
    | (Ok a, h') => f a h'
    | (Raise e, h') => (Raise e, h')
    end.

Notation "x <- m ;; k" := (bind m (fun x => k))
  (at level 61, m at next level, right associativity).
Notation "m ;; k" := (bind m (fun _ => k))
  (at level 61, right associativity).

Definition lift {A : Type} (r : result A) : M A := fun h => (r, h).

Definition load (df : ref) : M DataFrame :=
  fun h =>
    match nth_error h df with
    | Some t => (Ok t, h)
    | None => (Raise NoSuchObject, h)
    end.

Definition alloc (t : DataFrame) : M ref :=
  fun h => (Ok (length h), h ++ [t]).

Fixpoint update (h : heap) (i : nat) (t : DataFrame) : heap :=
  match h, i with
  | [], _ => []
  | _ :: r, O => t :: r
  | x :: r, S j => x :: update r j t
  end.

Definition store (df : ref) (t : DataFrame) : M unit :=
  fun h => (Ok tt, update h df t).

Fixpoint for_each {A : Type} (xs : list A) (body : A -> M unit) : M unit :=
  match xs with
  | [] => ret tt
  | x :: r => body x ;; for_each r body
  end.

(** [df.copy()] *)
Definition DataFrame_copy (df : ref) : M ref :=
  t <- load df ;; alloc t.

(** [df.columns] *)
Definition get_columns (df : ref) : M (list string) :=
  t <- load df ;; ret (columns t).

(** [c in df.columns] *)
Definition contains (c : string) (df : ref) : M bool :=
  cols <- get_columns df ;; ret (existsb (String.eqb c) cols).

(** [df[c]] *)
Definition getitem (df : ref) (c : string) : M Series :=
  t <- load df ;;
  match get_col c t with
  | Some s => ret s
  | None => lift (Raise (KeyError c))
  end.

(** [df[c] = s] *)
Definition setitem (df : ref) (c : string) (s : Series) : M unit :=
  t <- load df ;; store df (set_col c s t).

(** [df[mask]] *)
Definition getitem_mask (df : ref) (mask : list bool) : M ref :=
  t <- load df ;; alloc (filter_rows mask t).

(** [df.dropna(subset=...)] *)
Definition dropna (df : ref) (subset : list string) : M ref :=
  t <- load df ;;
  mask <- lift (notna_mask subset t) ;;
  alloc (filter_rows mask t).

(** [df.replace(d)] and [df.replace(old, new)] *)
Definition replace_dict (df : ref) (d : list (string * list (cell * cell))) : M ref :=
  t <- load df ;; alloc (replace_columnwise d t).

Definition replace (df : ref) (old new : cell) : M ref :=
  t <- load df ;; alloc (replace_value old new t).

(** [len(df)] *)
Definition len (df : ref) : M nat :=
  t <- load df ;; ret (nrows t).

(** [df[cols]], a table of its own *)
Definition select_columns (cols : list string) (t : DataFrame) : result DataFrame :=
  mapR (fun c => match get_col c t with
                 | Some s => Ok (c, s)
                 | None => Raise (KeyError c)
                 end) cols.

Definition getitem_cols (df : ref) (cols : list string) : M DataFrame :=
  t <- load df ;; lift (select_columns cols t).

(** [df[cols] = values], column by column *)
Definition set_cols (values : DataFrame) (t : DataFrame) : DataFrame :=
  fold_left (fun acc cs => set_col (fst cs) (snd cs) acc) values t.

Definition setitem_cols (df : ref) (values : DataFrame) : M unit :=
  t <- load df ;; store df (set_cols values t).

(** An operator on two tables that have the same columns, and on a
    table and a scalar. *)
Definition frame_op (op : cell -> cell -> result cell) (a b : DataFrame)
  : result DataFrame :=
  mapR (fun ab => let* s := series_op op (snd (fst ab)) (snd (snd ab)) in
                  Ok (fst (fst ab), s)) (combine a b).

Definition frame_op_scalar (op : cell -> cell -> result cell) (a : DataFrame)
  (k : cell) : result DataFrame :=
  mapR (fun cs => let* s := series_op_scalar op (snd cs) k in
                  Ok (fst cs, s)) a.

Definition frame_fillna (v : cell) (a : DataFrame) : DataFrame :=
  map (fun cs => (fst cs, fillna v (snd cs))) a.

(** A table that has rows and no group: every key is missing.  The
    aggregates of no group cannot be laid out along the rows, and
    [transform] raises [IndexError]. *)
Definition no_group (keys : Series) : bool :=
  match keys with
  | [] => false
  | _ :: _ => forallb isna keys
  end.

(** [df.groupby(key)[cols].transform(agg)] *)
Definition groupby_transform (key : string) (cols : list string)
  (agg : list float -> float) (t : DataFrame) : result DataFrame :=
  match get_col key t with
  | None => Raise (KeyError key)
  | Some keys =>
      if no_group keys then Raise IndexError
      else
        mapR (fun c => match get_col c t with
                       | None => Raise (KeyError c)
                       | Some s =>
                           let* xs := as_floats s in
                           Ok (c, transform agg keys xs)
                       end) cols
  end.

(** [df[cols].agg()], one value a column, laid out along the rows as the
    arithmetic of a table with it does. *)
Definition column_stat (cols : list string) (agg : list float -> float)
  (t : DataFrame) : result DataFrame :=
  mapR (fun c => match get_col c t with
                 | None => Raise (KeyError c)
                 | Some s =>
                     let* xs := as_floats s in
                     Ok (c, repeat (CNum (agg xs)) (List.length s))
                 end) cols.

(** ** [class DataValidator] *)

Module DataValidator.
Section Methods.
Context {P : Pandas}.

Definition invalid_positions : list cell :=
  [CStr [0x5916%Z]; CStr [0x6D88%Z]; CStr (py "DQ"); CStr (py "DNS")].

Definition _remove_invalid_positions (df : ref) : M ref :=
  df_copy <- DataFrame_copy df ;;
  df_copy <-
    (present <- contains "finishing_position" df_copy ;;
     if present then
       s <- getitem df_copy "finishing_position" ;;
       setitem df_copy "finishing_position" (to_numeric s) ;;
       df_copy <- dropna df_copy ["finishing_position"%string] ;;
       s <- getitem df_copy "finishing_position" ;;
       s <- lift (astype_int s) ;;
       setitem df_copy "finishing_position" s ;;
       ret df_copy
     else ret df_copy) ;;
  df_copy <-
    (present <- contains "raw_finishing_position" df_copy ;;
     if present then
       s <- getitem df_copy "raw_finishing_position" ;;
       getitem_mask df_copy (map negb (isin s invalid_positions))
     else ret df_copy) ;;
  ret df_copy.

Definition numeric_columns : list string :=
  ["age"; "horse_weight"; "weight_carried"; "distance";
   "field_size"; "popularity"; "odds";
   "last_race_distance"; "last_race_field_size";
   "second_last_distance"; "second_last_field_size";
   "third_last_distance"; "third_last_field_size"]%string.

Definition string_columns : list string :=
  ["horse_name"; "jockey_name"; "trainer_name";
   "track_name"; "race_class"; "track_condition";
   "weather"; "gender"]%string.

Definition _standardize_data_types (df : ref) : M ref :=
  df_copy <- DataFrame_copy df ;;
  for_each numeric_columns (fun col =>
    present <- contains col df_copy ;;
    if present then
      s <- getitem df_copy col ;;
      setitem df_copy col (to_numeric s)
    else ret tt) ;;
  for_each string_columns (fun col =>
    present <- contains col df_copy ;;
    if present then
      s <- getitem df_copy col ;;
      setitem df_copy col (astype_str s)
    else ret tt) ;;
  ret df_copy.

Definition rank_replacement : list (cell * cell) :=
  [(CStr (py "0"), CStr (py "")); (missing, CNum (Fin 18))].

Definition position_replacements : list (string * list (cell * cell)) :=
  [("last_race_corner2", rank_replacement);
   ("last_race_corner3", rank_replacement);
   ("last_race_corner4", rank_replacement);
   ("last_race_final_furlong_rank", rank_replacement);
   ("second_last_corner2", rank_replacement);
   ("second_last_corner3", rank_replacement);
   ("second_last_corner4", rank_replacement);
   ("second_last_final_furlong_rank", rank_replacement);
   ("third_last_corner2", rank_replacement);
   ("third_last_corner3", rank_replacement);
   ("third_last_corner4", rank_replacement);
   ("third_last_final_furlong_rank", rank_replacement)]%string.

Definition essential_columns : list string :=
  ["horse_name"; "track_name"; "distance"]%string.

Definition _handle_missing_values (df : ref) : M ref :=
  df_copy <- DataFrame_copy df ;;
  df_copy <- replace_dict df_copy position_replacements ;;
  df_copy <- replace df_copy (CStr (py "")) missing ;;
  cols <- get_columns df_copy ;;
  let existing_essential :=
    filter (fun col => existsb (String.eqb col) cols) essential_columns in
  df_copy <-
    (match existing_essential with
     | _ :: _ => dropna df_copy existing_essential
     | [] => ret df_copy
     end) ;;
  ret df_copy.

(** [df[(df[col] >= lo) & (df[col] <= hi)]] *)
Definition between (df : ref) (col : string) (lo hi : R) : M ref :=
  s <- getitem df col ;;
  ge <- lift (series_ge s lo) ;;
  s <- getitem df col ;;
  le <- lift (series_le s hi) ;;
  getitem_mask df (map2 andb ge le).

Definition _remove_outliers (df : ref) : M ref :=
  df_copy <- DataFrame_copy df ;;
  df_copy <-
    (present <- contains "horse_weight" df_copy ;;
     if present then between df_copy "horse_weight" 300 700
     else ret df_copy) ;;
  df_copy <-
    (present <- contains "odds" df_copy ;;
     if present then between df_copy "odds" 1 (9999 / 10)
     else ret df_copy) ;;
  df_copy <-
    (present <- contains "distance" df_copy ;;
     if present then between df_copy "distance" 800 4000
     else ret df_copy) ;;
  ret df_copy.

Definition validate_and_clean (df : ref) : M ref :=
  cleaned_df <- DataFrame_copy df ;;
  cleaned_df <- _remove_invalid_positions cleaned_df ;;
  cleaned_df <- _standardize_data_types cleaned_df ;;
  cleaned_df <- _handle_missing_values cleaned_df ;;
  cleaned_df <- _remove_outliers cleaned_df ;;
  ret cleaned_df.

(** The entries of [validation_results]; the method logs them. *)
Inductive violation : Type :=
| MissingColumn (col : string)
| DuplicateHorseNumber
| FieldSizeMismatch (declared actual : cell).

Definition required_columns : list string := ["horse_number"; "horse_name"]%string.

(** [validate_race_data]: the boolean it returns, with the list
    [validation_results] it has logged. *)
Definition validate_race_data (df : ref) : M (bool * list violation) :=
  cols <- get_columns df ;;
  let validation_results :=
    flat_map (fun col => if existsb (String.eqb col) cols then []
                         else [MissingColumn col]) required_columns in
  validation_results <-
    (present <- contains "horse_number" df ;;
     if present then
       s <- getitem df "horse_number" ;;
       if any (duplicated s)
       then ret (validation_results ++ [DuplicateHorseNumber])
       else ret validation_results
     else ret validation_results) ;;
  validation_results <-
    (has_size <- contains "field_size" df ;;
     has_number <- contains "horse_number" df ;;
     if has_size && has_number then
       s <- getitem df "horse_number" ;;
       max_horse_number <- lift (series_max s) ;;
       n <- len df ;;
       declared_field_size <-
         (if (0 <? n)%nat then
            s <- getitem df "field_size" ;;
            ret (hd missing s)
          else ret (CNum (Fin 0))) ;;
       if py_ne max_horse_number declared_field_size
       then ret (validation_results
                   ++ [FieldSizeMismatch declared_field_size max_horse_number])
       else ret validation_results
     else ret validation_results) ;;
  match validation_results with
  | [] => ret (true, validation_results)
  | _ :: _ => ret (false, validation_results)
  end.

End Methods.
End DataValidator.

(** ** [class FeatureEngineer] *)

Module FeatureEngineer.
Section Methods.
Context {P : Pandas}.

(** [@staticmethod _extract_month_from_date] *)
Definition _extract_month_from_date (date_series : Series) : Series :=
  month_of_dates date_series.

(** The table of [str.maketrans]: [chr(0xFF01 + i)] to [chr(0x21 + i)]
    for [i] in [range(94)]. *)
Definition fullwidth_table : list (Z * Z) :=
  map (fun i => (0xFF01 + i, 0x21 + i)%Z) (range 94).

(** [@staticmethod _convert_position_to_numeric] *)
Definition _convert_position_to_numeric (position_series : Series) : Series :=
  let converted_series :=
    map (fun c => match c with
                  | CStr s => CStr (translate fullwidth_table s)
                  | CNum f => CNum f
                  end) (astype_str position_series) in
  to_numeric converted_series.

Definition date_columns : list string :=
  ["race_date"; "last_race_date"; "second_last_race_date";
   "third_last_race_date"]%string.

Definition underscore : cell := CStr (py "_").

(** [a + '_' + b] on two series *)
Definition joined (a b : Series) : result Series :=
  let* a_ := series_op_scalar cell_add a underscore in
  series_op cell_add a_ b.

Definition _create_temporal_features (df : ref) : M ref :=
  df_copy <- DataFrame_copy df ;;
  for_each date_columns (fun col =>
    present <- contains col df_copy ;;
    if present then
      let month_col := str_replace "_date" "_month" col in
      s <- getitem df_copy col ;;
      setitem df_copy month_col (_extract_month_from_date s)
    else ret tt) ;;
  (has_month <- contains "race_month" df_copy ;;
   has_gender <- contains "gender" df_copy ;;
   if has_month && has_gender then
     month <- getitem df_copy "race_month" ;;
     gender <- getitem df_copy "gender" ;;
     s <- lift (joined (astype_str month) (astype_str gender)) ;;
     setitem df_copy "month_gender_combination" s
   else ret tt) ;;
  (has_month <- contains "race_month" df_copy ;;
   has_age <- contains "age" df_copy ;;
   if has_month && has_age then
     month <- getitem df_copy "race_month" ;;
     age <- getitem df_copy "age" ;;
     s <- lift (series_op cell_add month age) ;;
     setitem df_copy "month_age_combination" s
   else ret tt) ;;
  ret df_copy.

Definition position_features : list string :=
  ["last_race_position"; "second_last_position"; "third_last_position"]%string.

Definition corner_uphill_features : list (string * string) :=
  [("last_race_corner3", "last_race_final_furlong_rank");
   ("second_last_corner3", "second_last_final_furlong_rank");
   ("third_last_corner3", "third_last_final_furlong_rank")]%string.

Definition _create_performance_features (df : ref) : M ref :=
  df_copy <- DataFrame_copy df ;;
  for_each position_features (fun col =>
    present <- contains col df_copy ;;
    if present then
      s <- getitem df_copy col ;;
      setitem df_copy col (_convert_position_to_numeric s)
    else ret tt) ;;
  for_each corner_uphill_features (fun cu =>
    let corner_col := fst cu in
    let uphill_col := snd cu in
    has_corner <- contains corner_col df_copy ;;
    has_uphill <- contains uphill_col df_copy ;;
    if has_corner && has_uphill then
      let feature_name := String.append corner_col "_uphill_combined" in
      corner <- getitem df_copy corner_col ;;
      corner <- lift (astype_float corner) ;;
      weighted <- lift (series_op_scalar cell_mul corner (CNum (Fin (8 / 10)))) ;;
      uphill <- getitem df_copy uphill_col ;;
      uphill <- lift (astype_float uphill) ;;
      s <- lift (series_op cell_add weighted uphill) ;;
      setitem df_copy feature_name s
    else ret tt) ;;
  (has_popularity <- contains "last_race_popularity" df_copy ;;
   has_position <- contains "last_race_position" df_copy ;;
   if has_popularity && has_position then
     popularity <- getitem df_copy "last_race_popularity" ;;
     position <- getitem df_copy "last_race_position" ;;
     gap <- lift (series_op cell_sub popularity position) ;;
     field_size <- getitem df_copy "last_race_field_size" ;;
     s <- lift (series_op cell_div gap field_size) ;;
     setitem df_copy "popularity_performance_gap" s
   else ret tt) ;;
  ret df_copy.

Definition _create_physical_features (df : ref) : M ref :=
  df_copy <- DataFrame_copy df ;;
  (has_carried <- contains "weight_carried" df_copy ;;
   has_weight <- contains "horse_weight" df_copy ;;
   if has_carried && has_weight then
     carried <- getitem df_copy "weight_carried" ;;
     weight <- getitem df_copy "horse_weight" ;;
     ratio <- lift (series_op cell_div carried weight) ;;
     s <- lift (series_op_scalar cell_mul ratio (CNum (Fin 100))) ;;
     setitem df_copy "weight_burden_ratio" s
   else ret tt) ;;
  (has_size <- contains "field_size" df_copy ;;
   has_last <- contains "last_race_field_size" df_copy ;;
   if has_size && has_last then
     size <- getitem df_copy "field_size" ;;
     last <- getitem df_copy "last_race_field_size" ;;
     s <- lift (series_op cell_sub size last) ;;
     setitem df_copy "field_size_change" s
   else ret tt) ;;
  (has_distance <- contains "distance" df_copy ;;
   has_last <- contains "last_race_distance" df_copy ;;
   if has_distance && has_last then
     distance <- getitem df_copy "distance" ;;
     distance <- lift (astype_float distance) ;;
     last <- getitem df_copy "last_race_distance" ;;
     last <- lift (astype_float last) ;;
     s <- lift (series_op cell_sub distance last) ;;
     setitem df_copy "distance_change" s
   else ret tt) ;;
  ret df_copy.

Definition track_performance_combinations : list (string * string * string) :=
  [("track_name", "last_race_corner3", "track_last_corner3");
   ("track_name", "last_race_corner4", "track_last_corner4");
   ("track_name", "last_race_final_furlong_rank", "track_last_uphill")]%string.

Definition _create_race_condition_features (df : ref) : M ref :=
  df_copy <- DataFrame_copy df ;;
  (has_track <- contains "track_name" df_copy ;;
   has_distance <- contains "distance" df_copy ;;
   if has_track && has_distance then
     track <- getitem df_copy "track_name" ;;
     track_ <- lift (series_op_scalar cell_add track underscore) ;;
     distance <- getitem df_copy "distance" ;;
     s <- lift (series_op cell_add track_ (astype_str distance)) ;;
     setitem df_copy "track_distance_combination" s
   else ret tt) ;;
  for_each track_performance_combinations (fun tpn =>
    let track_col := fst (fst tpn) in
    let perf_col := snd (fst tpn) in
    let new_col := snd tpn in
    has_track <- contains track_col df_copy ;;
    has_perf <- contains perf_col df_copy ;;
    if has_track && has_perf then
      track <- getitem df_copy track_col ;;
      track_ <- lift (series_op_scalar cell_add track underscore) ;;
      perf <- getitem df_copy perf_col ;;
      s <- lift (series_op cell_add track_ (astype_str perf)) ;;
      setitem df_copy new_col s
    else ret tt) ;;
  (has_class <- contains "class_name" df_copy ;;
   has_last <- contains "last_race_class" df_copy ;;
   if has_class && has_last then
     class <- getitem df_copy "class_name" ;;
     class_ <- lift (series_op_scalar cell_add class underscore) ;;
     last <- getitem df_copy "last_race_class" ;;
     s <- lift (series_op cell_add class_ last) ;;
     setitem df_copy "class_progression" s
   else ret tt) ;;
  ret df_copy.

Definition _create_interaction_features (df : ref) : M ref :=
  df_copy <- DataFrame_copy df ;;
  (has_track <- contains "track_name" df_copy ;;
   has_last <- contains "last_race_track" df_copy ;;
   if has_track && has_last then
     track <- getitem df_copy "track_name" ;;
     track_ <- lift (series_op_scalar cell_add track underscore) ;;
     last <- getitem df_copy "last_race_track" ;;
     s <- lift (series_op cell_add track_ last) ;;
     setitem df_copy "track_last_track_combination" s
   else ret tt) ;;
  ret df_copy.

(** [(values - means) / stds * 10 + 50] on tables *)
Definition deviation_score (values means stds : DataFrame) : result DataFrame :=
  let* centred := frame_op cell_sub values means in
  let* scaled := frame_op cell_div centred stds in
  let* tenfold := frame_op_scalar cell_mul scaled (CNum (Fin 10)) in
  frame_op_scalar cell_add tenfold (CNum (Fin 50)).

Definition existing (features cols : list string) : list string :=
  filter (fun f => existsb (String.eqb f) cols) features.

Definition _calculate_zscore_by_race (df : ref) (features : list string) : M ref :=
  df_copy <- DataFrame_copy df ;;
  cols <- get_columns df_copy ;;
  let existing_features := existing features cols in
  (match existing_features with
   | _ :: _ =>
       t <- load df_copy ;;
       race_means <- lift (groupby_transform "race_id" existing_features nanmean t) ;;
       t <- load df_copy ;;
       race_stds <- lift (groupby_transform "race_id" existing_features nanstd t) ;;
       values <- getitem_cols df_copy existing_features ;;
       scores <- lift (deviation_score values race_means race_stds) ;;
       setitem_cols df_copy scores ;;
       values <- getitem_cols df_copy existing_features ;;
       setitem_cols df_copy (frame_fillna (CNum (Fin 50)) values)
   | [] => ret tt
   end) ;;
  ret df_copy.

Definition _calculate_global_zscore (df : ref) (features : list string) : M ref :=
  df_copy <- DataFrame_copy df ;;
  cols <- get_columns df_copy ;;
  let existing_features := existing features cols in
  (match existing_features with
   | _ :: _ =>
       t <- load df_copy ;;
       global_means <- lift (column_stat existing_features nanmean t) ;;
       t <- load df_copy ;;
       global_stds <- lift (column_stat existing_features nanstd t) ;;
       values <- getitem_cols df_copy existing_features ;;
       scores <- lift (deviation_score values global_means global_stds) ;;
       setitem_cols df_copy scores ;;
       values <- getitem_cols df_copy existing_features ;;
       setitem_cols df_copy (frame_fillna (CNum (Fin 50)) values)
   | [] => ret tt
   end) ;;
  ret df_copy.

Definition zscore_features : list string :=
  ["age"; "horse_weight"; "weight_burden_ratio";
   "last_race_corner3"; "last_race_corner4"; "last_race_final_furlong_rank";
   "last_race_time_difference"; "last_race_horse_weight";
   "second_last_corner3"; "second_last_corner4"; "second_last_final_furlong_rank";
   "second_last_time_difference"; "second_last_horse_weight";
   "third_last_corner3"; "third_last_corner4"; "third_last_final_furlong_rank";
   "third_last_time_difference"; "third_last_horse_weight"]%string.

Definition index_features : list string :=
  ["leading_index_last"; "pace_index_last"; "uphill_index_last"; "speed_index_last";
   "leading_index_second"; "pace_index_second"; "uphill_index_second"; "speed_index_second";
   "leading_index_third"; "pace_index_third"; "uphill_index_third"; "speed_index_third"]%string.

(** The catalogue: [zscore_features] after [extend(index_features)]. *)
Definition catalogue : list string := zscore_features ++ index_features.

Definition _standardize_numerical_features (df : ref) : M ref :=
  df_copy <- DataFrame_copy df ;;
  has_race <- contains "race_id" df_copy ;;
  df_copy <-
    (if has_race then _calculate_zscore_by_race df_copy catalogue
     else _calculate_global_zscore df_copy catalogue) ;;
  ret df_copy.

Definition create_features (df : ref) : M ref :=
  enhanced_df <- DataFrame_copy df ;;
  enhanced_df <- _create_temporal_features enhanced_df ;;
  enhanced_df <- _create_performance_features enhanced_df ;;
  enhanced_df <- _create_physical_features enhanced_df ;;
  enhanced_df <- _create_race_condition_features enhanced_df ;;
  enhanced_df <- _create_interaction_features enhanced_df ;;
  enhanced_df <- _standardize_numerical_features enhanced_df ;;
  ret enhanced_df.

End Methods.
End FeatureEngineer.

(** ** Running a method

    [run m t] is what the method [m] returns when it is called on a
    store that holds the table [t] alone; [run_table] reads the table
    behind the reference it returns. *)

Definition run {A : Type} (m : ref -> M A) (t : DataFrame) : result A :=
  fst (m 0 [t]).

Definition run_table (m : ref -> M ref) (t : DataFrame) : result DataFrame :=
  match m 0 [t] with
  | (Ok r, h) =>
      match nth_error h r with
      | Some t' => Ok t'
      | None => Raise NoSuchObject
      end
  | (Raise e, _) => Raise e
  end.

(** ** What a command does to the store

    [reads e g]: [e] changes nothing and returns [g] of the table it is
    given.  [updates c f]: [c] changes the object it is given into [f]
    of it, in place, and nothing else.  [on_top c f]: run on the newest
    object of the store, [c] leaves the older objects as they are and
    returns the newest object of the store it leaves, which holds [f] of
    the table.  [transforms c f]: [c] changes no object of the store and
    returns a new one, which holds [f] of the table it is given. *)

Definition reads {A : Type} (e : ref -> M A) (g : DataFrame -> result A) : Prop :=
  forall h r t, nth_error h r = Some t -> e r h = (g t, h).

Definition updates (c : ref -> M unit) (f : DataFrame -> result DataFrame) : Prop :=
  forall h r t, nth_error h r = Some t ->
    match f t with
    | Ok t' => c r h = (Ok tt, update h r t')
    | Raise e => exists t', c r h = (Raise e, update h r t')
    end.

Definition on_top (c : ref -> M ref) (f : DataFrame -> result DataFrame) : Prop :=
  forall h t,
    match f t with
    | Ok t' => exists ext,
        c (length h) (h ++ [t]) = (Ok (length (h ++ ext)), (h ++ ext) ++ [t'])
    | Raise e => exists ext, c (length h) (h ++ [t]) = (Raise e, h ++ ext)
    end.

Definition transforms (c : ref -> M ref) (f : DataFrame -> result DataFrame) : Prop :=
  forall h r t, nth_error h r = Some t ->
    match f t with
    | Ok t' => exists ext, c r h = (Ok (length (h ++ ext)), (h ++ ext) ++ [t'])
    | Raise e => exists ext, c r h = (Raise e, h ++ ext)
    end.

(** ** The tables the methods return *)

(** [df[c]], on the table. *)
Definition col (c : string) (t : DataFrame) : result Series :=
  match get_col c t with
  | Some s => Ok s
  | None => Raise (KeyError c)
  end.

(** The table after a loop of updates. *)
Fixpoint foldR {A : Type} (f : A -> DataFrame -> result DataFrame) (xs : list A)
  (t : DataFrame) : result DataFrame :=
  match xs with
  | [] => Ok t
  | x :: r => let* t1 := f x t in foldR f r t1
  end.

(** [df[c] = g(df[c])] when the column is there. *)
Definition convert_column (g : Series -> Series) (c : string) (t : DataFrame)
  : result DataFrame :=
  if has_col c t then
    let* s := col c t in
    Ok (set_col c (g s) t)
  else Ok t.

Module ValidatorTables.
Import DataValidator.
Section Tables.
Context {P : Pandas}.

Definition remove_invalid_positions (t : DataFrame) : result DataFrame :=
  let* t :=
    (if has_col "finishing_position" t then
       let* s := col "finishing_position" t in
       let t := set_col "finishing_position" (to_numeric s) t in
       let* m := notna_mask ["finishing_position"%string] t in
       let t := filter_rows m t in
       let* s := col "finishing_position" t in
       let* s := astype_int s in
       Ok (set_col "finishing_position" s t)
     else Ok t) in
  if has_col "raw_finishing_position" t then
    let* s := col "raw_finishing_position" t in
    Ok (filter_rows (map negb (isin s invalid_positions)) t)
  else Ok t.

Definition standardize_data_types (t : DataFrame) : result DataFrame :=
  let* t := foldR (convert_column to_numeric) numeric_columns t in
  foldR (convert_column astype_str) string_columns t.

Definition handle_missing_values (t : DataFrame) : result DataFrame :=
  let t := replace_columnwise position_replacements t in
  let t := replace_value (CStr (py "")) missing t in
  match filter (fun c => has_col c t) essential_columns with
  | c :: cs =>
      let* m := notna_mask (c :: cs) t in
      Ok (filter_rows m t)
  | [] => Ok t
  end.

Definition keep_between (c : string) (lo hi : R) (t : DataFrame)
  : result DataFrame :=
  if has_col c t then
    let* s := col c t in
    let* ge := series_ge s lo in
    let* s := col c t in
    let* le := series_le s hi in
    Ok (filter_rows (map2 andb ge le) t)
  else Ok t.

Definition remove_outliers (t : DataFrame) : result DataFrame :=
  let* t := keep_between "horse_weight" 300 700 t in
  let* t := keep_between "odds" 1 (9999 / 10) t in
  keep_between "distance" 800 4000 t.

Definition validate_and_clean (t : DataFrame) : result DataFrame :=
  let* t := remove_invalid_positions t in
  let* t := standardize_data_types t in
  let* t := handle_missing_values t in
  remove_outliers t.

End Tables.

(** The list [validation_results] and the boolean of
    [validate_race_data], on the table. *)
Definition missing_columns (t : DataFrame) : list violation :=
  flat_map (fun c => if has_col c t then [] else [MissingColumn c])
    required_columns.

Definition duplicate_check (t : DataFrame) : result (list violation) :=
  if has_col "horse_number" t then
    let* s := col "horse_number" t in
    Ok (if any (duplicated s) then [DuplicateHorseNumber] else [])
  else Ok [].

Definition declared_field_size (t : DataFrame) : result cell :=
  if (0 <? nrows t)%nat then
    let* s := col "field_size" t in
    Ok (hd missing s)
  else Ok (CNum (Fin 0)).

Definition field_size_check (t : DataFrame) : result (list violation) :=
  if has_col "field_size" t && has_col "horse_number" t then
    let* s := col "horse_number" t in
    let* max_horse_number := series_max s in
    let* declared := declared_field_size t in
    Ok (if py_ne max_horse_number declared
        then [FieldSizeMismatch declared max_horse_number]
        else [])
  else Ok [].

Definition validation_results (t : DataFrame) : result (list violation) :=
  let* d := duplicate_check t in
  let* f := field_size_check t in
  Ok (missing_columns t ++ d ++ f).

Definition validate_race_data (t : DataFrame) : result (bool * list violation) :=
  let* v := validation_results t in
  Ok (match v with [] => true | _ :: _ => false end, v).

End ValidatorTables.

Module FeatureTables.
Import FeatureEngineer.
Section Tables.
Context {P : Pandas}.

(** [df[new] = g(df[a], df[b])] when both columns are there. *)
Definition combine_columns (g : Series -> Series -> result Series)
  (a b new : string) (t : DataFrame) : result DataFrame :=
  if has_col a t && has_col b t then
    let* x := col a t in
    let* y := col b t in
    let* s := g x y in
    Ok (set_col new s t)
  else Ok t.

Definition month_column (c : string) (t : DataFrame) : result DataFrame :=
  if has_col c t then
    let* s := col c t in
    Ok (set_col (str_replace "_date" "_month" c) (_extract_month_from_date s) t)
  else Ok t.

Definition create_temporal_features (t : DataFrame) : result DataFrame :=
  let* t := foldR month_column date_columns t in
  let* t := combine_columns (fun m g => joined (astype_str m) (astype_str g))
              "race_month" "gender" "month_gender_combination" t in
  combine_columns (series_op cell_add)
    "race_month" "age" "month_age_combination" t.

Definition corner_uphill (corner uphill : Series) : result Series :=
  let* corner := astype_float corner in
  let* weighted := series_op_scalar cell_mul corner (CNum (Fin (8 / 10))) in
  let* uphill := astype_float uphill in
  series_op cell_add weighted uphill.

Definition popularity_gap (t : DataFrame) : result DataFrame :=
  if has_col "last_race_popularity" t && has_col "last_race_position" t then
    let* popularity := col "last_race_popularity" t in
    let* position := col "last_race_position" t in
    let* gap := series_op cell_sub popularity position in
    let* field_size := col "last_race_field_size" t in
    let* s := series_op cell_div gap field_size in
    Ok (set_col "popularity_performance_gap" s t)
  else Ok t.

Definition create_performance_features (t : DataFrame) : result DataFrame :=
  let* t := foldR (convert_column _convert_position_to_numeric)
              position_features t in
  let* t := foldR (fun cu => combine_columns corner_uphill (fst cu) (snd cu)
                               (String.append (fst cu) "_uphill_combined"))
              corner_uphill_features t in
  popularity_gap t.

Definition burden_ratio (carried weight : Series) : result Series :=
  let* ratio := series_op cell_div carried weight in
  series_op_scalar cell_mul ratio (CNum (Fin 100)).

Definition float_difference (a b : Series) : result Series :=
  let* a := astype_float a in
  let* b := astype_float b in
  series_op cell_sub a b.

Definition create_physical_features (t : DataFrame) : result DataFrame :=
  let* t := combine_columns burden_ratio
              "weight_carried" "horse_weight" "weight_burden_ratio" t in
  let* t := combine_columns (series_op cell_sub)
              "field_size" "last_race_field_size" "field_size_change" t in
  combine_columns float_difference
    "distance" "last_race_distance" "distance_change" t.

Definition joined_text (a b : Series) : result Series :=
  let* a_ := series_op_scalar cell_add a underscore in
  series_op cell_add a_ (astype_str b).

Definition create_race_condition_features (t : DataFrame) : result DataFrame :=
  let* t := combine_columns joined_text
              "track_name" "distance" "track_distance_combination" t in
  let* t := foldR (fun tpn => combine_columns joined_text
                                (fst (fst tpn)) (snd (fst tpn)) (snd tpn))
              track_performance_combinations t in
  combine_columns joined "class_name" "last_race_class" "class_progression" t.

Definition create_interaction_features (t : DataFrame) : result DataFrame :=
  combine_columns joined
    "track_name" "last_race_track" "track_last_track_combination" t.

(** The two normalizations differ by the statistics only. *)
Definition zscore_with
  (stat : list string -> (list float -> float) -> DataFrame -> result DataFrame)
  (features : list string) (t : DataFrame) : result DataFrame :=
  match existing features (columns t) with
  | f :: fs =>
      let* means := stat (f :: fs) nanmean t in
      let* stds := stat (f :: fs) nanstd t in
      let* values := select_columns (f :: fs) t in
      let* scores := deviation_score values means stds in
      let t := set_cols scores t in
      let* values := select_columns (f :: fs) t in
      Ok (set_cols (frame_fillna (CNum (Fin 50)) values) t)
  | [] => Ok t
  end.

Definition calculate_zscore_by_race : list string -> DataFrame -> result DataFrame :=
  zscore_with (groupby_transform "race_id").

Definition calculate_global_zscore : list string -> DataFrame -> result DataFrame :=
  zscore_with column_stat.

Definition standardize_numerical_features (t : DataFrame) : result DataFrame :=
  if has_col "race_id" t then calculate_zscore_by_race catalogue t
  else calculate_global_zscore catalogue t.

Definition derive (t : DataFrame) : result DataFrame :=
  let* t := create_temporal_features t in
  let* t := create_performance_features t in
  let* t := create_physical_features t in
  let* t := create_race_condition_features t in
  create_interaction_features t.

Definition create_features (t : DataFrame) : result DataFrame :=
  let* t := derive t in
  standardize_numerical_features t.

End Tables.
End FeatureTables.

(** ** A member of [Pandas]

    It reads the texts of ASCII digits and no other; it is there to
    run the methods on tables. *)

Definition all_digits (s : pystr) : bool :=
  forallb (fun c => (48 <=? c)%Z && (c <=? 57)%Z) s.

Definition read_digits (s : pystr) : option float :=
  match s with
  | [] => None
  | _ :: _ =>
      if all_digits s then Some (Fin (IZR (digits_value s))) else None
  end.

Lemma read_digits_digits (s : pystr) :
  s <> [] -> Forall is_digit s ->
  read_digits s = Some (Fin (IZR (digits_value s))).
Proof.
  intros Hs Hd. unfold read_digits. destruct s as [|c s]; [ congruence | ].
  assert (E : all_digits (c :: s) = true).
  { unfold all_digits. apply forallb_forall. intros x Hx.
    rewrite Forall_forall in Hd. specialize (Hd x Hx). unfold is_digit in Hd.
    apply andb_true_intro. split; apply Z.leb_le; lia. }
  rewrite E. reflexivity.
Qed.

Definition digits_only : Pandas :=
  {| str_to_float := read_digits;
     str_to_float_digits := fun s N D _ => read_digits_digits N D;
     float_of_str := read_digits;
     float_to_str := fun _ => py "nan";
     month_of_dates := map (fun _ => missing) |}.

(** ** Notions of the specification *)

(** A call leaves the store as it was, new objects apart, and what it
    returns is one of the new objects. *)
Definition leaves_store_unchanged (m : M ref) (h : heap) : Prop :=
  (forall r t, nth_error h r = Some t -> nth_error (snd (m h)) r = Some t) /\
  (forall r', fst (m h) = Ok r' ->
     nth_error h r' = None /\ exists t', nth_error (snd (m h)) r' = Some t').

(** The table on which [popularity_performance_gap] has two of its
    three source columns. *)
Definition gap_table : DataFrame :=
  [("last_race_popularity"%string, [CNum (Fin 1)]);
   ("last_race_position"%string, [CStr (py "2")])].


(** Two races whose horses have the same number. *)
Definition two_races : DataFrame :=
  [("race_id"%string, [CStr (py "R1"); CStr (py "R2")]);
   ("horse_number"%string, [CNum (Fin 3); CNum (Fin 3)]);
   ("horse_name"%string, [CStr (py "A"); CStr (py "B")])].

(** The order of the values of a column: numbers by size, texts by
    code points; a number and a text do not compare. *)
Definition below (a b : cell) : Prop :=
  match a, b with
  | CNum x, CNum y => fleb x y = true
  | CStr s, CStr t => pystr_leb s t = true
  | _, _ => False
  end.

(** [c] is the maximum observed in the column [s]: a value of [s] that
    is not missing, with every value of [s] that is not missing below
    it. *)
Definition greatest_of (s : Series) (c : cell) : Prop :=
  isna c = false /\ In c s /\
  forall x, In x s -> isna x = false -> below x c.

(** The field size a table declares: that of its first row, 0 when it
    has no row. *)
Definition declared_size (t : DataFrame) (field_size : Series) : cell :=
  if (0 <? nrows t)%nat then hd missing field_size else CNum (Fin 0).

Definition is_field_size_mismatch (v : DataValidator.violation) : Prop :=
  exists declared actual, v = DataValidator.FieldSizeMismatch declared actual.


(** A race of one horse. *)
Definition one_horse : DataFrame :=
  [("horse_number"%string, [CNum (Fin 1)]);
   ("horse_name"%string, [CStr (py "A")]);
   ("field_size"%string, [CNum (Fin 1)])].


(** The corner and final-furlong-rank columns of [position_replacements]. *)
Definition rank_columns : list string :=
  map fst DataValidator.position_replacements.

(** A cell that holds a value: it is neither missing nor the empty
    text. *)
Definition holds_value (x : cell) : bool :=
  match x with
  | CNum NaN => false
  | CStr [] => false
  | _ => true
  end.

(** The rows that [_handle_missing_values] keeps: a row is kept when each
    of the columns [horse_name], [track_name] and [distance] that the
    table has holds a value in it. *)
Definition row_kept (t : DataFrame) (i : nat) : bool :=
  forallb (fun c => match get_col c t with
                    | Some s => match nth_error s i with
                                | Some x => holds_value x
                                | None => true
                                end
                    | None => true
                    end) DataValidator.essential_columns.

Definition kept_rows (t : DataFrame) : list bool :=
  map (row_kept t) (seq 0 (nrows t)).

(** The cells of a column on the rows that are marked, in their order. *)
Definition on_rows (marks : list bool) (s : Series) : Series :=
  map snd (filter fst (combine marks s)).

(** What the handling of missing values makes of a cell of a rank
    column: the text ["0"] and the empty text end up missing, a missing
    cell ends up 18, every other cell is kept. *)
Definition rank_cell_handled (before after : cell) : Prop :=
  (before = CStr (py "0") -> after = missing) /\
  (before = missing -> after = CNum (Fin 18)) /\
  (before = CStr (py "") -> after = missing) /\
  (holds_value before = true -> before <> CStr (py "0") -> after = before).

(** Four horses, one of them without a name, and their ranks at the
    second corner of their last race: ["0"], a rank, a missing value and
    a rank. *)
Definition corner_table : DataFrame :=
  [("horse_name"%string,
    [CStr (py "A"); missing; CStr (py "C"); CStr (py "D")]);
   ("last_race_corner2"%string,
    [CStr (py "0"); CNum (Fin 3); missing; CNum (Fin 5)])].


(** What the two replacements of [_handle_missing_values] make of a cell
    of a rank column. *)
Definition rank_cell_after (x : cell) : cell :=
  replace_cell [(CStr (py ""), missing)]
    (replace_cell DataValidator.rank_replacement x).


(** ** The deviation scores *)

(** [(x - m) / s * 10 + 50] *)
Definition zscore (x m s : float) : float :=
  fadd (fmul (fdiv (fsub x m) s) (Fin 10)) (Fin 50).

(** The scores of a column, from its values and the mean and the standard
    deviation that go with each row. *)
Definition deviation_scores (xs ms ss : list float) : list float :=
  map (fun d => fadd (fmul d (Fin 10)) (Fin 50))
      (map2 fdiv (map2 fsub xs ms) ss).

(** The numbers of [transform]. *)
Definition transform_floats (agg : list float -> float) (keys : Series)
  (xs : list float) : list float :=
  map (fun k => if isna k then NaN else agg (group_values keys xs k)) keys.

(** The statistic that goes with each row of a column: that of the race
    group of the row where the table has a [race_id], that of the whole
    column where it has none. *)
Definition row_stats (t : DataFrame) (agg : list float -> float)
  (xs : list float) : list float :=
  match get_col "race_id" t with
  | Some keys => transform_floats agg keys xs
  | None => repeat (agg xs) (length xs)
  end.

(** The column that normalization writes in the place of a column of
    numbers [xs] of the table [t]. *)
Definition normalized_column (t : DataFrame) (xs : list float) : Series :=
  fillna (CNum (Fin 50))
    (map CNum (deviation_scores xs (row_stats t nanmean xs)
                                   (row_stats t nanstd xs))).

(** The numbers of a column of the table, none where it has a text. *)
Definition floats_of (t : DataFrame) (c : string) : list float :=
  match get_col c t with
  | Some s => match as_floats s with Ok xs => xs | Raise _ => [] end
  | None => []
  end.

(** A table as pandas has them: every column has as many cells as the
    table has rows. *)
Definition rectangular (t : DataFrame) : Prop :=
  Forall (fun cs => length (snd cs) = nrows t) t.

(** A cell that holds a finite number. *)
Definition finite_cell (c : cell) : Prop := exists x : R, c = CNum (Fin x).


(** The table that holds the column [F c] for each name [c] of a list. *)
Definition frame_of (ex : list string) (F : string -> Series) : DataFrame :=
  map (fun c => (c, F c)) ex.

(** What a table of statistics is, when there is one. *)
Definition stat_of
  (stat : list string -> (list float -> float) -> DataFrame -> result DataFrame)
  (colstat : (list float -> float) -> list float -> list float)
  (t : DataFrame) : Prop :=
  forall cols agg fr, stat cols agg t = Ok fr ->
    fr = frame_of cols (fun c => map CNum (colstat agg (floats_of t c))) /\
    forall c, In c cols ->
      exists s, get_col c t = Some s /\ s = map CNum (floats_of t c).


(** ** Mean and standard deviation of real numbers *)

Definition Rsum (rs : list R) : R := fold_right Rplus 0%R rs.

Definition sample_mean (rs : list R) : R :=
  (Rsum rs / INR (length rs))%R.

(** The variance with [n - 1] in the denominator, as [std] of pandas has
    it. *)
Definition sample_variance (rs : list R) : R :=
  (Rsum (map (fun r => (r - sample_mean rs) * (r - sample_mean rs)) rs)
   / INR (length rs - 1))%R.

Definition sample_std (rs : list R) : R := sqrt (sample_variance rs).

(** The cell of a finite number. *)
Definition num (r : R) : cell := CNum (Fin r).

(** ** Sums of floats *)

(** A sum that has met an infinity is that infinity or NaN. *)
Definition stuck_at (i a : float) : Prop := a = i \/ a = NaN.

(** ** Tables of one race *)

(** Two horses of one race, with their ages. *)
Definition two_horses : DataFrame :=
  [("race_id"%string, [CStr (py "R1"); CStr (py "R1")]);
   ("age"%string, [num 1; num 3])].



(** ** Cleaning a cleaned table *)

(** No cell of a column of [t] with a name of [cols] is missing. *)
Definition no_missing_in (cols : list string) (t : DataFrame) : Prop :=
  forall c s, In c cols -> In (c, s) t -> Forall (fun x => isna x = false) s.

(** Every cell of the column [c], where the table has it, is in [Q]. *)
Definition col_all (Q : cell -> Prop) (c : string) (t : DataFrame) : Prop :=
  forall s, get_col c t = Some s -> Forall Q s.

(** Every cell of every column is in [Q], which may look at the name of
    the column. *)
Definition entries_all (Q : string -> cell -> Prop) (t : DataFrame) : Prop :=
  forall c s, In (c, s) t -> Forall (Q c) s.

(** Every cell of a column of [t'] is [f] of a cell of the column of this
    name of [t]: rows may have gone, none has come. *)
Definition flows (f : string -> cell -> cell) (t t' : DataFrame) : Prop :=
  forall c s', get_col c t' = Some s' ->
    exists s, get_col c t = Some s /\ incl s' (map (f c) s).

Definition is_int_cell (x : cell) : Prop := exists z : Z, x = CNum (Fin (IZR z)).

Definition is_number (x : cell) : Prop := exists f : float, x = CNum f.

Definition is_text (x : cell) : Prop := exists s : pystr, x = CStr s.

Definition text_or_missing (x : cell) : Prop := is_text x \/ x = missing.

Definition valid_position (x : cell) : Prop :=
  existsb (same_key x) DataValidator.invalid_positions = false.

Definition not_text (v : string) (x : cell) : Prop :=
  same_key (CStr (py v)) x = false.

Definition in_range (lo hi : R) (x : cell) : Prop :=
  cell_ge lo x = Ok true /\ cell_le hi x = Ok true.

Definition in_list (c : string) (cols : list string) : bool :=
  existsb (String.eqb c) cols.

(** What [_standardize_data_types] makes of a cell of the column [c]. *)
Definition type_cell {P : Pandas} (c : string) (x : cell) : cell :=
  let x := if in_list c DataValidator.numeric_columns
           then to_numeric_cell x else x in
  if in_list c DataValidator.string_columns then astype_str_cell x else x.

(** What the two replacements of [_handle_missing_values] make of a cell
    of the column [c]. *)
Definition handled_cell (c : string) (x : cell) : cell :=
  replace_cell [(CStr (py ""), missing)]
    (match dict_get DataValidator.position_replacements c with
     | Some pairs => replace_cell pairs x
     | None => x
     end).

(** A race of one horse, with its track and its rank at the second corner
    of its last race. *)
Definition ranked_horse (rank : cell) : DataFrame :=
  one_horse ++ [("track_name"%string, [CStr (py "T")]);
                ("last_race_corner2"%string, [rank])].

(** ** The scores of a race group *)

(** [(r - mean) / std * 10 + 50], with the mean and the standard deviation
    of [rs]. *)
Definition rescaled (rs : list R) (r : R) : R :=
  ((r - sample_mean rs) / sample_std rs * 10 + 50)%R.

(** The cell of a value of a group whose numbers are [rs]: the rescaled
    number, and 50 for a missing value. *)
Definition score_in (rs : list R) (x : float) : cell :=
  match x with
  | Fin r => num (rescaled rs r)
  | _ => num 50
  end.

(** ** Tables of horse weights *)

(** Two horses, one of 450 kg and one of 800 kg. *)
Definition two_weights : DataFrame :=
  [("horse_weight"%string, [num 450; num 800])].

(** A horse whose weight is a text. *)
Definition text_weight : DataFrame :=
  [("horse_weight"%string, [CStr (py "heavy")])].

(** A cell that holds an infinity. *)
Definition is_infinite_cell (x : cell) : Prop := x = CNum PInf \/ x = CNum NInf.

(** A column of positions with an infinity. *)
Definition infinite_position : DataFrame :=
  [("finishing_position"%string, [num 1; CNum PInf])].

(** Positions in the forms the cleaning meets: a number with a fraction, a
    missing value, and a withdrawn horse. *)
Definition raw_positions : DataFrame :=
  [("finishing_position"%string, [num (5 / 2); missing; num 3]);
   ("raw_finishing_position"%string,
    [CStr (py "2"); CStr (py "x"); CStr (py "DNS")])].

(** A table with a number written as a text, a name that is a number and
    a column the cleaning does not know. *)
Definition untyped_table : DataFrame :=
  [("age"%string, [CStr (py "4"); CStr (py "old")]);
   ("horse_name"%string, [CStr (py "A"); CStr (py "B")]);
   ("memo"%string, [CStr (py "7"); num 7])].

(** Every column of [t'] has the name and at most the length of the
    column of [t] at its place. *)
Definition shrinks (t t' : DataFrame) : Prop :=
  columns t' = columns t /\
  forall c s', get_col c t' = Some s' ->
    exists s, get_col c t = Some s /\ length s' <= length s.

(** A race table with its columns and no row. *)
Definition empty_race : DataFrame :=
  [("horse_number"%string, []); ("horse_name"%string, []);
   ("field_size"%string, [])].

(** A table of names only. *)
Definition names_only : DataFrame :=
  [("horse_name"%string, [CStr (py "A")])].


(** Two horses of one race and a third whose race is not known. *)
Definition unknown_race : DataFrame :=
  [("race_id"%string, [CStr (py "R1"); CStr (py "R1"); missing]);
   ("age"%string, [num 1; num 3; num 7])].


(** The columns that [create_features] assigns: the derived columns, the
    three position columns it converts in place, and the catalogue. *)
Definition derived_columns : list string :=
  ["race_month"; "last_race_month"; "second_last_race_month";
   "third_last_race_month";
   "month_gender_combination"; "month_age_combination";
   "last_race_position"; "second_last_position"; "third_last_position";
   "last_race_corner3_uphill_combined"; "second_last_corner3_uphill_combined";
   "third_last_corner3_uphill_combined";
   "popularity_performance_gap";
   "weight_burden_ratio"; "field_size_change"; "distance_change";
   "track_distance_combination";
   "track_last_corner3"; "track_last_corner4"; "track_last_uphill";
   "class_progression";
   "track_last_track_combination"]%string.

(** [f] assigns the columns [names] and no other: it keeps the columns of
    the table in their places, may add columns after them, and leaves the
    columns outside [names] as they are. *)
Definition writes (names : list string)
  (f : DataFrame -> result DataFrame) : Prop :=
  forall t t', f t = Ok t' ->
    (exists added, columns t' = columns t ++ added) /\
    (forall c, ~ In c names -> get_col c t' = get_col c t).

(** A table with a column that [create_features] does not know. *)
Definition owner_table : DataFrame :=
  [("owner"%string, [CStr (py "X")]); ("age"%string, [num 4])].

(** A result that is no [KeyError]. *)
Definition key_safe {A : Type} (r : result A) : Prop :=
  forall c, r <> Raise (KeyError c).

(** A step that neither adds nor drops the column [c]. *)
Definition keeps_col (c : string) (f : DataFrame -> result DataFrame) : Prop :=
  forall t t', f t = Ok t' -> has_col c t' = has_col c t.

(** Every column of the table has [n] cells. *)
Definition has_rows (n : nat) (t : DataFrame) : Prop :=
  forall c s, get_col c t = Some s -> length s = n.

(** A step that keeps the number of cells of the columns. *)
Definition keeps_rows (f : DataFrame -> result DataFrame) : Prop :=
  forall n t t', has_rows n t -> f t = Ok t' -> has_rows n t'.

(** The derived series are as long as their sources. *)
Definition same_length (g : Series -> Series -> result Series) : Prop :=
  forall a b s, g a b = Ok s -> length a = length b -> length s = length a.

(** Two horses and the field sizes of their races. *)
Definition field_size_table : DataFrame :=
  [("field_size"%string, [num 8; num 8]);
   ("last_race_field_size"%string, [num 10; num 12])].

(** * [class FeatureEngineer] in binary64

    The methods of [FeatureEngineer] once more, on tables whose numbers
    are the numbers of the floating dtype: IEEE 754 binary64 values, with
    the arithmetic rounded to nearest, ties to even.  A table is a value
    here: [df.copy()] is the table itself and [df[col] = ...] gives the
    table with the column replaced.  What the two aggregations compute
    from the values of a group or of a column is a member of the class
    [Aggregates]; [cython_groupby] has the mean and the standard
    deviation of pandas' grouped aggregations. *)

Module Binary64.

(** ** Numbers *)

Definition b64 : Type := spec_float.

Definition prec : Z := 53.
Definition emax : Z := 1024.

Definition add (x y : b64) : b64 := SFadd prec emax x y.
Definition sub (x y : b64) : b64 := SFsub prec emax x y.
Definition mul (x y : b64) : b64 := SFmul prec emax x y.
Definition div (x y : b64) : b64 := SFdiv prec emax x y.
Definition sqrt (x : b64) : b64 := SFsqrt prec emax x.

(** The float of an integer. *)
Definition of_Z (n : Z) : b64 := binary_normalize prec emax n 0 false.

Definition nan : b64 := S754_nan.
Definition zero : b64 := S754_zero false.
Definition neg_infinity : b64 := S754_infinity true.

Definition is_nan (x : b64) : bool :=
  match x with S754_nan => true | _ => false end.

Definition is_finite (x : b64) : bool :=
  match x with
  | S754_zero _ | S754_finite _ _ _ => true
  | _ => false
  end.

(** ** Cells, series and tables *)

Inductive cell : Type :=
| BNum (x : b64)
| BStr (s : pystr).

Definition Series : Type := list cell.
Definition DataFrame : Type := list (string * Series).

Definition missing : cell := BNum nan.

Definition isna (c : cell) : bool :=
  match c with BNum x => is_nan x | BStr _ => false end.

(** The equality of the hash table behind [groupby]: NaN is the same key
    as NaN. *)
Definition same_key (a b : cell) : bool :=
  match a, b with
  | BNum x, BNum y => (is_nan x && is_nan y) || SFeqb x y
  | BStr s, BStr t => pystr_eqb s t
  | _, _ => false
  end.

Definition columns (t : DataFrame) : list string := map fst t.

Definition has_col (c : string) (t : DataFrame) : bool :=
  existsb (String.eqb c) (columns t).

Fixpoint get_col (c : string) (t : DataFrame) : option Series :=
  match t with
  | [] => None
  | (c', s) :: r => if String.eqb c' c then Some s else get_col c r
  end.

(** [df[c] = s]: in the place of the column when the table has it, after
    the last column otherwise. *)
Fixpoint set_col (c : string) (s : Series) (t : DataFrame) : DataFrame :=
  match t with
  | [] => [(c, s)]
  | (c', s') :: r =>
      if String.eqb c' c then (c, s) :: r else (c', s') :: set_col c s r
  end.

Definition nrows (t : DataFrame) : nat :=
  match t with
  | [] => 0
  | (_, s) :: _ => length s
  end.

(** ** Columns of numbers *)

(** Arithmetic on two cells: nothing is computed where a side is
    missing, two numbers follow the arithmetic of the floats, a text
    raises. *)
Definition cell_arith (op : b64 -> b64 -> b64) (a b : cell) : result cell :=
  match a, b with
  | BNum x, BNum y => Ok (BNum (op x y))
  | _, _ => if isna a || isna b then Ok missing else Raise TypeError
  end.

Definition series_op (op : cell -> cell -> result cell) (a b : Series)
  : result Series :=
  mapR (fun ab => op (fst ab) (snd ab)) (combine a b).

Definition series_op_scalar (op : cell -> cell -> result cell) (a : Series)
  (k : cell) : result Series :=
  mapR (fun x => op x k) a.

(** [s.fillna(v)]. *)
Definition fillna_cell (v : cell) (c : cell) : cell := if isna c then v else c.
Definition fillna (v : cell) (s : Series) : Series := map (fillna_cell v) s.

(** The numbers of a column; a text raises, there is no mean of it. *)
Definition as_float (c : cell) : result b64 :=
  match c with
  | BNum x => Ok x
  | BStr _ => Raise TypeError
  end.

Definition as_floats (s : Series) : result (list b64) := mapR as_float s.

(** ** Tables of columns *)

(** [df[cols]] *)
Definition select_columns (cols : list string) (t : DataFrame) : result DataFrame :=
  mapR (fun c => match get_col c t with
                 | Some s => Ok (c, s)
                 | None => Raise (KeyError c)
                 end) cols.

(** [df[cols] = values], column by column *)
Definition set_cols (values : DataFrame) (t : DataFrame) : DataFrame :=
  fold_left (fun acc cs => set_col (fst cs) (snd cs) acc) values t.

(** An operator on two tables that have the same columns, and on a table
    and a scalar. *)
Definition frame_op (op : cell -> cell -> result cell) (a b : DataFrame)
  : result DataFrame :=
  mapR (fun ab => let* s := series_op op (snd (fst ab)) (snd (snd ab)) in
                  Ok (fst (fst ab), s)) (combine a b).

Definition frame_op_scalar (op : cell -> cell -> result cell) (a : DataFrame)
  (k : cell) : result DataFrame :=
  mapR (fun cs => let* s := series_op_scalar op (snd cs) k in
                  Ok (fst cs, s)) a.

Definition frame_fillna (v : cell) (a : DataFrame) : DataFrame :=
  map (fun cs => (fst cs, fillna v (snd cs))) a.

(** ** Aggregations *)

(** The values of the rows that have the key [k]. *)
Definition group_values {A : Type} (keys : Series) (vals : list A) (k : cell)
  : list A :=
  select (map (same_key k) keys) vals.

(** [transform(agg)] on one column: at every row the aggregate of the
    rows that have the same key, NaN where the key is missing. *)
Definition transform (agg : list b64 -> b64) (keys : Series) (vals : list b64)
  : Series :=
  map (fun k => if isna k then missing
                else BNum (agg (group_values keys vals k))) keys.

(** A table that has rows and no group: every key is missing.  The
    aggregates of no group cannot be laid out along the rows, and
    [transform] raises [IndexError]. *)
Definition no_group (keys : Series) : bool :=
  match keys with
  | [] => false
  | _ :: _ => forallb isna keys
  end.

(** [df.groupby(key)[cols].transform(agg)] *)
Definition groupby_transform (key : string) (cols : list string)
  (agg : list b64 -> b64) (t : DataFrame) : result DataFrame :=
  match get_col key t with
  | None => Raise (KeyError key)
  | Some keys =>
      if no_group keys then Raise IndexError
      else
        mapR (fun c => match get_col c t with
                       | None => Raise (KeyError c)
                       | Some s =>
                           let* xs := as_floats s in
                           Ok (c, transform agg keys xs)
                       end) cols
  end.

(** [df[cols].agg()], one value a column, laid out along the rows as the
    arithmetic of a table with it does. *)
Definition column_stat (cols : list string) (agg : list b64 -> b64)
  (t : DataFrame) : result DataFrame :=
  mapR (fun c => match get_col c t with
                 | None => Raise (KeyError c)
                 | Some s =>
                     let* xs := as_floats s in
                     Ok (c, repeat (BNum (agg xs)) (length s))
                 end) cols.

(** What the aggregations of pandas compute from the values of a group,
    or of a column, in the order of the rows; the values that are NaN are
    among them, and it is the aggregation that skips them. *)
Class Aggregates : Type := {
  (** [groupby(...).transform('mean')] and [transform('std')] *)
  group_mean : list b64 -> b64;
  group_std : list b64 -> b64;
  (** [df[cols].mean()] and [df[cols].std()] *)
  column_mean : list b64 -> b64;
  column_std : list b64 -> b64
}.

(** ** The methods of [FeatureEngineer] *)

Section Methods.
Context {A : Aggregates}.

(** [(values - means) / stds * 10 + 50] on tables *)
Definition deviation_score (values means stds : DataFrame) : result DataFrame :=
  let* centred := frame_op (cell_arith sub) values means in
  let* scaled := frame_op (cell_arith div) centred stds in
  let* tenfold := frame_op_scalar (cell_arith mul) scaled (BNum (of_Z 10)) in
  frame_op_scalar (cell_arith add) tenfold (BNum (of_Z 50)).

Definition _calculate_zscore_by_race (df : DataFrame) (features : list string)
  : result DataFrame :=
  let df_copy := df in
  let existing_features :=
    FeatureEngineer.existing features (columns df_copy) in
  match existing_features with
  | _ :: _ =>
      let* race_means :=
        groupby_transform "race_id" existing_features group_mean df_copy in
      let* race_stds :=
        groupby_transform "race_id" existing_features group_std df_copy in
      let* values := select_columns existing_features df_copy in
      let* scores := deviation_score values race_means race_stds in
      let df_copy := set_cols scores df_copy in
      let* values := select_columns existing_features df_copy in
      Ok (set_cols (frame_fillna (BNum (of_Z 50)) values) df_copy)
  | [] => Ok df_copy
  end.

Definition _calculate_global_zscore (df : DataFrame) (features : list string)
  : result DataFrame :=
  let df_copy := df in
  let existing_features :=
    FeatureEngineer.existing features (columns df_copy) in
  match existing_features with
  | _ :: _ =>
      let* global_means :=
        column_stat existing_features column_mean df_copy in
      let* global_stds :=
        column_stat existing_features column_std df_copy in
      let* values := select_columns existing_features df_copy in
      let* scores := deviation_score values global_means global_stds in
      let df_copy := set_cols scores df_copy in
      let* values := select_columns existing_features df_copy in
      Ok (set_cols (frame_fillna (BNum (of_Z 50)) values) df_copy)
  | [] => Ok df_copy
  end.

Definition _standardize_numerical_features (df : DataFrame) : result DataFrame :=
  let df_copy := df in
  if has_col "race_id" df_copy
  then _calculate_zscore_by_race df_copy FeatureEngineer.catalogue
  else _calculate_global_zscore df_copy FeatureEngineer.catalogue.

End Methods.

(** ** The derivations

    The five methods that derive features, on the same tables.  What
    pandas does to one value outside the repository is a member of the
    class [Conversions]. *)

Class Conversions : Type := {
  (** the number a text denotes, for [pd.to_numeric]; [None] when the
      text is no numeric literal *)
  str_to_float : pystr -> option b64;
  (** Python's [float(s)], for [astype(float)]; [None] when it raises *)
  float_of_str : pystr -> option b64;
  (** the text of a number, for [astype(str)] *)
  float_to_str : b64 -> pystr;
  (** [pd.to_datetime(s, errors='coerce').dt.month] *)
  month_of_dates : Series -> Series
}.

Section Derivations.
Context {C : Conversions}.

(** [pd.to_numeric(s, errors='coerce')] *)
Definition to_numeric_cell (c : cell) : cell :=
  match c with
  | BNum f => BNum f
  | BStr s =>
      match str_to_float s with
      | Some f => BNum f
      | None => missing
      end
  end.

Definition to_numeric (s : Series) : Series := map to_numeric_cell s.

(** [s.astype(str)] *)
Definition astype_str_cell (c : cell) : cell :=
  match c with
  | BNum f => BStr (float_to_str f)
  | BStr s => BStr s
  end.

Definition astype_str (s : Series) : Series := map astype_str_cell s.

(** [s.astype(float)]: a text that is no number raises. *)
Definition astype_float_cell (c : cell) : result cell :=
  match c with
  | BNum f => Ok (BNum f)
  | BStr s =>
      match float_of_str s with
      | Some f => Ok (BNum f)
      | None => Raise ValueError
      end
  end.

Definition astype_float (s : Series) : result Series := mapR astype_float_cell s.

(** [a + b] on two cells: [+] concatenates two texts. *)
Definition cell_add (a b : cell) : result cell :=
  match a, b with
  | BNum x, BNum y => Ok (BNum (add x y))
  | BStr s, BStr t => Ok (BStr (s ++ t))
  | _, _ => if isna a || isna b then Ok missing else Raise TypeError
  end.

Definition cell_sub := cell_arith sub.
Definition cell_mul := cell_arith mul.
Definition cell_div := cell_arith div.

Definition underscore : cell := BStr (py "_").

(** [df[c]] *)
Definition getitem (df : DataFrame) (c : string) : result Series :=
  match get_col c df with
  | Some s => Ok s
  | None => Raise (KeyError c)
  end.

(** A [for] loop whose body assigns to the table. *)
Fixpoint for_each {X : Type} (xs : list X)
  (body : X -> DataFrame -> result DataFrame) (df : DataFrame)
  : result DataFrame :=
  match xs with
  | [] => Ok df
  | x :: r => let* df := body x df in for_each r body df
  end.

(** [@staticmethod _extract_month_from_date] *)
Definition _extract_month_from_date (date_series : Series) : Series :=
  month_of_dates date_series.

(** [@staticmethod _convert_position_to_numeric] *)
Definition _convert_position_to_numeric (position_series : Series) : Series :=
  let converted_series :=
    map (fun c => match c with
                  | BStr s => BStr (translate FeatureEngineer.fullwidth_table s)
                  | BNum f => BNum f
                  end) (astype_str position_series) in
  to_numeric converted_series.

Definition _create_temporal_features (df : DataFrame) : result DataFrame :=
  let df_copy := df in
  let* df_copy :=
    for_each FeatureEngineer.date_columns (fun col df_copy =>
      if has_col col df_copy then
        let month_col := str_replace "_date" "_month" col in
        let* dates := getitem df_copy col in
        Ok (set_col month_col (_extract_month_from_date dates) df_copy)
      else Ok df_copy) df_copy in
  let* df_copy :=
    if has_col "race_month" df_copy && has_col "gender" df_copy then
      let* month := getitem df_copy "race_month" in
      let* gender := getitem df_copy "gender" in
      let* month_ := series_op_scalar cell_add (astype_str month) underscore in
      let* s := series_op cell_add month_ (astype_str gender) in
      Ok (set_col "month_gender_combination" s df_copy)
    else Ok df_copy in
  let* df_copy :=
    if has_col "race_month" df_copy && has_col "age" df_copy then
      let* month := getitem df_copy "race_month" in
      let* age := getitem df_copy "age" in
      let* s := series_op cell_add month age in
      Ok (set_col "month_age_combination" s df_copy)
    else Ok df_copy in
  Ok df_copy.

Definition _create_performance_features (df : DataFrame) : result DataFrame :=
  let df_copy := df in
  let* df_copy :=
    for_each FeatureEngineer.position_features (fun col df_copy =>
      if has_col col df_copy then
        let* s := getitem df_copy col in
        Ok (set_col col (_convert_position_to_numeric s) df_copy)
      else Ok df_copy) df_copy in
  let* df_copy :=
    for_each FeatureEngineer.corner_uphill_features (fun cu df_copy =>
      let corner_col := fst cu in
      let uphill_col := snd cu in
      if has_col corner_col df_copy && has_col uphill_col df_copy then
        let feature_name := String.append corner_col "_uphill_combined" in
        let* corner := getitem df_copy corner_col in
        let* corner := astype_float corner in
        let* weighted :=
          series_op_scalar cell_mul corner (BNum (div (of_Z 8) (of_Z 10))) in
        let* uphill := getitem df_copy uphill_col in
        let* uphill := astype_float uphill in
        let* s := series_op cell_add weighted uphill in
        Ok (set_col feature_name s df_copy)
      else Ok df_copy) df_copy in
  let* df_copy :=
    if has_col "last_race_popularity" df_copy
       && has_col "last_race_position" df_copy then
      let* popularity := getitem df_copy "last_race_popularity" in
      let* position := getitem df_copy "last_race_position" in
      let* gap := series_op cell_sub popularity position in
      let* field_size := getitem df_copy "last_race_field_size" in
      let* s := series_op cell_div gap field_size in
      Ok (set_col "popularity_performance_gap" s df_copy)
    else Ok df_copy in
  Ok df_copy.

Definition _create_physical_features (df : DataFrame) : result DataFrame :=
  let df_copy := df in
  let* df_copy :=
    if has_col "weight_carried" df_copy && has_col "horse_weight" df_copy then
      let* carried := getitem df_copy "weight_carried" in
      let* weight := getitem df_copy "horse_weight" in
      let* ratio := series_op cell_div carried weight in
      let* s := series_op_scalar cell_mul ratio (BNum (of_Z 100)) in
      Ok (set_col "weight_burden_ratio" s df_copy)
    else Ok df_copy in
  let* df_copy :=
    if has_col "field_size" df_copy && has_col "last_race_field_size" df_copy
    then
      let* size := getitem df_copy "field_size" in
      let* last := getitem df_copy "last_race_field_size" in
      let* s := series_op cell_sub size last in
      Ok (set_col "field_size_change" s df_copy)
    else Ok df_copy in
  let* df_copy :=
    if has_col "distance" df_copy && has_col "last_race_distance" df_copy then
      let* distance := getitem df_copy "distance" in
      let* distance := astype_float distance in
      let* last := getitem df_copy "last_race_distance" in
      let* last := astype_float last in
      let* s := series_op cell_sub distance last in
      Ok (set_col "distance_change" s df_copy)
    else Ok df_copy in
  Ok df_copy.

Definition _create_race_condition_features (df : DataFrame) : result DataFrame :=
  let df_copy := df in
  let* df_copy :=
    if has_col "track_name" df_copy && has_col "distance" df_copy then
      let* track := getitem df_copy "track_name" in
      let* track_ := series_op_scalar cell_add track underscore in
      let* distance := getitem df_copy "distance" in
      let* s := series_op cell_add track_ (astype_str distance) in
      Ok (set_col "track_distance_combination" s df_copy)
    else Ok df_copy in
  let* df_copy :=
    for_each FeatureEngineer.track_performance_combinations
      (fun tpn df_copy =>
         let track_col := fst (fst tpn) in
         let perf_col := snd (fst tpn) in
         let new_col := snd tpn in
         if has_col track_col df_copy && has_col perf_col df_copy then
           let* track := getitem df_copy track_col in
           let* track_ := series_op_scalar cell_add track underscore in
           let* perf := getitem df_copy perf_col in
           let* s := series_op cell_add track_ (astype_str perf) in
           Ok (set_col new_col s df_copy)
         else Ok df_copy) df_copy in
  let* df_copy :=
    if has_col "class_name" df_copy && has_col "last_race_class" df_copy then
      let* class := getitem df_copy "class_name" in
      let* class_ := series_op_scalar cell_add class underscore in
      let* last := getitem df_copy "last_race_class" in
      let* s := series_op cell_add class_ last in
      Ok (set_col "class_progression" s df_copy)
    else Ok df_copy in
  Ok df_copy.

Definition _create_interaction_features (df : DataFrame) : result DataFrame :=
  let df_copy := df in
  let* df_copy :=
    if has_col "track_name" df_copy && has_col "last_race_track" df_copy then
      let* track := getitem df_copy "track_name" in
      let* track_ := series_op_scalar cell_add track underscore in
      let* last := getitem df_copy "last_race_track" in
      let* s := series_op cell_add track_ last in
      Ok (set_col "track_last_track_combination" s df_copy)
    else Ok df_copy in
  Ok df_copy.

Context {A : Aggregates}.

Definition create_features (df : DataFrame) : result DataFrame :=
  let enhanced_df := df in
  let* enhanced_df := _create_temporal_features enhanced_df in
  let* enhanced_df := _create_performance_features enhanced_df in
  let* enhanced_df := _create_physical_features enhanced_df in
  let* enhanced_df := _create_race_condition_features enhanced_df in
  let* enhanced_df := _create_interaction_features enhanced_df in
  let* enhanced_df := _standardize_numerical_features enhanced_df in
  Ok enhanced_df.

End Derivations.

(** ** The grouped aggregations of pandas

    The grouped mean is a compensated sum of the values that are not NaN,
    divided by their number; the grouped standard deviation is the square
    root of the variance by Welford's recurrence, with one degree of
    freedom taken off.  Both go through the values in the order of the
    rows. *)

Definition notnan (xs : list b64) : list b64 :=
  filter (fun x => negb (is_nan x)) xs.

(** One value added to the sum [sumx] with its [compensation]. *)
Definition kahan_step (acc : b64 * b64) (val : b64) : b64 * b64 :=
  let y := sub val (snd acc) in
  let t := add (fst acc) y in
  let compensation := sub (sub t (fst acc)) y in
  (t, if is_nan compensation then zero else compensation).

Definition kahan_mean (xs : list b64) : b64 :=
  match notnan xs with
  | [] => nan
  | y :: ys =>
      div (fst (fold_left kahan_step (y :: ys) (zero, zero)))
          (of_Z (Z.of_nat (length (y :: ys))))
  end.

(** One value added to the number of values, their mean and the sum of
    the squares of their deviations. *)
Definition welford_step (acc : Z * b64 * b64) (val : b64) : Z * b64 * b64 :=
  let nobs := (fst (fst acc) + 1)%Z in
  let oldmean := snd (fst acc) in
  let mean := add oldmean (div (sub val oldmean) (of_Z nobs)) in
  (nobs, mean, add (snd acc) (mul (sub val mean) (sub val oldmean))).

Definition welford_std (xs : list b64) : b64 :=
  let acc := fold_left welford_step (notnan xs) (0%Z, zero, zero) in
  let ct := fst (fst acc) in
  if (ct <=? 1)%Z then nan else sqrt (div (snd acc) (of_Z (ct - 1))).

Definition cython_groupby (mean std : list b64 -> b64) : Aggregates :=
  {| group_mean := kahan_mean;
     group_std := welford_std;
     column_mean := mean;
     column_std := std |}.

(** ** Notions of the specification *)

(** A table as pandas has them: every column has as many cells as the
    table has rows. *)
Definition rectangular (t : DataFrame) : Prop :=
  Forall (fun cs => length (snd cs) = nrows t) t.

(** The scores of a column, from its values and the mean and the standard
    deviation that go with each row. *)
Definition deviation_scores (xs ms ss : list b64) : list b64 :=
  map (fun d => add (mul d (of_Z 10)) (of_Z 50))
      (map2 div (map2 sub xs ms) ss).

(** The numbers of [transform]. *)
Definition transform_floats (agg : list b64 -> b64) (keys : Series)
  (xs : list b64) : list b64 :=
  map (fun k => if isna k then nan else agg (group_values keys xs k)) keys.

(** The statistic that goes with each row of a column: that of the race
    group of the row where the table has a [race_id], that of the whole
    column where it has none. *)
Definition row_stats (t : DataFrame) (by_group by_column : list b64 -> b64)
  (xs : list b64) : list b64 :=
  match get_col "race_id" t with
  | Some keys => transform_floats by_group keys xs
  | None => repeat (by_column xs) (length xs)
  end.

(** The column that normalization writes in the place of a column of
    numbers [xs] of the table [t]: the deviation scores, and 50 where the
    score is NaN. *)
Definition normalized_column {A : Aggregates} (t : DataFrame) (xs : list b64)
  : Series :=
  map (fun z => BNum (if is_nan z then of_Z 50 else z))
    (deviation_scores xs (row_stats t group_mean column_mean xs)
                         (row_stats t group_std column_std xs)).

Definition frame_of (ex : list string) (F : string -> Series) : DataFrame :=
  map (fun c => (c, F c)) ex.

(** The numbers of a column of the table, none where it has a text. *)
Definition floats_of (t : DataFrame) (c : string) : list b64 :=
  match get_col c t with
  | Some s => match as_floats s with Ok xs => xs | Raise _ => [] end
  | None => []
  end.

(** What a statistic of the two normalizations returns: for each column
    a column of numbers, one for each row. *)
Definition stat_of_b
  (stat : list string -> (list b64 -> b64) -> DataFrame -> result DataFrame)
  (rows : (list b64 -> b64) -> list b64 -> list b64)
  (t : DataFrame) : Prop :=
  forall cols agg fr, stat cols agg t = Ok fr ->
    fr = frame_of cols (fun c => map BNum (rows agg (floats_of t c))) /\
    forall c, In c cols ->
      exists s, get_col c t = Some s /\ s = map BNum (floats_of t c).

(** The two normalizations differ by the statistics only. *)
Definition zscore_with_b
  (stat : list string -> (list b64 -> b64) -> DataFrame -> result DataFrame)
  (mean std : list b64 -> b64)
  (features : list string) (t : DataFrame) : result DataFrame :=
  match FeatureEngineer.existing features (columns t) with
  | f :: fs =>
      let* means := stat (f :: fs) mean t in
      let* stds := stat (f :: fs) std t in
      let* values := select_columns (f :: fs) t in
      let* scores := deviation_score values means stds in
      let t := set_cols scores t in
      let* values := select_columns (f :: fs) t in
      Ok (set_cols (frame_fillna (BNum (of_Z 50)) values) t)
  | [] => Ok t
  end.

(** One tenth, as the floating dtype holds it. *)
Definition tenth : b64 := div (of_Z 1) (of_Z 10).

(** Three horses of one race that all finished a tenth of a second
    behind the winner of their last race. *)
Definition level_race : DataFrame :=
  [("race_id"%string, [BStr (py "R1"); BStr (py "R1"); BStr (py "R1")]);
   ("last_race_time_difference"%string, [BNum tenth; BNum tenth; BNum tenth])].

(** Two horses of one race, aged 1 and 3. *)
Definition two_horses : DataFrame :=
  [("race_id"%string, [BStr (py "R1"); BStr (py "R1")]);
   ("age"%string, [BNum (of_Z 1); BNum (of_Z 3)])].

(** The aggregations of the examples: the grouped ones, taken for a whole
    column too.  The examples have a [race_id], and aggregate no whole
    column. *)
Definition grouped : Aggregates := cython_groupby kahan_mean welford_std.

End Binary64.


(** * Proofs *)

(** ** The store *)

Lemma update_same h r t : nth_error h r = Some t -> update h r t = h.
Proof.
  revert r; induction h as [|x h IH]; intros [|r] H; simpl in *; try congruence.
  f_equal; auto.
Qed.

Lemma update_update h r t1 t2 : update (update h r t1) r t2 = update h r t2.
Proof.
  revert r; induction h as [|x h IH]; intros [|r]; simpl; try congruence.
Qed.

Lemma nth_error_update h r t t0 :
  nth_error h r = Some t0 -> nth_error (update h r t) r = Some t.
Proof.
  revert r; induction h as [|x h IH]; intros [|r] H; simpl in *; try congruence; auto.
Qed.

Lemma update_top h t t' : update (h ++ [t]) (length h) t' = h ++ [t'].
Proof. induction h; simpl; congruence. Qed.

Lemma nth_error_top (h : heap) t : nth_error (h ++ [t]) (length h) = Some t.
Proof. induction h; simpl; auto. Qed.

(* reads *)
Lemma reads_ret A (a : A) : reads (fun _ => ret a) (fun _ => Ok a).
Proof. red; reflexivity. Qed.
Lemma reads_lift A (r : result A) : reads (fun _ => lift r) (fun _ => r).
Proof. red; reflexivity. Qed.
Lemma reads_load : reads load (fun t => Ok t).
Proof. red; intros; unfold load; rewrite H; reflexivity. Qed.
Lemma reads_bind A B (e : ref -> M A) g (k : A -> ref -> M B) gk :
  reads e g -> (forall a, reads (k a) (gk a)) ->
  reads (fun r => a <- e r ;; k a r) (fun t => let* a := g t in gk a t).
Proof.
  intros He Hk h r t H. unfold bind. rewrite (He _ _ _ H).
  destruct (g t); simpl; auto. apply Hk; auto.
Qed.
Lemma reads_if A (b : bool) (e1 e2 : ref -> M A) g1 g2 :
  reads e1 g1 -> reads e2 g2 ->
  reads (fun r => if b then e1 r else e2 r) (fun t => if b then g1 t else g2 t).
Proof. destruct b; auto. Qed.
Lemma reads_ext A (e : ref -> M A) g g' :
  reads e g -> (forall t, g t = g' t) -> reads e g'.
Proof. intros H E h r t Ht. rewrite <- E. apply H; auto. Qed.

Lemma reads_get_columns : reads get_columns (fun t => Ok (columns t)).
Proof. red; intros; unfold get_columns, bind, load; rewrite H; reflexivity. Qed.
Lemma reads_contains c : reads (contains c) (fun t => Ok (has_col c t)).
Proof. red; intros; unfold contains, get_columns, bind, load; rewrite H; reflexivity. Qed.
Lemma reads_getitem c : reads (fun r => getitem r c) (col c).
Proof.
  red; intros; unfold getitem, col, bind, load; rewrite H.
  destruct (get_col c t); reflexivity.
Qed.
Lemma reads_len : reads len (fun t => Ok (nrows t)).
Proof. red; intros; unfold len, bind, load; rewrite H; reflexivity. Qed.
Lemma reads_getitem_cols cols : reads (fun r => getitem_cols r cols) (select_columns cols).
Proof. red; intros; unfold getitem_cols, bind, load; rewrite H; reflexivity. Qed.

(* updates *)
Lemma updates_ret : updates (fun _ => ret tt) (fun t => Ok t).
Proof. red; intros; simpl. unfold ret. rewrite update_same; auto. Qed.
Lemma updates_setitem c s : updates (fun r => setitem r c s) (fun t => Ok (set_col c s t)).
Proof. red; intros; simpl. unfold setitem, bind, load, store. rewrite H. reflexivity. Qed.
Lemma updates_setitem_cols v : updates (fun r => setitem_cols r v) (fun t => Ok (set_cols v t)).
Proof. red; intros; simpl. unfold setitem_cols, bind, load, store. rewrite H. reflexivity. Qed.
Lemma updates_read A (e : ref -> M A) g (k : A -> ref -> M unit) fk :
  reads e g -> (forall a, updates (k a) (fk a)) ->
  updates (fun r => a <- e r ;; k a r) (fun t => let* a := g t in fk a t).
Proof.
  intros He Hk h r t H. unfold bind. rewrite (He _ _ _ H).
  destruct (g t); simpl.
  - apply Hk; auto.
  - exists t. rewrite update_same; auto.
Qed.
Lemma updates_seq (c1 c2 : ref -> M unit) f1 f2 :
  updates c1 f1 -> updates c2 f2 ->
  updates (fun r => c1 r ;; c2 r) (fun t => let* t1 := f1 t in f2 t1).
Proof.
  intros H1 H2 h r t H. unfold bind. specialize (H1 _ _ _ H).
  destruct (f1 t) as [t1|e]; simpl.
  - rewrite H1. assert (H2' := H2 (update h r t1) r t1 (@nth_error_update h r t1 t H)). clear H2; rename H2' into H2.
    destruct (f2 t1).
    + rewrite H2, update_update; auto.
    + destruct H2 as [t' H2]. exists t'. rewrite H2, update_update; auto.
  - destruct H1 as [t' H1]. exists t'. rewrite H1; auto.
Qed.
Lemma updates_if (b : bool) (c1 c2 : ref -> M unit) f1 f2 :
  updates c1 f1 -> updates c2 f2 ->
  updates (fun r => if b then c1 r else c2 r) (fun t => if b then f1 t else f2 t).
Proof. destruct b; auto. Qed.
Lemma updates_ext c f f' :
  updates c f -> (forall t, f t = f' t) -> updates c f'.
Proof. intros H E h r t Ht. rewrite <- E. apply H; auto. Qed.

Lemma updates_for_each A (xs : list A) (body : A -> ref -> M unit) f :
  (forall x, updates (body x) (f x)) ->
  updates (fun r => for_each xs (fun x => body x r)) (foldR f xs).
Proof.
  intros Hb. induction xs as [|x xs IH]; simpl.
  - apply updates_ret.
  - apply (updates_seq (Hb x) IH).
Qed.

(* on_top *)
Lemma on_top_ret : on_top (fun r => ret r) (fun t => Ok t).
Proof. red; intros; simpl. exists []. rewrite app_nil_r. reflexivity. Qed.
Lemma on_top_read A (e : ref -> M A) g (k : A -> ref -> M ref) fk :
  reads e g -> (forall a, on_top (k a) (fk a)) ->
  on_top (fun r => a <- e r ;; k a r) (fun t => let* a := g t in fk a t).
Proof.
  intros He Hk h t. unfold bind. rewrite (He _ _ _ (nth_error_top h t)).
  destruct (g t); simpl.
  - apply Hk.
  - exists [t]. reflexivity.
Qed.
Lemma on_top_update (c : ref -> M unit) f (k : ref -> M ref) fk :
  updates c f -> on_top k fk ->
  on_top (fun r => c r ;; k r) (fun t => let* t1 := f t in fk t1).
Proof.
  intros Hc Hk h t. unfold bind. specialize (Hc _ _ _ (nth_error_top h t)).
  destruct (f t) as [t1|e]; simpl.
  - rewrite Hc, update_top. apply Hk.
  - destruct Hc as [t' Hc]. rewrite Hc, update_top. exists [t']; auto.
Qed.
Lemma on_top_bind (c : ref -> M ref) f (k : ref -> M ref) fk :
  on_top c f -> on_top k fk ->
  on_top (fun r => r1 <- c r ;; k r1) (fun t => let* t1 := f t in fk t1).
Proof.
  intros Hc Hk h t. unfold bind. specialize (Hc h t).
  destruct (f t) as [t1|e]; simpl.
  - destruct Hc as [ext Hc]. rewrite Hc. specialize (Hk (h ++ ext) t1).
    destruct (fk t1).
    + destruct Hk as [ext' Hk]. rewrite Hk. exists (ext ++ ext').
      repeat rewrite <- app_assoc. reflexivity.
    + destruct Hk as [ext' Hk]. rewrite Hk. exists (ext ++ ext').
      rewrite app_assoc; reflexivity.
  - destruct Hc as [ext Hc]. rewrite Hc. exists ext; auto.
Qed.
Lemma on_top_if (b : bool) (c1 c2 : ref -> M ref) f1 f2 :
  on_top c1 f1 -> on_top c2 f2 ->
  on_top (fun r => if b then c1 r else c2 r) (fun t => if b then f1 t else f2 t).
Proof. destruct b; auto. Qed.
Lemma on_top_ext c f f' :
  on_top c f -> (forall t, f t = f' t) -> on_top c f'.
Proof. intros H E h t. rewrite <- E. apply H. Qed.

Lemma transforms_on_top c f : transforms c f -> on_top c f.
Proof.
  intros H h t. specialize (H _ _ _ (nth_error_top h t)).
  destruct (f t).
  - destruct H as [ext H]. exists (t :: ext). rewrite H.
    repeat rewrite <- app_assoc. reflexivity.
  - destruct H as [ext H]. exists (t :: ext). rewrite H.
    repeat rewrite <- app_assoc. reflexivity.
Qed.

Lemma transforms_alloc (g : DataFrame -> DataFrame) (c : ref -> M ref) :
  (forall r, c r = (t <- load r ;; alloc (g t))) ->
  transforms c (fun t => Ok (g t)).
Proof.
  intros E h r t H. rewrite E. unfold bind, load, alloc. rewrite H.
  exists []. rewrite app_nil_r. reflexivity.
Qed.

Lemma transforms_copy : transforms DataFrame_copy (fun t => Ok t).
Proof. apply (transforms_alloc (fun t => t)). reflexivity. Qed.
Lemma transforms_getitem_mask m : transforms (fun r => getitem_mask r m) (fun t => Ok (filter_rows m t)).
Proof. apply (transforms_alloc (filter_rows m)). reflexivity. Qed.
Lemma transforms_replace_dict d : transforms (fun r => replace_dict r d) (fun t => Ok (replace_columnwise d t)).
Proof. apply (transforms_alloc (replace_columnwise d)). reflexivity. Qed.
Lemma transforms_replace a b : transforms (fun r => replace r a b) (fun t => Ok (replace_value a b t)).
Proof. apply (transforms_alloc (replace_value a b)). reflexivity. Qed.
Lemma transforms_dropna subset :
  transforms (fun r => dropna r subset)
    (fun t => let* m := notna_mask subset t in Ok (filter_rows m t)).
Proof.
  intros h r t H. unfold dropna, bind, load, lift, alloc. rewrite H.
  destruct (notna_mask subset t); simpl.
  - exists []. rewrite app_nil_r. reflexivity.
  - exists []. rewrite app_nil_r. reflexivity.
Qed.

Lemma transforms_bind (c : ref -> M ref) f (k : ref -> M ref) fk :
  transforms c f -> transforms k fk ->
  transforms (fun r => r1 <- c r ;; k r1) (fun t => let* t1 := f t in fk t1).
Proof.
  intros Hc Hk h r t H. unfold bind. specialize (Hc _ _ _ H).
  destruct (f t) as [t1|e]; simpl.
  - destruct Hc as [ext Hc]. rewrite Hc.
    specialize (Hk ((h ++ ext) ++ [t1]) (length (h ++ ext)) t1 (nth_error_top _ _)).
    destruct (fk t1).
    + destruct Hk as [ext' Hk]. rewrite Hk. exists (ext ++ t1 :: ext').
      repeat rewrite <- app_assoc. reflexivity.
    + destruct Hk as [ext' Hk]. rewrite Hk. exists (ext ++ t1 :: ext').
      repeat rewrite <- app_assoc. reflexivity.
  - destruct Hc as [ext Hc]. rewrite Hc. exists ext; auto.
Qed.

(** A method: a copy, then commands on the copy. *)
Lemma transforms_method (body : ref -> M ref) f :
  on_top body f ->
  transforms (fun df => df_copy <- DataFrame_copy df ;; body df_copy) f.
Proof.
  intros Hb h r t H. unfold DataFrame_copy. unfold bind, load, alloc. rewrite H.
  specialize (Hb h t). destruct (f t).
  - destruct Hb as [ext Hb]. rewrite Hb. exists ext; auto.
  - destruct Hb as [ext Hb]. rewrite Hb. exists ext; auto.
Qed.
Lemma transforms_ext c f f' :
  transforms c f -> (forall t, f t = f' t) -> transforms c f'.
Proof. intros H E h r t Ht. rewrite <- E. apply H; auto. Qed.

Lemma reads_list_case A B (l : list A) (e1 : ref -> M B)
  (e2 : A -> list A -> ref -> M B) g1 g2 :
  reads e1 g1 -> (forall x xs, reads (e2 x xs) (g2 x xs)) ->
  reads (fun r => match l with [] => e1 r | x :: xs => e2 x xs r end)
        (fun t => match l with [] => g1 t | x :: xs => g2 x xs t end).
Proof. destruct l; auto. Qed.
Lemma updates_list_case A (l : list A) (c1 : ref -> M unit)
  (c2 : A -> list A -> ref -> M unit) f1 f2 :
  updates c1 f1 -> (forall x xs, updates (c2 x xs) (f2 x xs)) ->
  updates (fun r => match l with [] => c1 r | x :: xs => c2 x xs r end)
          (fun t => match l with [] => f1 t | x :: xs => f2 x xs t end).
Proof. destruct l; auto. Qed.
Lemma on_top_list_case A (l : list A) (c1 : ref -> M ref)
  (c2 : A -> list A -> ref -> M ref) f1 f2 :
  on_top c1 f1 -> (forall x xs, on_top (c2 x xs) (f2 x xs)) ->
  on_top (fun r => match l with [] => c1 r | x :: xs => c2 x xs r end)
         (fun t => match l with [] => f1 t | x :: xs => f2 x xs t end).
Proof. destruct l; auto. Qed.

Create HintDb denote discriminated.

Ltac reads_tac :=
  cbv zeta;
  first
    [ apply reads_ret | apply reads_lift | apply reads_load
    | apply reads_get_columns | apply reads_contains | apply reads_getitem
    | apply reads_len | apply reads_getitem_cols
    | eapply reads_if; reads_tac
    | eapply reads_list_case; [ reads_tac | intros ? ?; reads_tac ]
    | eapply reads_bind; [ reads_tac | intro; reads_tac ] ].

Ltac updates_tac :=
  cbv beta zeta;
  first
    [ solve [ eauto 1 with denote nocore ]
    | apply updates_ret | apply updates_setitem | apply updates_setitem_cols
    | eapply updates_if; updates_tac
    | eapply updates_list_case; [ updates_tac | intros ? ?; updates_tac ]
    | eapply updates_for_each; intro; updates_tac
    | eapply updates_read; [ reads_tac | intro; updates_tac ]
    | eapply updates_seq; [ updates_tac | updates_tac ] ].

Ltac on_top_tac :=
  cbv zeta;
  first
    [ apply on_top_ret
    | apply transforms_on_top; transforms_tac
    | eapply on_top_if; on_top_tac
    | eapply on_top_list_case; [ on_top_tac | intros ? ?; on_top_tac ]
    | eapply on_top_read; [ reads_tac | intro; on_top_tac ]
    | eapply on_top_update; [ updates_tac | on_top_tac ]
    | eapply on_top_bind; [ on_top_tac | on_top_tac ] ]
with transforms_tac :=
  first
    [ apply transforms_copy | apply transforms_getitem_mask
    | apply transforms_replace_dict | apply transforms_replace
    | apply transforms_dropna
    | solve [ eauto 1 with denote nocore ]
    | eapply transforms_method; on_top_tac ].

(** The table of a method: the commands give one, which is then
    compared with the one that was written by hand. *)
Ltac denote_with tac :=
  eapply transforms_ext; [ transforms_tac | intros ?t; tac ].

Lemma run_table_transforms c f t : transforms c f -> run_table c t = f t.
Proof.
  intros H. unfold run_table. specialize (H [t] 0 t eq_refl).
  destruct (f t).
  - destruct H as [ext H]. rewrite H. rewrite nth_error_top. reflexivity.
  - destruct H as [ext H]. rewrite H. reflexivity.
Qed.

Lemma run_reads A (e : ref -> M A) g t : reads e g -> run e t = g t.
Proof. intros H. unfold run. rewrite (H [t] 0 t eq_refl). reflexivity. Qed.

Lemma foldR_ext A (f g : A -> DataFrame -> result DataFrame) xs :
  (forall x t, f x t = g x t) -> forall t, foldR f xs t = foldR g xs t.
Proof.
  intros E. induction xs as [|x xs IH]; intros t; simpl; auto.
  rewrite E. destruct (g x t); simpl; auto.
Qed.

(** Case analysis on what a chain of [let*] and [if] looks at first. *)
Ltac case_head :=
  match goal with
  | |- context [match ?x with _ => _ end] =>
      lazymatch x with
      | match _ with _ => _ end => fail
      | _ =>
          let T := type of x in
          lazymatch eval hnf in T with
          | result _ => destruct x
          | bool => destruct x
          | list _ => destruct x
          | option _ => destruct x
          end
      end
  end.

Lemma col_of_has_col c t : has_col c t = true -> exists s, col c t = Ok s.
Proof.
  unfold has_col, col, columns.
  induction t as [|[c' s'] t IH]; simpl; [ discriminate | ].
  rewrite String.eqb_sym.
  destruct (String.eqb c' c); simpl; eauto.
Qed.

(** A guard [c in df.columns]: where it holds, [df[c]] is a series. *)
Ltac guard_step :=
  match goal with
  | |- context [has_col ?c ?t] =>
      let E := fresh "E" in
      destruct (has_col c t) eqn:E;
      [ let s := fresh "s" in
        let Es := fresh "Es" in
        destruct (col_of_has_col _ _ E) as [s Es]; rewrite ?Es
      | ];
      cbn [andb]
  end.

(** Two loops over the same list: their bodies are compared. *)
Ltac loop_step tac :=
  match goal with
  | |- context [foldR ?F ?xs ?t] =>
      match goal with
      | |- context [foldR ?G xs t] =>
          tryif constr_eq F G then fail
          else rewrite (@foldR_ext _ F G xs) by (intros; tac)
      end
  end.

(** Two chains of [let*] that differ by how they are nested. *)
Ltac same_result :=
  cbv beta iota zeta delta [rbind];
  repeat first
    [ reflexivity | loop_step same_result | guard_step | case_head ].

Section Denote.
Context {P : Pandas}.
Import DataValidator.

Lemma remove_invalid_positions_table :
  transforms _remove_invalid_positions ValidatorTables.remove_invalid_positions.
Proof.
  unfold _remove_invalid_positions.
  denote_with ltac:(unfold ValidatorTables.remove_invalid_positions; same_result).
Qed.

Lemma standardize_data_types_table :
  transforms _standardize_data_types ValidatorTables.standardize_data_types.
Proof.
  unfold _standardize_data_types.
  denote_with ltac:(unfold ValidatorTables.standardize_data_types, convert_column; same_result).
Qed.

Lemma handle_missing_values_table :
  transforms _handle_missing_values ValidatorTables.handle_missing_values.
Proof.
  unfold _handle_missing_values.
  denote_with ltac:(unfold ValidatorTables.handle_missing_values, has_col;
                    same_result).
Qed.

Lemma remove_outliers_table :
  transforms _remove_outliers ValidatorTables.remove_outliers.
Proof.
  unfold _remove_outliers, between.
  denote_with ltac:(unfold ValidatorTables.remove_outliers,
                      ValidatorTables.keep_between; same_result).
Qed.

#[local] Hint Resolve remove_invalid_positions_table standardize_data_types_table
  handle_missing_values_table remove_outliers_table : denote.

Lemma validate_and_clean_table :
  transforms validate_and_clean ValidatorTables.validate_and_clean.
Proof.
  unfold validate_and_clean.
  denote_with ltac:(unfold ValidatorTables.validate_and_clean; same_result).
Qed.

Lemma validate_race_data_table :
  reads validate_race_data ValidatorTables.validate_race_data.
Proof.
  unfold validate_race_data.
  eapply reads_ext; [ reads_tac | intros t ].
  unfold ValidatorTables.validate_race_data, ValidatorTables.validation_results,
    ValidatorTables.duplicate_check, ValidatorTables.field_size_check,
    ValidatorTables.declared_field_size, ValidatorTables.missing_columns,
    has_col.
  cbv beta iota zeta delta [rbind].
  match goal with
  | |- context [flat_map ?f required_columns] =>
      generalize (flat_map f required_columns)
  end.
  intros A.
  repeat match goal with
    | |- context [match ?x with _ => _ end] =>
        lazymatch x with
        | match _ with _ => _ end => fail
        | _ =>
            let T := type of x in
            lazymatch eval hnf in T with
            | result _ => destruct x
            | bool => destruct x
            end
        end
    end;
  destruct A; simpl; rewrite ?app_nil_r; try reflexivity;
  rewrite <- ?app_assoc; reflexivity.
Qed.

Import FeatureEngineer.

Lemma create_temporal_features_table :
  transforms _create_temporal_features FeatureTables.create_temporal_features.
Proof.
  unfold _create_temporal_features.
  denote_with ltac:(unfold FeatureTables.create_temporal_features,
    FeatureTables.combine_columns, FeatureTables.month_column; same_result).
Qed.

Lemma create_performance_features_table :
  transforms _create_performance_features
    FeatureTables.create_performance_features.
Proof.
  unfold _create_performance_features.
  denote_with ltac:(unfold FeatureTables.create_performance_features,
    FeatureTables.combine_columns, FeatureTables.popularity_gap,
    FeatureTables.corner_uphill, convert_column; same_result).
Qed.

Lemma create_physical_features_table :
  transforms _create_physical_features FeatureTables.create_physical_features.
Proof.
  unfold _create_physical_features.
  denote_with ltac:(unfold FeatureTables.create_physical_features,
    FeatureTables.combine_columns, FeatureTables.burden_ratio,
    FeatureTables.float_difference; same_result).
Qed.

Lemma create_race_condition_features_table :
  transforms _create_race_condition_features
    FeatureTables.create_race_condition_features.
Proof.
  unfold _create_race_condition_features.
  denote_with ltac:(unfold FeatureTables.create_race_condition_features,
    FeatureTables.combine_columns, FeatureTables.joined_text, joined;
    same_result).
Qed.

Lemma create_interaction_features_table :
  transforms _create_interaction_features
    FeatureTables.create_interaction_features.
Proof.
  unfold _create_interaction_features.
  denote_with ltac:(unfold FeatureTables.create_interaction_features,
    FeatureTables.combine_columns, joined; same_result).
Qed.

Lemma calculate_zscore_by_race_table features :
  transforms (fun df => _calculate_zscore_by_race df features)
    (FeatureTables.calculate_zscore_by_race features).
Proof.
  unfold _calculate_zscore_by_race.
  denote_with ltac:(unfold FeatureTables.calculate_zscore_by_race,
    FeatureTables.zscore_with; same_result).
Qed.

Lemma calculate_global_zscore_table features :
  transforms (fun df => _calculate_global_zscore df features)
    (FeatureTables.calculate_global_zscore features).
Proof.
  unfold _calculate_global_zscore.
  denote_with ltac:(unfold FeatureTables.calculate_global_zscore,
    FeatureTables.zscore_with; same_result).
Qed.

#[local] Hint Resolve create_temporal_features_table create_performance_features_table
  create_physical_features_table create_race_condition_features_table
  create_interaction_features_table calculate_zscore_by_race_table
  calculate_global_zscore_table : denote.

Lemma standardize_numerical_features_table :
  transforms _standardize_numerical_features
    FeatureTables.standardize_numerical_features.
Proof.
  unfold _standardize_numerical_features.
  denote_with ltac:(unfold FeatureTables.standardize_numerical_features;
    same_result).
Qed.

#[local] Hint Resolve standardize_numerical_features_table : denote.

Lemma create_features_table :
  transforms create_features FeatureTables.create_features.
Proof.
  unfold create_features.
  denote_with ltac:(unfold FeatureTables.create_features, FeatureTables.derive;
    same_result).
Qed.
End Denote.

(** ** The entry points and the caller's table *)

Lemma method_leaves_store_unchanged (c : ref -> M ref) f body :
  (forall df, c df = (df_copy <- DataFrame_copy df ;; body df_copy)) ->
  transforms c f ->
  forall h df, leaves_store_unchanged (c df) h.
Proof.
  intros Ec Hc h df. unfold leaves_store_unchanged.
  destruct (nth_error h df) as [t|] eqn:Hdf.
  - specialize (Hc h df t Hdf). destruct (f t) as [t'|e].
    + destruct Hc as [ext Hc]. rewrite Hc. simpl. split.
      * intros r t0 Hr. rewrite <- app_assoc. rewrite nth_error_app1; auto.
        apply nth_error_Some. congruence.
      * intros r' Hr'. inversion Hr'; subst. split.
        -- apply nth_error_None. rewrite length_app. lia.
        -- exists t'. apply nth_error_top.
    + destruct Hc as [ext Hc]. rewrite Hc. simpl. split.
      * intros r t0 Hr. rewrite nth_error_app1; auto.
        apply nth_error_Some. congruence.
      * discriminate.
  - rewrite Ec. unfold DataFrame_copy. unfold bind, load. rewrite Hdf. simpl.
    split; [ auto | discriminate ].
Qed.

(** C9. Both entry points, [validate_and_clean] and [create_features],
    leave the table they are given as it was: in the store after the
    call every object that was there holds the table it held, the input
    among them, and the reference returned is to an object that was not
    there before the call. *)
Theorem entry_points_leave_input_unchanged (P : Pandas) (h : heap) (df : ref) :
  leaves_store_unchanged (DataValidator.validate_and_clean df) h /\
  leaves_store_unchanged (FeatureEngineer.create_features df) h.
Proof.
  split.
  - eapply method_leaves_store_unchanged.
    + intros; reflexivity.
    + apply validate_and_clean_table.
  - eapply method_leaves_store_unchanged.
    + intros; reflexivity.
    + apply create_features_table.
Qed.

(** ** A missing source column *)

Lemma str_to_float_2 (P : Pandas) : str_to_float (py "2") = Some (Fin 2).
Proof.
  rewrite str_to_float_digits.
  - reflexivity.
  - discriminate.
  - repeat constructor; unfold is_digit; simpl; lia.
  - simpl. lia.
Qed.

(** C2. On a table that has [last_race_popularity] and
    [last_race_position] and no [last_race_field_size], [create_features]
    raises [KeyError] instead of leaving [popularity_performance_gap]
    out: the guard of that feature does not look at its third source
    column. *)
Theorem create_features_raises_without_field_size (P : Pandas) :
  run_table FeatureEngineer.create_features gap_table
  = Raise (KeyError "last_race_field_size").
Proof.
  rewrite (run_table_transforms _ create_features_table).
  unfold FeatureTables.create_features, FeatureTables.derive.
  assert (E1 : FeatureTables.create_temporal_features gap_table = Ok gap_table)
    by reflexivity.
  rewrite E1. cbn [rbind].
  unfold FeatureTables.create_performance_features.
  assert (E2 : foldR (convert_column FeatureEngineer._convert_position_to_numeric)
            FeatureEngineer.position_features gap_table
          = Ok [("last_race_popularity"%string, [CNum (Fin 1)]);
                ("last_race_position"%string, [CNum (Fin 2)])]).
  { cbn. unfold to_numeric_cell. 
    change (translate FeatureEngineer.fullwidth_table (py "2")) with (py "2").
    rewrite str_to_float_2. reflexivity. }
  rewrite E2. cbn [rbind].
  reflexivity.
Qed.

(** ** Positions in full-width characters *)

Import FeatureEngineer.






(** ** The structural validator *)

Import DataValidator.

(** ** Keys *)

Lemma feqb_refl x : feqb (Fin x) (Fin x) = true.
Proof. unfold feqb. destruct (Req_dec_T x x); congruence. Qed.

Lemma feqb_eq a b : feqb a b = true -> a = b /\ is_nan a = false.
Proof.
  destruct a, b; simpl; try discriminate; auto.
  destruct (Req_dec_T x x0); try discriminate. intros _. subst; auto.
Qed.

Lemma feqb_sym a b : feqb a b = feqb b a.
Proof.
  destruct a, b; simpl; auto.
  destruct (Req_dec_T x x0), (Req_dec_T x0 x); congruence.
Qed.

Lemma pystr_eqb_eq s t : pystr_eqb s t = true <-> s = t.
Proof.
  unfold pystr_eqb. destruct (list_eq_dec Z.eq_dec s t); split; congruence.
Qed.

Lemma pystr_eqb_sym s t : pystr_eqb s t = pystr_eqb t s.
Proof.
  unfold pystr_eqb.
  destruct (list_eq_dec Z.eq_dec s t), (list_eq_dec Z.eq_dec t s); congruence.
Qed.

Lemma same_key_sym a b : same_key a b = same_key b a.
Proof.
  destruct a as [[x| | |]|s], b as [[y| | |]|t]; simpl; auto.
  - apply (feqb_sym (Fin x) (Fin y)).
  - apply pystr_eqb_sym.
Qed.

(** ** Duplicates *)

Lemma duplicated_from_seen seen s a :
  In a seen -> forall j b, nth_error s j = Some b -> same_key b a = true ->
  any (duplicated_from seen s) = true.
Proof.
  revert seen. induction s as [|c r IH]; intros seen Ha j b Hj Hk.
  - destruct j; discriminate.
  - unfold any in *. simpl. destruct j as [|j]; simpl in Hj.
    + inversion Hj; subst.
      assert (E : existsb (same_key b) seen = true).
      { apply existsb_exists. eauto. }
      rewrite E. reflexivity.
    + rewrite (IH (c :: seen) (or_intror Ha) j b Hj Hk). apply orb_true_r.
Qed.

Lemma any_duplicated s i j a b :
  i < j -> nth_error s i = Some a -> nth_error s j = Some b ->
  same_key a b = true -> any (duplicated s) = true.
Proof.
  unfold duplicated. generalize (@nil cell) as seen.
  revert i j. induction s as [|c r IH]; intros i j seen Hij Hi Hj Hk.
  - destruct i; discriminate.
  - destruct j as [|j]; [ lia | ]. simpl in Hj.
    destruct i as [|i]; simpl in Hi.
    + inversion Hi; subst. unfold any. simpl.
      rewrite same_key_sym in Hk.
      fold (any (duplicated_from (a :: seen) r)).
      rewrite (@duplicated_from_seen (a :: seen) r a (or_introl eq_refl) j b Hj Hk).
      apply orb_true_r.
    + unfold any. simpl. fold (any (duplicated_from (c :: seen) r)).
      rewrite (IH i j (c :: seen) ltac:(lia) Hi Hj Hk). apply orb_true_r.
Qed.

Lemma col_get_col c t s : get_col c t = Some s -> col c t = Ok s.
Proof. unfold col. intros ->. reflexivity. Qed.

Lemma has_col_get_col c t s : get_col c t = Some s -> has_col c t = true.
Proof.
  unfold has_col, columns. induction t as [|[c' s'] t IH]; simpl; try discriminate.
  destruct (String.eqb c' c) eqn:E.
  - rewrite String.eqb_sym, E. reflexivity.
  - intros H. rewrite (IH H). apply orb_true_r.
Qed.

Lemma run_validate_race_data t :
  run validate_race_data t = ValidatorTables.validate_race_data t.
Proof. apply run_reads, validate_race_data_table. Qed.

Lemma validate_two_races :
  run validate_race_data two_races = Ok (false, [DuplicateHorseNumber]).
Proof.
  rewrite run_validate_race_data.
  unfold ValidatorTables.validate_race_data, ValidatorTables.validation_results,
    ValidatorTables.duplicate_check.
  assert (E : any (duplicated [CNum (Fin 3); CNum (Fin 3)]) = true).
  { apply (@any_duplicated _ 0 1 (CNum (Fin 3)) (CNum (Fin 3))); auto.
    apply feqb_refl. }
  cbn [two_races has_col columns map fst existsb String.eqb Ascii.eqb Bool.eqb
       orb col get_col rbind].
  rewrite E. reflexivity.
Qed.

(** C4, as stated, fails: two rows of different races ([R1] and [R2])
    with the same horse number are reported as a duplicate. *)
Lemma duplicate_check_ignores_race_id :
  same_key (CStr (py "R1")) (CStr (py "R2")) = false /\
  run validate_race_data two_races = Ok (false, [DuplicateHorseNumber]).
Proof. split; [ reflexivity | apply validate_two_races ]. Qed.

(** C4, amended. [validate_race_data] looks for duplicate horse numbers
    over the whole table it is given, whatever the [race_id] of the rows:
    when two rows of the table have the same [horse_number] and the
    method returns, it returns false and [validation_results] holds the
    duplicate-horse-number violation. *)
Theorem duplicate_horse_numbers_reported (t : DataFrame) (s : Series)
  (i j : nat) (a b : cell) (res : bool * list violation) :
  get_col "horse_number" t = Some s ->
  i < j -> nth_error s i = Some a -> nth_error s j = Some b ->
  same_key a b = true ->
  run validate_race_data t = Ok res ->
  fst res = false /\ In DuplicateHorseNumber (snd res).
Proof.
  intros Hs Hij Hi Hj Hk. rewrite run_validate_race_data.
  unfold ValidatorTables.validate_race_data, ValidatorTables.validation_results,
    ValidatorTables.duplicate_check.
  rewrite (has_col_get_col _ _ Hs), (col_get_col _ _ Hs).
  cbn [rbind]. rewrite (@any_duplicated s i j a b Hij Hi Hj Hk).
  destruct (ValidatorTables.field_size_check t) as [f|e]; cbn [rbind];
    [ | discriminate ].
  intros H. inversion H; subst; clear H. cbn [fst snd].
  match goal with
  | |- context [match ?L with [] => _ | _ :: _ => _ end] =>
      assert (Hin : In DuplicateHorseNumber L)
        by (apply in_or_app; right; left; reflexivity);
      destruct L; [ destruct Hin | split; [ reflexivity | exact Hin ] ]
  end.
Qed.

Lemma duplicate_horse_numbers_reported_witness :
  fst (false, [DuplicateHorseNumber]) = false /\
  In DuplicateHorseNumber (snd (false, [DuplicateHorseNumber])).
Proof.
  apply (@duplicate_horse_numbers_reported two_races
           [CNum (Fin 3); CNum (Fin 3)] 0 1 (CNum (Fin 3)) (CNum (Fin 3))).
  - reflexivity.
  - lia.
  - reflexivity.
  - reflexivity.
  - apply feqb_refl.
  - apply validate_two_races.
Defined.

(** ** The order of numbers and of texts *)

Lemma fleb_refl a : is_nan a = false -> fleb a a = true.
Proof.
  destruct a; simpl; try discriminate; auto.
  destruct (Rle_dec x x); auto. exfalso; apply n; lra.
Qed.

Lemma fleb_total a b :
  is_nan a = false -> is_nan b = false -> fleb a b = false -> fleb b a = true.
Proof.
  destruct a, b; simpl; try discriminate; auto.
  destruct (Rle_dec x x0), (Rle_dec x0 x); auto; try discriminate.
  exfalso; lra.
Qed.

Lemma fleb_trans a b c : fleb a b = true -> fleb b c = true -> fleb a c = true.
Proof.
  destruct a, b, c; simpl; try discriminate; auto.
  destruct (Rle_dec x x0), (Rle_dec x0 x1), (Rle_dec x x1); auto; try discriminate.
  exfalso; lra.
Qed.

Lemma fleb_antisym a b : fleb a b = true -> fleb b a = true -> a = b.
Proof.
  destruct a, b; simpl; try discriminate; auto.
  destruct (Rle_dec x x0), (Rle_dec x0 x); try discriminate.
  intros _ _. f_equal. lra.
Qed.

Lemma pystr_leb_refl s : pystr_leb s s = true.
Proof.
  induction s as [|a s IH]; simpl; auto.
  rewrite Z.ltb_irrefl. exact IH.
Qed.

Lemma pystr_leb_total s t : pystr_leb s t = false -> pystr_leb t s = true.
Proof.
  revert t. induction s as [|a s IH]; intros [|b t]; simpl; try discriminate; auto.
  destruct (Z.ltb_spec a b), (Z.ltb_spec b a); try discriminate; auto; try lia.
Qed.

Lemma pystr_leb_trans s t u :
  pystr_leb s t = true -> pystr_leb t u = true -> pystr_leb s u = true.
Proof.
  revert t u. induction s as [|a s IH]; intros [|b t] [|c u]; simpl;
    try discriminate; auto.
  destruct (Z.ltb_spec a b), (Z.ltb_spec b a), (Z.ltb_spec b c),
    (Z.ltb_spec c b), (Z.ltb_spec a c), (Z.ltb_spec c a);
    try discriminate; auto; try lia.
  apply IH.
Qed.

Lemma pystr_leb_antisym s t :
  pystr_leb s t = true -> pystr_leb t s = true -> s = t.
Proof.
  revert t. induction s as [|a s IH]; intros [|b t]; simpl; try discriminate; auto.
  destruct (Z.ltb_spec a b), (Z.ltb_spec b a); try discriminate; try lia.
  intros H1 H2. f_equal; [ lia | auto ].
Qed.

Lemma below_antisym a b : below a b -> below b a -> a = b.
Proof.
  destruct a, b; simpl; try tauto; intros H1 H2; f_equal.
  - apply fleb_antisym; auto.
  - apply pystr_leb_antisym; auto.
Qed.

(** ** The maximum of a column *)

Lemma fold_fmax_spec ys y :
  is_nan y = false -> Forall (fun x => is_nan x = false) ys ->
  is_nan (fold_left fmax ys y) = false /\ In (fold_left fmax ys y) (y :: ys) /\
  forall x, In x (y :: ys) -> fleb x (fold_left fmax ys y) = true.
Proof.
  revert y. induction ys as [|z ys IH]; intros y Hy Hys; simpl.
  - repeat split; auto. intros x [<-|[]]. apply fleb_refl; auto.
  - inversion Hys as [|? ? Hz Hys']; subst.
    assert (Hm : is_nan (fmax y z) = false)
      by (unfold fmax; destruct (fleb y z); auto).
    destruct (IH (fmax y z) Hm Hys') as (N & I & L). simpl in I, L.
    assert (Ly : fleb y (fmax y z) = true).
    { unfold fmax. destruct (fleb y z) eqn:E; auto. apply fleb_refl; auto. }
    assert (Lz : fleb z (fmax y z) = true).
    { unfold fmax. destruct (fleb y z) eqn:E.
      - apply fleb_refl; auto.
      - apply fleb_total; auto. }
    split; [ exact N | split ].
    + destruct I as [I|I]; [ | tauto ].
      assert (Hc : fmax y z = y \/ fmax y z = z)
        by (unfold fmax; destruct (fleb y z); auto).
      destruct Hc as [Hc|Hc]; [ left | right; left ];
        rewrite <- I; symmetry; exact Hc.
    + intros x [<-|[<-|Hx]].
      * eapply fleb_trans; [ exact Ly | apply L; auto ].
      * eapply fleb_trans; [ exact Lz | apply L; auto ].
      * apply L; auto.
Qed.

Lemma filter_notnan_Forall xs :
  Forall (fun x => is_nan x = false) (filter notnan xs).
Proof.
  apply Forall_forall. intros x Hx. apply filter_In in Hx.
  destruct Hx as [_ Hx]. unfold notnan in Hx. destruct (is_nan x); auto; discriminate.
Qed.

Lemma nanmax_spec xs :
  (nanmax xs = NaN /\ forall x, In x xs -> x = NaN) \/
  (is_nan (nanmax xs) = false /\ In (nanmax xs) xs /\
   forall x, In x xs -> is_nan x = false -> fleb x (nanmax xs) = true).
Proof.
  unfold nanmax. pose proof (filter_notnan_Forall xs) as HF.
  destruct (filter notnan xs) as [|y ys] eqn:E.
  - left. split; auto. intros x Hx.
    destruct x; auto;
      (assert (Hf : In _ (filter notnan xs))
         by (apply filter_In; split; [ exact Hx | reflexivity ]);
       rewrite E in Hf; destruct Hf).
  - right. inversion HF as [|? ? Hy Hys]; subst.
    destruct (@fold_fmax_spec ys y Hy Hys) as (N & I & L).
    repeat split; auto.
    + rewrite <- E in I. apply filter_In in I. tauto.
    + intros x Hx Nx. apply L. rewrite <- E. apply filter_In. split; auto.
      unfold notnan. rewrite Nx. reflexivity.
Qed.

Lemma mapR_Forall2 A B (f : A -> result B) xs ys :
  mapR f xs = Ok ys -> Forall2 (fun x y => f x = Ok y) xs ys.
Proof.
  revert ys. induction xs as [|x xs IH]; simpl; intros ys H.
  - inversion H. constructor.
  - destruct (f x) as [y|e] eqn:E; simpl in H; try discriminate.
    destruct (mapR f xs) as [ys'|e]; simpl in H; try discriminate.
    inversion H; subst. constructor; auto.
Qed.

Lemma as_floats_map s xs : as_floats s = Ok xs -> s = map CNum xs.
Proof.
  intros H. apply mapR_Forall2 in H.
  induction H as [|c x s xs Hc _ IH]; simpl; auto.
  destruct c; simpl in Hc; inversion Hc; subst; f_equal; exact IH.
Qed.

Lemma texts_of_map s ts : texts_of s = Some ts -> s = map CStr ts.
Proof.
  revert ts. induction s as [|c s IH]; simpl; intros ts H.
  - inversion H. reflexivity.
  - destruct c as [x|u]; simpl in H; try discriminate.
    destruct (texts_of s) as [us|]; try discriminate.
    inversion H; subst. simpl. f_equal. auto.
Qed.

Lemma fold_text_max_spec ts t :
  In (fold_left text_max ts t) (t :: ts) /\
  forall x, In x (t :: ts) -> pystr_leb x (fold_left text_max ts t) = true.
Proof.
  revert t. induction ts as [|u ts IH]; intros t; simpl.
  - split; auto. intros x [<-|[]]. apply pystr_leb_refl.
  - destruct (IH (text_max t u)) as (I & L). simpl in I, L.
    assert (Lt : pystr_leb t (text_max t u) = true).
    { unfold text_max. destruct (pystr_leb t u) eqn:E; auto. apply pystr_leb_refl. }
    assert (Lu : pystr_leb u (text_max t u) = true).
    { unfold text_max. destruct (pystr_leb t u) eqn:E.
      - apply pystr_leb_refl.
      - apply pystr_leb_total; auto. }
    split.
    + destruct I as [I|I]; [ | tauto ].
      assert (Hc : text_max t u = t \/ text_max t u = u)
        by (unfold text_max; destruct (pystr_leb t u); auto).
      destruct Hc as [Hc|Hc]; [ left | right; left ];
        rewrite <- I; symmetry; exact Hc.
    + intros x [<-|[<-|Hx]].
      * eapply pystr_leb_trans; [ exact Lt | apply L; auto ].
      * eapply pystr_leb_trans; [ exact Lu | apply L; auto ].
      * apply L; auto.
Qed.

(** What [s.max()] is: the maximum observed, or the missing value when
    nothing is observed. *)
Lemma series_max_spec s m :
  series_max s = Ok m ->
  (isna m = true /\ forall x, In x s -> isna x = true) \/ greatest_of s m.
Proof.
  unfold series_max. destruct (as_floats s) as [xs|e] eqn:E.
  - intros H. inversion H; subst; clear H.
    apply as_floats_map in E. subst s.
    destruct (nanmax_spec xs) as [[N A]|(N & I & L)].
    + left. rewrite N. split; auto.
      intros x Hx. apply in_map_iff in Hx. destruct Hx as (y & <- & Hy).
      rewrite (A y Hy). reflexivity.
    + right. unfold greatest_of. repeat split.
      * simpl. destruct (nanmax xs); auto; discriminate.
      * apply in_map; auto.
      * intros x Hx Nx. apply in_map_iff in Hx. destruct Hx as (y & <- & Hy).
        simpl. apply L; auto.
  - destruct (texts_of s) as [[|t ts]|] eqn:T; try discriminate.
    intros H. inversion H; subst; clear H.
    apply texts_of_map in T. subst s.
    destruct (fold_text_max_spec ts t) as (I & L).
    right. unfold greatest_of. repeat split.
    + apply (in_map CStr) in I. exact I.
    + intros x Hx _. apply in_map_iff in Hx. destruct Hx as (y & <- & Hy).
      simpl. apply L; auto.
Qed.

Lemma greatest_of_unique s a b : greatest_of s a -> greatest_of s b -> a = b.
Proof.
  intros (Na & Ia & La) (Nb & Ib & Lb).
  apply below_antisym; auto.
Qed.

Lemma py_ne_false a b : py_ne a b = false <-> a = b /\ isna a = false.
Proof.
  destruct a as [x|s], b as [y|t]; simpl.
  - split.
    + intros H. apply negb_false_iff in H. apply feqb_eq in H.
      destruct H as [-> H]. split; auto.
    + intros [H N]. inversion H; subst. apply negb_false_iff.
      destruct y; simpl in *; try discriminate; auto. apply feqb_refl.
  - split; [ discriminate | intros [H _]; discriminate ].
  - split; [ discriminate | intros [H _]; discriminate ].
  - split.
    + intros H. apply negb_false_iff in H. apply pystr_eqb_eq in H. subst; auto.
    + intros [H _]. inversion H; subst. apply negb_false_iff.
      apply pystr_eqb_eq. reflexivity.
Qed.

Lemma missing_columns_no_mismatch t v :
  In v (ValidatorTables.missing_columns t) -> ~ is_field_size_mismatch v.
Proof.
  unfold ValidatorTables.missing_columns. intros H. apply in_flat_map in H.
  destruct H as (c & _ & H). destruct (has_col c t); simpl in H; [ tauto | ].
  destruct H as [<-|[]]. intros (x & y & E). discriminate.
Qed.

Lemma duplicate_check_no_mismatch t d v :
  ValidatorTables.duplicate_check t = Ok d -> In v d ->
  ~ is_field_size_mismatch v.
Proof.
  unfold ValidatorTables.duplicate_check.
  destruct (has_col "horse_number" t).
  - destruct (col "horse_number" t) as [s|e]; simpl; try discriminate.
    intros H. inversion H; subst; clear H.
    destruct (any (duplicated s)); simpl; [ | tauto ].
    intros [<-|[]] (x & y & E). discriminate.
  - intros H. inversion H; subst. simpl. tauto.
Qed.

(** C6. On a table that has the columns [field_size] and
    [horse_number], [validate_race_data], when it returns, reports a
    field-size violation exactly when the field size the table declares
    is not the maximum horse number observed over its rows, and then it
    returns false. *)
Theorem field_size_violation_iff (t : DataFrame) (horse_number field_size : Series)
  (res : bool * list violation) :
  get_col "horse_number" t = Some horse_number ->
  get_col "field_size" t = Some field_size ->
  run validate_race_data t = Ok res ->
  ((exists v, In v (snd res) /\ is_field_size_mismatch v) <->
   ~ greatest_of horse_number (declared_size t field_size)) /\
  (~ greatest_of horse_number (declared_size t field_size) -> fst res = false).
Proof.
  intros Hn Hf. rewrite run_validate_race_data.
  unfold ValidatorTables.validate_race_data, ValidatorTables.validation_results.
  destruct (ValidatorTables.duplicate_check t) as [d|e] eqn:D; cbn [rbind];
    [ | discriminate ].
  unfold ValidatorTables.field_size_check, ValidatorTables.declared_field_size.
  rewrite (has_col_get_col _ _ Hn), (has_col_get_col _ _ Hf),
    (col_get_col _ _ Hn), (col_get_col _ _ Hf).
  cbn [andb rbind].
  destruct (series_max horse_number) as [m|e] eqn:Hm; cbn [rbind];
    [ | discriminate ].
  assert (Hd : (if (0 <? nrows t)%nat
                then Ok (hd missing field_size)
                else Ok (CNum (Fin 0))) = Ok (declared_size t field_size)).
  { unfold declared_size. destruct (0 <? nrows t)%nat; reflexivity. }
  rewrite Hd. cbn [rbind]. clear Hd.
  set (dc := declared_size t field_size).
  intros H. inversion H; subst; clear H. cbn [fst snd].
  assert (Hiff : py_ne m dc = true <-> ~ greatest_of horse_number dc).
  { split.
    - intros Hne G.
      destruct (series_max_spec _ Hm) as [[N A]|G'].
      + destruct G as (Nd & Id & _). rewrite (A _ Id) in Nd. discriminate.
      + assert (E : m = dc) by (eapply greatest_of_unique; eauto).
        assert (F : py_ne m dc = false).
        { apply py_ne_false. split; auto. rewrite E. apply G. }
        congruence.
    - intros NG. destruct (py_ne m dc) eqn:E; auto.
      apply py_ne_false in E. destruct E as [E N]. exfalso. apply NG.
      destruct (series_max_spec _ Hm) as [[N' _]|G']; [ congruence | ].
      rewrite <- E. exact G'. }
  split; [ split | ].
  - intros (v & Hv & Mv). apply Hiff.
    apply in_app_or in Hv. destruct Hv as [Hv|Hv].
    { exfalso. eapply missing_columns_no_mismatch; eauto. }
    apply in_app_or in Hv. destruct Hv as [Hv|Hv].
    { exfalso. eapply duplicate_check_no_mismatch; eauto. }
    destruct (py_ne m dc); [ reflexivity | destruct Hv ].
  - intros NG. apply Hiff in NG. rewrite NG.
    exists (FieldSizeMismatch dc m). split.
    + apply in_or_app. right. apply in_or_app. right. left. reflexivity.
    + exists dc, m. reflexivity.
  - intros NG. apply Hiff in NG. rewrite NG.
    destruct (ValidatorTables.missing_columns t); simpl; auto.
    destruct d; simpl; auto.
Qed.

Lemma validate_one_horse :
  run validate_race_data one_horse = Ok (true, []).
Proof.
  rewrite run_validate_race_data.
  unfold ValidatorTables.validate_race_data, ValidatorTables.validation_results,
    ValidatorTables.duplicate_check, ValidatorTables.field_size_check,
    ValidatorTables.declared_field_size.
  cbn -[feqb fleb]. rewrite feqb_refl. reflexivity.
Qed.

Lemma field_size_violation_iff_witness :
  ((exists v, In v (snd (true, @nil violation)) /\ is_field_size_mismatch v) <->
   ~ greatest_of [CNum (Fin 1)] (declared_size one_horse [CNum (Fin 1)])) /\
  (~ greatest_of [CNum (Fin 1)] (declared_size one_horse [CNum (Fin 1)]) ->
   fst (true, @nil violation) = false).
Proof.
  apply (@field_size_violation_iff one_horse [CNum (Fin 1)] [CNum (Fin 1)]
           (true, [])).
  - reflexivity.
  - reflexivity.
  - apply validate_one_horse.
Defined.

(** * Missing values of the rank columns *)

(** ** Columns of a table that is changed column by column *)

Lemma get_col_map (F : string -> Series -> Series) c t :
  get_col c (map (fun cs => (fst cs, F (fst cs) (snd cs))) t)
  = option_map (F c) (get_col c t).
Proof.
  induction t as [|[c' s'] t IH]; simpl; auto.
  destruct (String.eqb_spec c' c) as [->|N]; auto.
Qed.

Lemma columns_map (F : string -> Series -> Series) t :
  columns (map (fun cs => (fst cs, F (fst cs) (snd cs))) t) = columns t.
Proof. unfold columns. rewrite map_map. reflexivity. Qed.

Lemma replace_columnwise_map d t :
  replace_columnwise d t
  = map (fun cs => (fst cs,
                    (fun c s => match dict_get d c with
                                | Some pairs => map (replace_cell pairs) s
                                | None => s
                                end) (fst cs) (snd cs))) t.
Proof.
  unfold replace_columnwise. apply map_ext. intros [c s]. simpl.
  destruct (dict_get d c); reflexivity.
Qed.

Lemma get_col_replace_columnwise d c t :
  get_col c (replace_columnwise d t)
  = option_map (fun s => match dict_get d c with
                         | Some pairs => map (replace_cell pairs) s
                         | None => s
                         end) (get_col c t).
Proof.
  rewrite replace_columnwise_map.
  apply (get_col_map (fun c s => match dict_get d c with
                                 | Some pairs => map (replace_cell pairs) s
                                 | None => s
                                 end)).
Qed.

Lemma get_col_replace_value a b c t :
  get_col c (replace_value a b t)
  = option_map (map (replace_cell [(a, b)])) (get_col c t).
Proof.
  unfold replace_value.
  apply (get_col_map (fun _ s => map (replace_cell [(a, b)]) s)).
Qed.

Lemma get_col_filter_rows m c t :
  get_col c (filter_rows m t) = option_map (select m) (get_col c t).
Proof. unfold filter_rows. apply (get_col_map (fun _ s => select m s)). Qed.

Lemma columns_replace_columnwise d t :
  columns (replace_columnwise d t) = columns t.
Proof.
  rewrite replace_columnwise_map.
  apply (columns_map (fun c s => match dict_get d c with
                                 | Some pairs => map (replace_cell pairs) s
                                 | None => s
                                 end)).
Qed.

Lemma columns_replace_value a b t : columns (replace_value a b t) = columns t.
Proof.
  unfold replace_value.
  apply (columns_map (fun _ s => map (replace_cell [(a, b)]) s)).
Qed.

Lemma columns_filter_rows m t : columns (filter_rows m t) = columns t.
Proof. unfold filter_rows. apply (columns_map (fun _ s => select m s)). Qed.

(** ** Boolean indexing *)

Lemma select_all A (s : list A) n :
  length s <= n -> select (repeat true n) s = s.
Proof.
  revert n. induction s as [|x s IH]; intros [|n] H; simpl in *; auto; try lia.
  f_equal. apply IH. lia.
Qed.

Lemma select_map A B (f : A -> B) m (s : list A) :
  select m (map f s) = map f (select m s).
Proof.
  revert s. induction m as [|b m IH]; intros [|x s]; simpl; auto.
  destruct b; simpl; rewrite IH; reflexivity.
Qed.

Lemma Forall2_map_r A B (R : A -> B -> Prop) (f : A -> B) s :
  (forall x, R x (f x)) -> Forall2 R s (map f s).
Proof. intros H. induction s; simpl; constructor; auto. Qed.

(** The longest column of a table. *)
Lemma get_col_length_le c t s :
  get_col c t = Some s ->
  length s <= list_max (map (fun cs => length (snd cs)) t).
Proof.
  induction t as [|[c' s'] t IH]; simpl; try discriminate.
  destruct (String.eqb c' c).
  - intros H. inversion H; subst. lia.
  - intros H. specialize (IH H). lia.
Qed.

(** ** The rank columns *)

Lemma rank_columns_replacement c :
  In c rank_columns -> dict_get position_replacements c = Some rank_replacement.
Proof.
  unfold rank_columns, position_replacements. cbn [map fst]. intros H.
  repeat (destruct H as [<-|H]; [ reflexivity | ]). destruct H.
Qed.

Lemma get_col_rank_replaced c t s :
  In c rank_columns -> get_col c t = Some s ->
  get_col c (replace_value (CStr (py "")) missing
               (replace_columnwise position_replacements t))
  = Some (map rank_cell_after s).
Proof.
  intros Hc Hs.
  rewrite get_col_replace_value, get_col_replace_columnwise, Hs.
  rewrite (rank_columns_replacement Hc). simpl. rewrite map_map. reflexivity.
Qed.

(** * Normalization *)

(** ** Arithmetic on columns of numbers *)

Lemma mapR_map A B C (f : B -> result C) (g : A -> B) xs :
  mapR f (map g xs) = mapR (fun x => f (g x)) xs.
Proof.
  induction xs as [|x xs IH]; simpl; auto. rewrite IH. reflexivity.
Qed.

Lemma mapR_ok A B (f : A -> result B) (h : A -> B) xs :
  (forall x, In x xs -> f x = Ok (h x)) -> mapR f xs = Ok (map h xs).
Proof.
  induction xs as [|x xs IH]; simpl; intros H; auto.
  rewrite (H x (or_introl eq_refl)), IH; auto.
Qed.

Lemma combine_map_same A B C (f : A -> B) (g : A -> C) xs :
  combine (map f xs) (map g xs) = map (fun x => (f x, g x)) xs.
Proof. induction xs; simpl; congruence. Qed.

Lemma series_op_nums f a b :
  series_op (cell_arith f) (map CNum a) (map CNum b)
  = Ok (map CNum (map2 f a b)).
Proof.
  unfold series_op. revert b.
  induction a as [|x a IH]; intros [|y b]; simpl; auto.
  rewrite IH. reflexivity.
Qed.

Lemma series_op_scalar_nums f a k :
  series_op_scalar (cell_arith f) (map CNum a) (CNum k)
  = Ok (map CNum (map (fun x => f x k) a)).
Proof.
  unfold series_op_scalar. induction a as [|x a IH]; simpl; auto.
  rewrite IH. reflexivity.
Qed.

Lemma series_add_scalar_nums a k :
  series_op_scalar cell_add (map CNum a) (CNum k)
  = Ok (map CNum (map (fun x => fadd x k) a)).
Proof.
  unfold series_op_scalar. induction a as [|x a IH]; simpl; auto.
  rewrite IH. reflexivity.
Qed.

(** ** Tables that hold one column for each name of a list *)

Lemma frame_op_frame_of op ex F G H :
  (forall c, In c ex -> series_op op (F c) (G c) = Ok (H c)) ->
  frame_op op (frame_of ex F) (frame_of ex G) = Ok (frame_of ex H).
Proof.
  intros E. unfold frame_op, frame_of. rewrite combine_map_same, mapR_map.
  apply mapR_ok. intros c Hc. simpl. rewrite (E c Hc). reflexivity.
Qed.

Lemma frame_op_scalar_frame_of op k ex F H :
  (forall c, In c ex -> series_op_scalar op (F c) k = Ok (H c)) ->
  frame_op_scalar op (frame_of ex F) k = Ok (frame_of ex H).
Proof.
  intros E. unfold frame_op_scalar, frame_of. rewrite mapR_map.
  apply mapR_ok. intros c Hc. simpl. rewrite (E c Hc). reflexivity.
Qed.

Lemma frame_fillna_frame_of v ex F :
  frame_fillna v (frame_of ex F) = frame_of ex (fun c => fillna v (F c)).
Proof. unfold frame_fillna, frame_of. rewrite map_map. reflexivity. Qed.

Lemma select_columns_frame_of ex F t :
  (forall c, In c ex -> get_col c t = Some (F c)) ->
  select_columns ex t = Ok (frame_of ex F).
Proof.
  intros E. unfold select_columns, frame_of. apply mapR_ok.
  intros c Hc. rewrite (E c Hc). reflexivity.
Qed.

Lemma deviation_score_frame_of ex xs ms ss :
  deviation_score (frame_of ex (fun c => map CNum (xs c)))
                  (frame_of ex (fun c => map CNum (ms c)))
                  (frame_of ex (fun c => map CNum (ss c)))
  = Ok (frame_of ex (fun c => map CNum (deviation_scores (xs c) (ms c) (ss c)))).
Proof.
  unfold deviation_score.
  rewrite (frame_op_frame_of cell_sub ex _ _
             (fun c => map CNum (map2 fsub (xs c) (ms c))))
    by (intros; apply series_op_nums).
  cbn [rbind].
  rewrite (frame_op_frame_of cell_div ex _ _
             (fun c => map CNum (map2 fdiv (map2 fsub (xs c) (ms c)) (ss c))))
    by (intros; apply series_op_nums).
  cbn [rbind].
  rewrite (frame_op_scalar_frame_of cell_mul (CNum (Fin 10)) ex _
             (fun c => map CNum (map (fun x => fmul x (Fin 10))
                                   (map2 fdiv (map2 fsub (xs c) (ms c)) (ss c)))))
    by (intros; apply series_op_scalar_nums).
  cbn [rbind].
  rewrite (frame_op_scalar_frame_of cell_add (CNum (Fin 50)) ex _
             (fun c => map CNum (deviation_scores (xs c) (ms c) (ss c)))).
  - reflexivity.
  - intros c Hc. rewrite series_add_scalar_nums. unfold deviation_scores.
    rewrite !map_map. reflexivity.
Qed.

(** ** Assigning columns *)

Lemma get_col_set_col c c' s t :
  get_col c (set_col c' s t) = if String.eqb c' c then Some s else get_col c t.
Proof.
  induction t as [|[d u] t IH]; simpl.
  - destruct (String.eqb c' c); reflexivity.
  - destruct (String.eqb_spec d c') as [->|N]; simpl.
    + destruct (String.eqb c' c); reflexivity.
    + rewrite IH. destruct (String.eqb_spec d c) as [->|N'].
      * destruct (String.eqb_spec c' c); congruence.
      * reflexivity.
Qed.

Lemma columns_set_col c s t :
  has_col c t = true -> columns (set_col c s t) = columns t.
Proof.
  unfold has_col, columns. induction t as [|[d u] t IH]; simpl; try discriminate.
  destruct (String.eqb_spec d c) as [->|N]; simpl; auto.
  destruct (String.eqb_spec c d); [ congruence | ]. simpl.
  intros H. rewrite IH; auto.
Qed.

Lemma has_col_In c t : has_col c t = true <-> In c (columns t).
Proof.
  unfold has_col. rewrite existsb_exists. split.
  - intros (x & Hx & E). apply String.eqb_eq in E. subst; auto.
  - intros H. exists c. split; auto. apply String.eqb_refl.
Qed.

Lemma has_col_get_col_iff c t : has_col c t = true <-> exists s, get_col c t = Some s.
Proof.
  split.
  - intros H. apply col_of_has_col in H. destruct H as [s H]. unfold col in H.
    destruct (get_col c t); inversion H; eauto.
  - intros [s H]. eapply has_col_get_col; eauto.
Qed.

Lemma get_col_set_cols ex F c t :
  get_col c (set_cols (frame_of ex F) t)
  = if existsb (String.eqb c) ex then Some (F c) else get_col c t.
Proof.
  unfold set_cols, frame_of. revert t.
  induction ex as [|d ex IH]; intros t; simpl; auto.
  rewrite IH, get_col_set_col.
  destruct (String.eqb_spec c d) as [->|N]; simpl.
  - rewrite String.eqb_refl. destruct (existsb (String.eqb d) ex); reflexivity.
  - destruct (String.eqb_spec d c); [ congruence | reflexivity ].
Qed.

Lemma columns_set_cols ex F t :
  (forall c, In c ex -> has_col c t = true) ->
  columns (set_cols (frame_of ex F) t) = columns t.
Proof.
  unfold set_cols, frame_of. revert t.
  induction ex as [|d ex IH]; intros t H; simpl; auto.
  rewrite IH.
  - apply columns_set_col. apply H. left; reflexivity.
  - intros c Hc. apply has_col_In. rewrite columns_set_col.
    + apply has_col_In. apply H. right; auto.
    + apply H. left; reflexivity.
Qed.

Lemma existsb_eqb_In c ex : existsb (String.eqb c) ex = true <-> In c ex.
Proof.
  rewrite existsb_exists. split.
  - intros (x & Hx & E). apply String.eqb_eq in E. subst; auto.
  - intros H. exists c. split; auto. apply String.eqb_refl.
Qed.

Lemma existing_In features cols c :
  In c (existing features cols) <-> In c features /\ In c cols.
Proof.
  unfold existing. rewrite filter_In, existsb_eqb_In. reflexivity.
Qed.

(** ** The statistics *)

Lemma floats_of_numeric t c s xs :
  get_col c t = Some s -> as_floats s = Ok xs ->
  floats_of t c = xs /\ s = map CNum xs.
Proof.
  intros Hs Hx. unfold floats_of. rewrite Hs, Hx. split; auto.
  apply as_floats_map; auto.
Qed.

Lemma transform_nums agg keys xs :
  transform agg keys xs = map CNum (transform_floats agg keys xs).
Proof.
  unfold transform, transform_floats. rewrite map_map. apply map_ext.
  intros k. destruct (isna k); reflexivity.
Qed.

Lemma repeat_map A B (f : A -> B) x n : repeat (f x) n = map f (repeat x n).
Proof. induction n; simpl; congruence. Qed.

Lemma mapR_numeric_columns (G : Series -> list float -> Series) t cols fr :
  mapR (fun c => match get_col c t with
                 | None => Raise (KeyError c)
                 | Some s => let* xs := as_floats s in Ok (c, G s xs)
                 end) cols = Ok fr ->
  fr = frame_of cols (fun c => G (map CNum (floats_of t c)) (floats_of t c)) /\
  forall c, In c cols ->
    exists s, get_col c t = Some s /\ s = map CNum (floats_of t c).
Proof.
  revert fr. induction cols as [|c cols IH]; simpl; intros fr H.
  - inversion H. split; auto. intros c [].
  - destruct (get_col c t) as [s|] eqn:Hs; simpl in H; try discriminate.
    destruct (as_floats s) as [xs|e] eqn:Hx; simpl in H; try discriminate.
    destruct (mapR _ cols) as [fr'|e] eqn:Hr; simpl in H; try discriminate.
    inversion H; subst; clear H.
    destruct (IH _ eq_refl) as [E A].
    destruct (@floats_of_numeric _ _ _ _ Hs Hx) as [Ef Es].
    split.
    + unfold frame_of in *. simpl. rewrite Ef, <- Es, <- E. reflexivity.
    + intros c' [<-|Hc'].
      * exists s. rewrite Ef. auto.
      * apply A; auto.
Qed.

Lemma groupby_transform_stat_of t keys :
  get_col "race_id" t = Some keys ->
  stat_of (groupby_transform "race_id") (fun agg => transform_floats agg keys) t.
Proof.
  intros Hk cols agg fr H. unfold groupby_transform in H. rewrite Hk in H.
  destruct (no_group keys); [ discriminate | ].
  apply (mapR_numeric_columns (fun _ xs => transform agg keys xs)) in H.
  destruct H as [E A]. split; auto.
  rewrite E. unfold frame_of. apply map_ext. intros c.
  rewrite transform_nums. reflexivity.
Qed.

Lemma column_stat_stat_of t :
  stat_of column_stat (fun agg xs => repeat (agg xs) (length xs)) t.
Proof.
  intros cols agg fr H. unfold column_stat in H.
  apply (mapR_numeric_columns
           (fun s xs => repeat (CNum (agg xs)) (length s))) in H.
  destruct H as [E A]. split; auto.
  rewrite E. unfold frame_of. apply map_ext. intros c.
  rewrite length_map, repeat_map. reflexivity.
Qed.

(** ** The table after normalization *)

Lemma zscore_with_spec stat colstat features t t' :
  stat_of stat colstat t ->
  FeatureTables.zscore_with stat features t = Ok t' ->
  columns t' = columns t /\
  (forall c, ~ In c (existing features (columns t)) ->
     get_col c t' = get_col c t) /\
  (forall c, In c (existing features (columns t)) ->
     get_col c t = Some (map CNum (floats_of t c)) /\
     get_col c t'
     = Some (fillna (CNum (Fin 50))
               (map CNum (deviation_scores (floats_of t c)
                            (colstat nanmean (floats_of t c))
                            (colstat nanstd (floats_of t c)))))).
Proof.
  intros Hstat. unfold FeatureTables.zscore_with.
  destruct (existing features (columns t)) as [|f fs] eqn:E.
  - intros H. inversion H; subst.
    split; [ reflexivity | split; [ reflexivity | intros c [] ] ].
  - remember (f :: fs) as ex eqn:Eex. clear Eex.
    destruct (stat ex nanmean t) as [means|e] eqn:Hm; cbn [rbind];
      [ | discriminate ].
    destruct (stat ex nanstd t) as [stds|e] eqn:Hs; cbn [rbind];
      [ | discriminate ].
    destruct (Hstat _ _ _ Hm) as [Em A]. destruct (Hstat _ _ _ Hs) as [Es _].
    assert (Hget : forall c, In c ex ->
              get_col c t = Some (map CNum (floats_of t c))).
    { intros c Hc. destruct (A c Hc) as (s & G & Eq). rewrite G, <- Eq. auto. }
    rewrite (select_columns_frame_of ex (fun c => map CNum (floats_of t c)) t Hget).
    cbn [rbind]. subst means stds.
    rewrite (deviation_score_frame_of ex (floats_of t)
               (fun c => colstat nanmean (floats_of t c))
               (fun c => colstat nanstd (floats_of t c))).
    cbn [rbind].
    set (S := fun c => map CNum (deviation_scores (floats_of t c)
                                   (colstat nanmean (floats_of t c))
                                   (colstat nanstd (floats_of t c)))).
    set (t2 := set_cols (frame_of ex S) t).
    assert (Hhas : forall c, In c ex -> has_col c t = true).
    { intros c Hc. apply has_col_get_col_iff. eauto. }
    assert (Hget2 : forall c, In c ex -> get_col c t2 = Some (S c)).
    { intros c Hc. unfold t2. rewrite get_col_set_cols.
      apply existsb_eqb_In in Hc. rewrite Hc. reflexivity. }
    rewrite (select_columns_frame_of ex S t2 Hget2). cbn [rbind].
    rewrite frame_fillna_frame_of.
    intros H. injection H as <-.
    split; [ | split ].
    + rewrite columns_set_cols.
      * unfold t2. apply columns_set_cols; auto.
      * intros c Hc. apply has_col_In. unfold t2. rewrite columns_set_cols; auto.
        apply has_col_In; auto.
    + intros c Hc. rewrite get_col_set_cols.
      destruct (existsb (String.eqb c) ex) eqn:X.
      * apply existsb_eqb_In in X. tauto.
      * unfold t2. rewrite get_col_set_cols, X. reflexivity.
    + intros c Hc. split; auto.
      rewrite get_col_set_cols. apply existsb_eqb_In in Hc. rewrite Hc.
      reflexivity.
Qed.

Lemma has_col_race_id t :
  has_col "race_id" t = false -> get_col "race_id" t = None.
Proof.
  intros H. destruct (get_col "race_id" t) eqn:G; auto.
  apply has_col_get_col in G. congruence.
Qed.

(** The table of [_standardize_numerical_features]. *)
Lemma standardize_spec t t' :
  run_table _standardize_numerical_features t = Ok t' ->
  columns t' = columns t /\
  (forall c, ~ In c catalogue -> get_col c t' = get_col c t) /\
  (forall c s, In c catalogue -> get_col c t = Some s ->
     s = map CNum (floats_of t c) /\
     get_col c t' = Some (normalized_column t (floats_of t c))).
Proof.
  rewrite (run_table_transforms _ standardize_numerical_features_table).
  unfold FeatureTables.standardize_numerical_features,
    FeatureTables.calculate_zscore_by_race, FeatureTables.calculate_global_zscore.
  intros H.
  assert (Hspec :
    exists colstat,
      (forall agg xs, row_stats t agg xs = colstat agg xs) /\
      columns t' = columns t /\
      (forall c, ~ In c (existing catalogue (columns t)) ->
         get_col c t' = get_col c t) /\
      (forall c, In c (existing catalogue (columns t)) ->
         get_col c t = Some (map CNum (floats_of t c)) /\
         get_col c t'
         = Some (fillna (CNum (Fin 50))
                   (map CNum (deviation_scores (floats_of t c)
                                (colstat nanmean (floats_of t c))
                                (colstat nanstd (floats_of t c))))))).
  { destruct (has_col "race_id" t) eqn:Hr.
    - apply has_col_get_col_iff in Hr. destruct Hr as [keys Hk].
      exists (fun agg => transform_floats agg keys). split.
      + intros. unfold row_stats. rewrite Hk. reflexivity.
      + apply (@zscore_with_spec (groupby_transform "race_id")
                 (fun agg => transform_floats agg keys) catalogue t t');
          [ apply groupby_transform_stat_of; auto | exact H ].
    - exists (fun agg xs => repeat (agg xs) (length xs)). split.
      + intros. unfold row_stats. rewrite (@has_col_race_id _ Hr). reflexivity.
      + apply (@zscore_with_spec column_stat
                 (fun agg xs => repeat (agg xs) (length xs)) catalogue t t');
          [ apply column_stat_stat_of | exact H ]. }
  destruct Hspec as (colstat & Hrow & Hc & Hout & Hin).
  split; [ exact Hc | split ].
  - intros c Hn. apply Hout. rewrite existing_In. tauto.
  - intros c s Hcat Hs.
    assert (Hex : In c (existing catalogue (columns t))).
    { rewrite existing_In. split; auto. apply has_col_In.
      eapply has_col_get_col; eauto. }
    destruct (Hin c Hex) as [G G']. split.
    + congruence.
    + rewrite G'. unfold normalized_column. rewrite !Hrow. reflexivity.
Qed.

Local Open Scope R_scope.

(** ** Sums *)

Lemma fold_left_Rplus rs a : fold_left Rplus rs a = a + Rsum rs.
Proof.
  revert a. induction rs as [|r rs IH]; intros a; simpl.
  - lra.
  - rewrite IH. unfold Rsum. lra.
Qed.

Lemma fold_fadd_fin rs a :
  fold_left fadd (map Fin rs) (Fin a) = Fin (a + Rsum rs).
Proof.
  revert a. induction rs as [|r rs IH]; intros a; simpl.
  - f_equal. lra.
  - rewrite IH. f_equal. unfold Rsum. lra.
Qed.

Lemma fsum_fin rs : fsum (map Fin rs) = Fin (Rsum rs).
Proof. unfold fsum. rewrite fold_fadd_fin. f_equal. lra. Qed.

Lemma fold_fadd_nan xs : fold_left fadd xs NaN = NaN.
Proof. induction xs as [|x xs IH]; simpl; auto. Qed.

Lemma fold_fadd_in_nan xs a : In NaN xs -> fold_left fadd xs a = NaN.
Proof.
  revert a. induction xs as [|x xs IH]; intros a; simpl; [ tauto | ].
  intros [->|H].
  - replace (fadd a NaN) with NaN by (destruct a; reflexivity).
    apply fold_fadd_nan.
  - apply IH; auto.
Qed.

Lemma fold_fadd_stuck i xs a :
  i = PInf \/ i = NInf -> stuck_at i a -> stuck_at i (fold_left fadd xs a).
Proof.
  intros Hi. revert a. induction xs as [|x xs IH]; intros a Ha; simpl; auto.
  apply IH. unfold stuck_at in *.
  destruct Hi as [->| ->], Ha as [->| ->], x; simpl; auto.
Qed.

Lemma fold_fadd_in_inf i xs a :
  i = PInf \/ i = NInf -> In i xs -> stuck_at i (fold_left fadd xs a).
Proof.
  intros Hi. revert a. induction xs as [|x xs IH]; intros a; simpl; [ tauto | ].
  intros [->|H].
  - apply fold_fadd_stuck; auto. unfold stuck_at.
    destruct Hi as [->| ->], a; simpl; auto.
  - apply IH; auto.
Qed.

(** A list without NaN holds finite numbers only, or an infinity. *)
Lemma finite_or_infinite ys :
  Forall (fun x => is_nan x = false) ys ->
  (exists rs, ys = map Fin rs) \/ In PInf ys \/ In NInf ys.
Proof.
  induction 1 as [|y ys Hy _ IH].
  - left. exists []. reflexivity.
  - destruct y as [r| | |]; try discriminate.
    + destruct IH as [[rs ->]|[H|H]].
      * left. exists (r :: rs). reflexivity.
      * right. left. right. exact H.
      * right. right. right. exact H.
    + right. left. left. reflexivity.
    + right. right. left. reflexivity.
Qed.

(** ** Mean and standard deviation of a group *)

Lemma INR_pos_length A (l : list A) : l <> [] -> INR (length l) <> 0.
Proof.
  intros H. destruct l; [ congruence | ]. apply not_0_INR. simpl. lia.
Qed.

Lemma fdiv_fin a b : b <> 0 -> fdiv (Fin a) (Fin b) = Fin (a / b).
Proof.
  intros H. unfold fdiv. destruct (Req_dec_T b 0); [ contradiction | reflexivity ].
Qed.

Lemma nanmean_fin xs rs :
  filter notnan xs = map Fin rs -> rs <> [] ->
  nanmean xs = Fin (sample_mean rs).
Proof.
  intros E N. unfold nanmean. rewrite E.
  destruct rs as [|r rs]; [ congruence | ].
  change (map Fin (r :: rs)) with (Fin r :: map Fin rs) at 1.
  cbv iota. change (Fin r :: map Fin rs) with (map Fin (r :: rs)).
  rewrite fsum_fin, length_map, fdiv_fin; [ reflexivity | ].
  apply INR_pos_length. discriminate.
Qed.

Lemma squares_fin rs m :
  map (fun y => fmul (fsub y (Fin m)) (fsub y (Fin m))) (map Fin rs)
  = map Fin (map (fun r => (r - m) * (r - m)) rs).
Proof.
  rewrite !map_map. apply map_ext. intros r. reflexivity.
Qed.

Lemma Rsum_squares_nonneg rs m :
  0 <= Rsum (map (fun r => (r - m) * (r - m)) rs).
Proof.
  induction rs as [|r rs IH]; unfold Rsum in *; simpl; [ lra | ].
  pose proof (Rle_0_sqr (r - m)) as Q. unfold Rsqr in Q. lra.
Qed.

Lemma sample_variance_nonneg rs : (2 <= length rs)%nat -> 0 <= sample_variance rs.
Proof.
  intros H. unfold sample_variance.
  apply Rmult_le_pos; [ apply Rsum_squares_nonneg | ].
  apply Rlt_le, Rinv_0_lt_compat. apply lt_0_INR. lia.
Qed.

Lemma nanvar_fin xs rs :
  filter notnan xs = map Fin rs -> (2 <= length rs)%nat ->
  nanvar xs = Fin (sample_variance rs).
Proof.
  intros E N. unfold nanvar. rewrite E, length_map.
  destruct (Nat.leb_spec (length rs) 1); [ lia | ].
  cbv zeta. rewrite fsum_fin, fdiv_fin.
  - fold (sample_mean rs). rewrite squares_fin, fsum_fin, fdiv_fin.
    + reflexivity.
    + apply not_0_INR. lia.
  - apply not_0_INR. lia.
Qed.

Lemma nanstd_fin xs rs :
  filter notnan xs = map Fin rs -> (2 <= length rs)%nat ->
  nanstd xs = Fin (sample_std rs).
Proof.
  intros E N. unfold nanstd. rewrite (@nanvar_fin _ _ E N). unfold fsqrt.
  destruct (Rlt_dec (sample_variance rs) 0) as [L|_]; [ | reflexivity ].
  pose proof (sample_variance_nonneg rs N). lra.
Qed.

Lemma nanstd_few xs :
  (length (filter notnan xs) <= 1)%nat -> nanstd xs = NaN.
Proof.
  intros H. unfold nanstd, nanvar.
  destruct (Nat.leb_spec (length (filter notnan xs)) 1); [ reflexivity | lia ].
Qed.

(** A group that holds an infinity has no standard deviation. *)
Lemma nanstd_infinite xs i :
  i = PInf \/ i = NInf -> In i xs -> nanstd xs = NaN.
Proof.
  intros Hi Hin. unfold nanstd, nanvar.
  set (ys := filter notnan xs).
  assert (Hy : In i ys).
  { apply filter_In. split; auto. destruct Hi as [->| ->]; reflexivity. }
  destruct (length ys <=? 1)%nat; [ reflexivity | ]. cbv zeta.
  set (m := fdiv (fsum ys) (Fin (INR (length ys)))).
  assert (Hm : stuck_at i m).
  { unfold m. destruct (@fold_fadd_in_inf i ys (Fin 0) Hi Hy) as [E|E];
      unfold fsum; rewrite E.
    - left. destruct Hi as [->| ->]; simpl;
        destruct (Rlt_dec (INR (length ys)) 0) as [L|_]; auto;
        pose proof (pos_INR (length ys)); lra.
    - right. reflexivity. }
  assert (Hn : In NaN (map (fun y => fmul (fsub y m) (fsub y m)) ys)).
  { apply in_map_iff. exists i. split; auto.
    destruct Hi as [->| ->], Hm as [->| ->]; reflexivity. }
  unfold fsum. rewrite (@fold_fadd_in_nan _ (Fin 0) Hn). reflexivity.
Qed.

(** ** The score of a value of a group *)

Lemma zscore_nan_std x m : zscore x m NaN = NaN.
Proof. unfold zscore. destruct (fsub x m); reflexivity. Qed.

Lemma Rsum_squares_zero rs m r :
  Rsum (map (fun r => (r - m) * (r - m)) rs) = 0 -> In r rs -> r = m.
Proof.
  induction rs as [|a rs IH]; simpl; [ tauto | ].
  intros H Hin. pose proof (Rsum_squares_nonneg rs m) as P.
  unfold Rsum in *. simpl in H.
  pose proof (Rle_0_sqr (a - m)) as Ha. unfold Rsqr in Ha.
  destruct Hin as [->|Hin].
  - assert (E : (r - m) * (r - m) = 0) by lra.
    apply Rmult_integral in E. lra.
  - apply IH; auto. lra.
Qed.

Lemma sample_variance_zero rs r :
  (2 <= length rs)%nat -> sample_variance rs = 0 -> In r rs ->
  r = sample_mean rs.
Proof.
  intros N H Hin. apply Rsum_squares_zero with (rs := rs); auto.
  unfold sample_variance in H.
  assert (P : INR (length rs - 1) <> 0) by (apply not_0_INR; lia).
  unfold Rdiv in H. apply Rmult_integral in H. destruct H as [H|H]; auto.
  exfalso. apply (Rinv_neq_0_compat _ P). exact H.
Qed.

(** The score of a value of a group, with the mean and the standard
    deviation of the group, is a finite number or NaN. *)
Lemma zscore_in_group g x :
  In x g ->
  zscore x (nanmean g) (nanstd g) = NaN \/
  exists r, zscore x (nanmean g) (nanstd g) = Fin r.
Proof.
  intros Hin.
  destruct (@finite_or_infinite _ (filter_notnan_Forall g)) as [[rs E]|[H|H]].
  - destruct (Nat.leb_spec (length rs) 1) as [L|L].
    + left. rewrite nanstd_few; [ apply zscore_nan_std | ].
      rewrite E, length_map. exact L.
    + assert (N : (2 <= length rs)%nat) by lia.
      assert (Nn : rs <> []) by (destruct rs; simpl in *; [ lia | discriminate ]).
      rewrite (@nanmean_fin _ _ E Nn), (@nanstd_fin _ _ E N).
      destruct x as [r| | |].
      * assert (Hr : In r rs).
        { assert (Hf : In (Fin r) (filter notnan g))
            by (apply filter_In; split; auto).
          rewrite E in Hf. apply in_map_iff in Hf.
          destruct Hf as (r' & Er & Hr'). inversion Er; subst; auto. }
        unfold zscore. cbn [fsub fneg fadd].
        unfold fdiv. destruct (Req_dec_T (sample_std rs) 0) as [Z|NZ].
        -- left. unfold sample_std in Z.
           apply sqrt_eq_0 in Z; [ | apply sample_variance_nonneg; auto ].
           rewrite (@sample_variance_zero rs r N Z Hr).
           replace (sample_mean rs + - sample_mean rs) with 0 by lra.
           unfold over_zero.
           destruct (total_order_T 0 0) as [[L0|E0]|L0]; try lra. reflexivity.
        -- right. eexists. reflexivity.
      * exfalso. assert (Hf : In PInf (filter notnan g))
          by (apply filter_In; split; auto).
        rewrite E in Hf. apply in_map_iff in Hf.
        destruct Hf as (r' & Er & _). discriminate.
      * exfalso. assert (Hf : In NInf (filter notnan g))
          by (apply filter_In; split; auto).
        rewrite E in Hf. apply in_map_iff in Hf.
        destruct Hf as (r' & Er & _). discriminate.
      * left. reflexivity.
  - left. apply filter_In in H.
    rewrite (@nanstd_infinite g PInf); [ apply zscore_nan_std | auto | tauto ].
  - left. apply filter_In in H.
    rewrite (@nanstd_infinite g NInf); [ apply zscore_nan_std | auto | tauto ].
Qed.

Local Close Scope R_scope.

(** ** The rows of a normalized column *)

Lemma deviation_scores_combine xs ms ss :
  deviation_scores xs ms ss
  = map (fun p => zscore (fst p) (fst (snd p)) (snd (snd p)))
        (combine xs (combine ms ss)).
Proof.
  unfold deviation_scores, zscore. revert ms ss.
  induction xs as [|x xs IH]; intros [|m ms] [|s ss]; simpl; auto.
  f_equal. apply IH.
Qed.

Lemma combine_map_keys A B C D (f1 : C -> A) (f2 : C -> B) (xs : list D) keys :
  combine xs (combine (map f1 keys) (map f2 keys))
  = map (fun xk => (fst xk, (f1 (snd xk), f2 (snd xk)))) (combine xs keys).
Proof.
  revert xs. induction keys as [|k keys IH]; intros [|x xs]; simpl; auto.
  f_equal. apply IH.
Qed.

Lemma same_key_refl k : isna k = false -> same_key k k = true.
Proof.
  destruct k as [[r| | |]|s]; cbn [same_key isna]; try discriminate; auto.
  - intros _. apply feqb_refl.
  - intros _. apply pystr_eqb_eq. reflexivity.
Qed.

Lemma same_key_eq a b : same_key a b = true -> a = b.
Proof.
  destruct a as [[x| | |]|s], b as [[y| | |]|u]; cbn [same_key];
    try discriminate; auto.
  - intros H. apply feqb_eq in H. destruct H as [H _]. congruence.
  - intros H. apply pystr_eqb_eq in H. congruence.
Qed.

Lemma in_group A (x : A) k xs keys :
  In (x, k) (combine xs keys) -> same_key k k = true ->
  In x (group_values keys xs k).
Proof.
  intros Hin Hk. unfold group_values. revert xs Hin.
  induction keys as [|k0 keys IH]; intros [|x0 xs] Hin; simpl in *; try tauto.
  destruct Hin as [E|Hin].
  - inversion E; subst. rewrite Hk. left. reflexivity.
  - specialize (IH xs Hin). destruct (same_key k k0); simpl; auto.
Qed.

Lemma combine_repeat A B (a : A) (b : B) n :
  combine (repeat a n) (repeat b n) = repeat (a, b) n.
Proof. induction n; simpl; congruence. Qed.

(** At every row, the statistics are those of a group the value of the
    row belongs to, or there is no standard deviation. *)
Lemma row_stats_of_group t xs p :
  In p (combine xs (combine (row_stats t nanmean xs) (row_stats t nanstd xs))) ->
  snd (snd p) = NaN \/
  exists g, In (fst p) g /\ fst (snd p) = nanmean g /\ snd (snd p) = nanstd g.
Proof.
  unfold row_stats. destruct (get_col "race_id" t) as [keys|].
  - unfold transform_floats. rewrite combine_map_keys. intros H.
    apply in_map_iff in H. destruct H as ([x k] & <- & H). simpl.
    destruct (isna k) eqn:N; [ left; reflexivity | right ].
    exists (group_values keys xs k). split; auto.
    apply in_group; auto. apply same_key_refl; auto.
  - rewrite combine_repeat. intros H. destruct p as [x q].
    pose proof (in_combine_l _ _ _ _ H) as Hx.
    apply in_combine_r in H. apply repeat_spec in H. subst q. simpl.
    right. exists xs. auto.
Qed.

(** No NaN and no infinity is left in a normalized column. *)
Lemma normalized_column_finite t xs :
  Forall finite_cell (normalized_column t xs).
Proof.
  unfold normalized_column, fillna. rewrite deviation_scores_combine, !map_map.
  apply Forall_forall. intros c Hc. apply in_map_iff in Hc.
  destruct Hc as (p & <- & Hp).
  assert (Hz : zscore (fst p) (fst (snd p)) (snd (snd p)) = NaN \/
               exists r, zscore (fst p) (fst (snd p)) (snd (snd p)) = Fin r).
  { destruct (@row_stats_of_group _ _ _ Hp) as [E|(g & Hin & Em & Es)].
    - left. rewrite E. apply zscore_nan_std.
    - rewrite Em, Es. apply zscore_in_group; auto. }
  destruct Hz as [E|[r E]]; rewrite E; simpl.
  - exists 50%R. reflexivity.
  - exists r. reflexivity.
Qed.

Lemma length_map2 A B C (f : A -> B -> C) xs ys :
  length (map2 f xs ys) = Nat.min (length xs) (length ys).
Proof.
  revert ys. induction xs as [|x xs IH]; intros [|y ys]; simpl; auto.
Qed.

Lemma length_row_stats t agg xs :
  (forall keys, get_col "race_id" t = Some keys -> length keys = length xs) ->
  length (row_stats t agg xs) = length xs.
Proof.
  intros H. unfold row_stats. destruct (get_col "race_id" t) as [keys|].
  - unfold transform_floats. rewrite length_map. auto.
  - apply repeat_length.
Qed.

Lemma length_normalized_column t xs :
  (forall keys, get_col "race_id" t = Some keys -> length keys = length xs) ->
  length (normalized_column t xs) = length xs.
Proof.
  intros H. unfold normalized_column, fillna, deviation_scores.
  rewrite !length_map, !length_map2, !length_row_stats; auto. lia.
Qed.

Lemma get_col_In c t s : get_col c t = Some s -> In (c, s) t.
Proof.
  induction t as [|[d u] t IH]; simpl; try discriminate.
  destruct (String.eqb_spec d c) as [->|N].
  - intros H. inversion H. auto.
  - auto.
Qed.

Lemma rectangular_length t c s :
  rectangular t -> get_col c t = Some s -> length s = nrows t.
Proof.
  intros R H. apply get_col_In in H. unfold rectangular in R.
  rewrite Forall_forall in R. apply (R _ H).
Qed.

Lemma run_create_features (P : Pandas) t :
  run_table create_features t
  = let* t1 := FeatureTables.derive t in
    run_table _standardize_numerical_features t1.
Proof.
  rewrite (run_table_transforms _ create_features_table).
  unfold FeatureTables.create_features.
  destruct (FeatureTables.derive t) as [t1|e]; cbn [rbind]; auto.
  rewrite (run_table_transforms _ standardize_numerical_features_table).
  reflexivity.
Qed.

Local Open Scope R_scope.

(** ** Mean and standard deviation of rescaled values *)




Lemma sample_std_nonzero rs :
  (2 <= length rs)%nat -> sample_variance rs <> 0 -> sample_std rs <> 0.
Proof.
  intros N V Z. apply V. unfold sample_std in Z.
  apply sqrt_eq_0; auto. apply sample_variance_nonneg; auto.
Qed.


(** ** The rows of a race *)

Lemma select_combine A B (f : B -> bool) (xs : list A) keys :
  select (map f keys) (combine xs keys)
  = combine (select (map f keys) xs) (select (map f keys) keys).
Proof.
  revert xs. induction keys as [|k keys IH]; intros [|x xs]; simpl; auto;
    destruct (f k); simpl; rewrite ?IH; reflexivity.
Qed.

Lemma select_same_key k keys :
  Forall (fun k0 => k0 = k) (select (map (same_key k) keys) keys).
Proof.
  induction keys as [|k0 keys IH]; simpl; auto.
  destruct (same_key k k0) eqn:E; auto.
  constructor; auto. symmetry. apply same_key_eq; auto.
Qed.

Lemma length_select_le A B (f : B -> bool) (xs : list A) keys :
  (length (select (map f keys) xs) <= length (select (map f keys) keys))%nat.
Proof.
  revert xs. induction keys as [|k keys IH]; intros [|x xs]; simpl; auto;
    destruct (f k); simpl; try specialize (IH xs); lia.
Qed.

Lemma combine_constant A B (xs : list A) (ks : list B) k :
  Forall (fun k0 => k0 = k) ks -> (length xs <= length ks)%nat ->
  combine xs ks = map (fun x => (x, k)) xs.
Proof.
  intros H. revert xs. induction H as [|k0 ks E _ IH]; intros [|x xs] L;
    simpl in *; auto; try lia.
  subst. f_equal. apply IH. lia.
Qed.


Lemma filter_notnan_fin rs : filter notnan (map Fin rs) = map Fin rs.
Proof. induction rs; simpl; congruence. Qed.

(** The rows of the race [k] in a normalized column. *)
Lemma normalized_group t keys xs k :
  get_col "race_id" t = Some keys -> isna k = false ->
  group_values keys (normalized_column t xs) k
  = map (fun x => fillna_cell (CNum (Fin 50))
                    (CNum (zscore x (nanmean (group_values keys xs k))
                             (nanstd (group_values keys xs k)))))
      (group_values keys xs k).
Proof.
  intros Hk Nk. unfold normalized_column, row_stats. rewrite Hk.
  unfold transform_floats, fillna.
  rewrite deviation_scores_combine, combine_map_keys, !map_map.
  unfold group_values in *. rewrite select_map, select_combine.
  rewrite (@combine_constant _ _ _ _ k (select_same_key k keys)
             (length_select_le _ _ _)).
  rewrite !map_map. apply map_ext. intros r. cbn [fst snd].
  rewrite Nk. reflexivity.
Qed.


Local Close Scope R_scope.

(** ** Rows without a score *)

(** A group without a standard deviation, or with a standard deviation of
    zero, gives no score to its values. *)
Lemma zscore_undefined g x :
  In x g -> nanstd g = NaN \/ nanstd g = Fin 0%R ->
  zscore x (nanmean g) (nanstd g) = NaN.
Proof.
  intros Hin [E|E]; [ rewrite E; apply zscore_nan_std | ].
  destruct (@zscore_in_group g x Hin) as [Z|[r Z]]; [ exact Z | exfalso ].
  revert Z. rewrite E. unfold zscore.
  destruct (fsub x (nanmean g)) as [d| | |];
    unfold fdiv, fmul, fadd, over_zero;
    repeat match goal with
      | |- context [Req_dec_T ?a ?b] => destruct (Req_dec_T a b)
      | |- context [Rlt_dec ?a ?b] => destruct (Rlt_dec a b)
      | |- context [total_order_T ?a ?b] =>
          destruct (total_order_T a b) as [[?|?]|?]
      end;
    try discriminate; try contradiction.
Qed.

Lemma nth_error_combine A B (xs : list A) (ys : list B) i x y :
  nth_error xs i = Some x -> nth_error ys i = Some y ->
  nth_error (combine xs ys) i = Some (x, y).
Proof.
  revert xs ys. induction i as [|i IH]; intros [|a xs] [|b ys]; simpl;
    try discriminate; auto.
  intros [= ->] [= ->]. reflexivity.
Qed.

Lemma length_row_stats_same t f g xs :
  length (row_stats t f xs) = length (row_stats t g xs).
Proof.
  unfold row_stats. destruct (get_col "race_id" t).
  - unfold transform_floats. rewrite !length_map. reflexivity.
  - rewrite !repeat_length. reflexivity.
Qed.

(** The row of a group without a standard deviation, or with a standard
    deviation of zero, holds 50. *)
Lemma normalized_column_neutral t xs i x sd :
  nth_error xs i = Some x ->
  nth_error (row_stats t nanstd xs) i = Some sd ->
  sd = NaN \/ sd = Fin 0%R ->
  nth_error (normalized_column t xs) i = Some (num 50).
Proof.
  intros Hx Hsd Hu.
  destruct (nth_error (row_stats t nanmean xs) i) as [m|] eqn:Hm.
  2:{ apply nth_error_None in Hm.
      rewrite (length_row_stats_same t nanmean nanstd) in Hm.
      apply nth_error_None in Hm. congruence. }
  pose proof (nth_error_combine _ _ _ Hx (nth_error_combine _ _ _ Hm Hsd)) as Hp.
  unfold normalized_column, fillna.
  rewrite deviation_scores_combine, !map_map, nth_error_map, Hp.
  cbn [option_map fst snd]. f_equal.
  assert (Z : zscore x m sd = NaN).
  { destruct (@row_stats_of_group _ _ _ (nth_error_In _ _ Hp))
      as [E|(g & Hin & Em & Es)]; cbn [fst snd] in *.
    - rewrite E. apply zscore_nan_std.
    - rewrite Em, Es. apply zscore_undefined; auto. rewrite <- Es. exact Hu. }
  rewrite Z. reflexivity.
Qed.

(** ** Normalization of the tables of one race *)

Lemma standardize_two_horses :
  exists t', run_table _standardize_numerical_features two_horses = Ok t'.
Proof.
  rewrite (run_table_transforms _ standardize_numerical_features_table).
  eexists. reflexivity.
Qed.


Lemma age_in_catalogue : In "age"%string catalogue.
Proof. left. reflexivity. Qed.




Local Open Scope R_scope.

(** ** A race with a missing value *)










Local Close Scope R_scope.

(** ** Cleaning a cleaned table *)

(** *** Columns through the operations *)

Lemma incl_select A m (s : list A) : incl (select m s) s.
Proof.
  revert s. induction m as [|b m IH]; intros [|x s]; simpl;
    try apply incl_nil_l.
  destruct b.
  - apply incl_cons; [ left; reflexivity | apply incl_tl, IH ].
  - apply incl_tl, IH.
Qed.

Lemma Forall_incl A (Q : A -> Prop) s s' : incl s' s -> Forall Q s -> Forall Q s'.
Proof.
  intros I H. apply Forall_forall. intros x Hx.
  rewrite Forall_forall in H. auto.
Qed.

Lemma Forall_select A (Q : A -> Prop) m s : Forall Q s -> Forall Q (select m s).
Proof. apply Forall_incl, incl_select. Qed.

Lemma flows_col_all f t t' (Q Q' : cell -> Prop) c :
  flows f t t' -> (forall x, Q x -> Q' (f c x)) ->
  col_all Q c t -> col_all Q' c t'.
Proof.
  intros F HQ H s' Hs'. destruct (F c s' Hs') as (s & Hs & I).
  apply (Forall_incl I). apply Forall_map.
  eapply Forall_impl; [ | apply (H s Hs) ]. exact HQ.
Qed.

Lemma flows_refl t : flows (fun _ x => x) t t.
Proof.
  intros c s H. exists s. split; auto. rewrite map_id. apply incl_refl.
Qed.

Lemma flows_trans f g t1 t2 t3 :
  flows f t1 t2 -> flows g t2 t3 -> flows (fun c x => g c (f c x)) t1 t3.
Proof.
  intros F G c s3 H3. destruct (G c s3 H3) as (s2 & H2 & I2).
  destruct (F c s2 H2) as (s1 & H1 & I1). exists s1. split; auto.
  rewrite <- (map_map (f c) (g c)).
  eapply incl_tran; [ exact I2 | apply incl_map, I1 ].
Qed.

Lemma flows_filter_rows m t : flows (fun _ x => x) t (filter_rows m t).
Proof.
  intros c s' H. rewrite get_col_filter_rows in H.
  destruct (get_col c t) as [s|]; [ | discriminate ].
  injection H as <-. exists s. split; auto. rewrite map_id. apply incl_select.
Qed.

Lemma flows_columnwise f t t' :
  (forall c, get_col c t' = option_map (map (f c)) (get_col c t)) ->
  flows f t t'.
Proof.
  intros E c s' H. rewrite E in H.
  destruct (get_col c t) as [s|]; [ | discriminate ].
  injection H as <-. exists s. split; auto. apply incl_refl.
Qed.

Lemma entries_all_filter_rows Q m t :
  entries_all Q t -> entries_all Q (filter_rows m t).
Proof.
  intros H c s Hin. unfold filter_rows in Hin. apply in_map_iff in Hin.
  destruct Hin as ([c0 s0] & E & Hin). injection E as <- <-.
  apply Forall_select. apply (H c0 s0 Hin).
Qed.

Lemma set_col_same c s t : get_col c t = Some s -> set_col c s t = t.
Proof.
  induction t as [|[c' s'] t IH]; simpl; [ discriminate | ].
  destruct (String.eqb_spec c' c) as [->|N].
  - intros [= ->]. reflexivity.
  - intros H. rewrite IH; auto.
Qed.

Lemma map_same A (f : A -> A) s : Forall (fun x => f x = x) s -> map f s = s.
Proof. induction 1; simpl; congruence. Qed.

(** A mask that keeps every row leaves the table as it is. *)
Lemma filter_rows_all t n :
  rectangular t -> nrows t <= n -> filter_rows (repeat true n) t = t.
Proof.
  intros R L. unfold filter_rows. rewrite <- (map_id t) at 2.
  apply map_ext_in. intros [c s] Hin. simpl. f_equal.
  apply select_all. unfold rectangular in R. rewrite Forall_forall in R.
  specialize (R _ Hin). simpl in R. rewrite R. exact L.
Qed.

Lemma map2_and_true a n :
  length a <= n ->
  map2 andb a (repeat true n) = a.
Proof.
  revert n. induction a as [|x a IH]; intros [|n] L; simpl in *; auto; try lia.
  rewrite andb_true_r, IH; auto. lia.
Qed.

Lemma map_true A (f : A -> bool) s :
  Forall (fun x => f x = true) s -> map f s = repeat true (length s).
Proof. induction 1; simpl; congruence. Qed.

Ltac split_result H :=
  match type of H with
  | rbind ?a _ = Ok _ =>
      let E := fresh "E" in
      destruct a eqn:E; cbn [rbind] in H; [ | discriminate H ]
  end.

(** *** The stage of the data types *)

Section Stages.
Context {P : Pandas}.

Lemma convert_column_shape g c t :
  convert_column g c t
  = Ok (match get_col c t with Some s => set_col c (g s) t | None => t end).
Proof.
  unfold convert_column, col. destruct (has_col c t) eqn:H.
  - apply has_col_get_col_iff in H. destruct H as [s ->]. reflexivity.
  - destruct (get_col c t) eqn:G; auto.
    apply has_col_get_col in G. congruence.
Qed.

Lemma in_list_In c cols : in_list c cols = true <-> In c cols.
Proof.
  unfold in_list. rewrite existsb_exists. split.
  - intros (x & Hx & E). apply String.eqb_eq in E. subst. exact Hx.
  - intros H. exists c. split; auto. apply String.eqb_refl.
Qed.

Lemma option_map_map_id (o : option Series) :
  option_map (map (fun x : cell => x)) o = o.
Proof. destruct o; simpl; auto. rewrite map_id. reflexivity. Qed.

Lemma foldR_convert_column (h : cell -> cell) cols :
  NoDup cols -> forall t t',
  foldR (convert_column (map h)) cols t = Ok t' ->
  forall c, get_col c t'
            = option_map (map (if in_list c cols then h else fun x => x))
                (get_col c t).
Proof.
  induction 1 as [|x r Hx Hr IH]; intros t t' H c.
  - simpl in H. injection H as <-. cbn. symmetry. apply option_map_map_id.
  - simpl in H. rewrite convert_column_shape in H. cbn [rbind] in H.
    rewrite (IH _ _ H c). unfold in_list at 2. cbn [existsb].
    fold (in_list c r).
    destruct (String.eqb_spec c x) as [->|N]; cbn [orb].
    + assert (E : in_list x r = false).
      { destruct (in_list x r) eqn:E; auto. apply in_list_In in E. tauto. }
      rewrite E. destruct (get_col x t) as [s|] eqn:G.
      * rewrite get_col_set_col, String.eqb_refl. cbn. rewrite map_id.
        reflexivity.
      * rewrite G. reflexivity.
    + destruct (get_col x t) as [s|] eqn:G; auto.
      rewrite get_col_set_col.
      destruct (String.eqb_spec x c) as [->|_]; [ congruence | reflexivity ].
Qed.

Lemma NoDup_numeric_columns : NoDup numeric_columns.
Proof.
  unfold numeric_columns.
  repeat (constructor; [ simpl; intuition discriminate | ]). constructor.
Qed.

Lemma NoDup_string_columns : NoDup string_columns.
Proof.
  unfold string_columns.
  repeat (constructor; [ simpl; intuition discriminate | ]). constructor.
Qed.

Lemma standardize_data_types_get_col t t' :
  ValidatorTables.standardize_data_types t = Ok t' ->
  forall c, get_col c t' = option_map (map (type_cell c)) (get_col c t).
Proof.
  unfold ValidatorTables.standardize_data_types. intros H c.
  split_result H.
  change (convert_column to_numeric) with (convert_column (map to_numeric_cell)) in E.
  change (convert_column astype_str) with (convert_column (map astype_str_cell)) in H.
  rewrite (foldR_convert_column _ NoDup_string_columns _ H c).
  rewrite (foldR_convert_column _ NoDup_numeric_columns _ E c).
  destruct (get_col c t) as [s|]; cbn [option_map]; auto.
  f_equal. rewrite map_map. apply map_ext. intros x. unfold type_cell.
  destruct (in_list c numeric_columns), (in_list c string_columns); reflexivity.
Qed.

Lemma foldR_same A (f : A -> DataFrame -> result DataFrame) xs t :
  (forall x, In x xs -> f x t = Ok t) -> foldR f xs t = Ok t.
Proof.
  induction xs as [|x xs IH]; intros H; simpl; auto.
  rewrite (H x) by (left; reflexivity). cbn [rbind].
  apply IH. intros y Hy. apply H. right. exact Hy.
Qed.

Lemma convert_column_same (g : Series -> Series) (Q : cell -> Prop) c t :
  col_all Q c t -> (forall s, Forall Q s -> g s = s) ->
  convert_column g c t = Ok t.
Proof.
  intros H Hg. rewrite convert_column_shape.
  destruct (get_col c t) as [s|] eqn:G; auto.
  rewrite (Hg s (H s G)), (set_col_same _ _ G). reflexivity.
Qed.

Lemma to_numeric_number s : Forall is_number s -> to_numeric s = s.
Proof.
  intros H. apply map_same. eapply Forall_impl; [ | exact H ].
  intros x [f ->]. reflexivity.
Qed.

Lemma astype_str_text s : Forall is_text s -> astype_str s = s.
Proof.
  intros H. apply map_same. eapply Forall_impl; [ | exact H ].
  intros x [u ->]. reflexivity.
Qed.

Lemma standardize_data_types_same t :
  (forall c, In c numeric_columns -> col_all is_number c t) ->
  (forall c, In c string_columns -> col_all is_text c t) ->
  ValidatorTables.standardize_data_types t = Ok t.
Proof.
  intros Hn Hs. unfold ValidatorTables.standardize_data_types.
  rewrite foldR_same.
  - cbn [rbind]. apply foldR_same. intros c Hc.
    apply (convert_column_same _ (Hs c Hc)). apply astype_str_text.
  - intros c Hc.
    apply (convert_column_same _ (Hn c Hc)). apply to_numeric_number.
Qed.

End Stages.

(** *** The stage of the missing values *)

Lemma handled_table t :
  replace_value (CStr (py "")) missing
    (replace_columnwise position_replacements t)
  = map (fun cs => (fst cs, map (handled_cell (fst cs)) (snd cs))) t.
Proof.
  rewrite replace_columnwise_map. unfold replace_value. rewrite map_map.
  apply map_ext. intros [c s]. cbn [fst snd]. f_equal.
  unfold handled_cell. destruct (dict_get position_replacements c).
  - rewrite map_map. reflexivity.
  - reflexivity.
Qed.

Lemma Forall_select_and A (Q : A -> Prop) a m s :
  Forall Q (select m s) -> Forall Q (select (map2 andb a m) s).
Proof.
  revert m s. induction a as [|x a IH]; intros [|b m] [|y s]; simpl; auto.
  destruct x, b; simpl; intros H; auto.
  - inversion H; subst. constructor; auto.
  - inversion H; subst. auto.
Qed.

Lemma select_notna m s :
  Forall (fun x => isna x = false)
    (select (map2 andb (map (fun x => negb (isna x)) s) m) s).
Proof.
  revert m. induction s as [|x s IH]; intros [|b m]; simpl; auto.
  destruct (isna x) eqn:E; simpl; auto.
  destruct b; simpl; auto.
Qed.

Lemma notna_mask_spec cols u : forall m,
  notna_mask cols u = Ok m ->
  forall c s, In c cols -> get_col c u = Some s ->
  Forall (fun x => isna x = false) (select m s).
Proof.
  induction cols as [|x r IH]; intros m H c s Hc G; [ destruct Hc | ].
  simpl in H. destruct (get_col x u) as [sx|] eqn:Gx; [ | discriminate ].
  destruct (notna_mask r u) as [m'|] eqn:M; cbn [rbind] in H; [ | discriminate ].
  injection H as <-. destruct Hc as [->|Hc].
  - assert (sx = s) by congruence. subst. apply select_notna.
  - apply Forall_select_and. apply (IH m' eq_refl c s Hc G).
Qed.

Lemma handle_missing_values_spec t t' :
  ValidatorTables.handle_missing_values t = Ok t' ->
  flows handled_cell t t' /\
  (forall Q, entries_all Q
               (map (fun cs => (fst cs, map (handled_cell (fst cs)) (snd cs))) t) ->
             entries_all Q t') /\
  (forall c, In c essential_columns -> col_all (fun x => isna x = false) c t').
Proof.
  unfold ValidatorTables.handle_missing_values. cbv zeta.
  rewrite handled_table.
  set (u := map (fun cs => (fst cs, map (handled_cell (fst cs)) (snd cs))) t).
  assert (Fu : flows handled_cell t u).
  { apply flows_columnwise. intros c. unfold u.
    apply (get_col_map (fun c => map (handled_cell c))). }
  destruct (filter (fun c => has_col c u) essential_columns) as [|c0 cs] eqn:F.
  - intros [= <-]. split; [ exact Fu | split; [ auto | ] ].
    intros c Hc s G. exfalso.
    assert (I : In c (filter (fun c => has_col c u) essential_columns)).
    { apply filter_In. split; auto. eapply has_col_get_col; eauto. }
    rewrite F in I. destruct I.
  - intros H. split_result H. injection H as <-. split; [ | split ].
    + apply (flows_trans Fu (flows_filter_rows _ _)).
    + intros Q H. apply entries_all_filter_rows. exact H.
    + intros c Hc s' G. rewrite get_col_filter_rows in G.
      destruct (get_col c u) as [s|] eqn:Gu; [ | discriminate ].
      injection G as <-.
      apply (notna_mask_spec _ _ E c); auto.
      rewrite <- F. apply filter_In. split; auto.
      eapply has_col_get_col; eauto.
Qed.

Lemma handled_not_empty c x : not_text "" (handled_cell c x).
Proof.
  unfold handled_cell, not_text.
  set (y := match dict_get position_replacements c with
            | Some pairs => replace_cell pairs x
            | None => x
            end).
  cbn [replace_cell].
  destruct (same_key (CStr (py "")) y) eqn:E; [ reflexivity | exact E ].
Qed.

Lemma handled_not_zero c x :
  In c rank_columns -> not_text "0" (handled_cell c x).
Proof.
  intros Hc. unfold handled_cell, not_text.
  rewrite (@rank_columns_replacement _ Hc). unfold rank_replacement.
  destruct x as [[r| | |]|s]; try reflexivity.
  cbn [replace_cell].
  destruct (same_key (CStr (py "0")) (CStr s)) eqn:E; [ reflexivity | ].
  change (same_key missing (CStr s)) with false. cbv iota.
  destruct (same_key (CStr (py "")) (CStr s)) eqn:E'; [ reflexivity | exact E ].
Qed.

Lemma handled_entries t :
  entries_all (fun c x => not_text "" x /\
                          (In c rank_columns -> not_text "0" x))
    (map (fun cs => (fst cs, map (handled_cell (fst cs)) (snd cs))) t).
Proof.
  intros c s Hin. apply in_map_iff in Hin.
  destruct Hin as ([c0 s0] & E & _). injection E as <- <-. cbn [fst snd].
  apply Forall_map, Forall_forall. intros x _. split.
  - apply handled_not_empty.
  - apply handled_not_zero.
Qed.

Lemma dict_get_rank c pairs :
  dict_get position_replacements c = Some pairs ->
  In c rank_columns /\ pairs = rank_replacement.
Proof.
  intros D. assert (Hc : In c rank_columns).
  { unfold rank_columns. clear -D.
    induction position_replacements as [|[k v] d IH]; simpl in *;
      [ discriminate | ].
    destruct (String.eqb_spec k c); auto. }
  split; auto. rewrite (@rank_columns_replacement _ Hc) in D. congruence.
Qed.

Lemma handled_number c x : is_number x -> is_number (handled_cell c x).
Proof.
  intros [f ->]. unfold handled_cell.
  destruct (dict_get position_replacements c) as [pairs|] eqn:D.
  - destruct (dict_get_rank _ D) as [_ ->].
    unfold rank_replacement. destruct f; cbn; eexists; reflexivity.
  - cbn. eexists. reflexivity.
Qed.

(** *** The stage of the outliers *)

Lemma select_in_range lo hi s : forall ge le,
  series_ge s lo = Ok ge -> series_le s hi = Ok le ->
  Forall (in_range lo hi) (select (map2 andb ge le) s).
Proof.
  unfold series_ge, series_le.
  induction s as [|x s IH]; intros ge le Hg Hl; simpl in *.
  - injection Hg as <-. constructor.
  - destruct (cell_ge lo x) as [b1|] eqn:E1; cbn [rbind] in Hg; [ | discriminate ].
    destruct (mapR (cell_ge lo) s) as [ge'|]; cbn [rbind] in Hg; [ | discriminate ].
    destruct (cell_le hi x) as [b2|] eqn:E2; cbn [rbind] in Hl; [ | discriminate ].
    destruct (mapR (cell_le hi) s) as [le'|]; cbn [rbind] in Hl; [ | discriminate ].
    injection Hg as <-. injection Hl as <-. simpl.
    destruct b1, b2; simpl; auto. constructor; auto. split; auto.
Qed.

Lemma keep_between_spec c lo hi t t' :
  ValidatorTables.keep_between c lo hi t = Ok t' ->
  flows (fun _ x => x) t t' /\
  (forall Q, entries_all Q t -> entries_all Q t') /\
  col_all (in_range lo hi) c t'.
Proof.
  unfold ValidatorTables.keep_between. destruct (has_col c t) eqn:H.
  - apply has_col_get_col_iff in H. destruct H as [s G].
    unfold col. rewrite G. cbn [rbind]. intros H.
    split_result H. split_result H. injection H as <-.
    split; [ apply flows_filter_rows | split ].
    + intros Q HQ. apply entries_all_filter_rows. exact HQ.
    + intros s' G'. rewrite get_col_filter_rows, G in G'. injection G' as <-.
      eapply select_in_range; eauto.
  - intros [= <-]. split; [ apply flows_refl | split; auto ].
    intros s G. apply has_col_get_col in G. congruence.
Qed.

Lemma remove_outliers_spec t t' :
  ValidatorTables.remove_outliers t = Ok t' ->
  flows (fun _ x => x) t t' /\
  (forall Q, entries_all Q t -> entries_all Q t') /\
  col_all (in_range 300 700) "horse_weight" t' /\
  col_all (in_range 1 (9999 / 10)) "odds" t' /\
  col_all (in_range 800 4000) "distance" t'.
Proof.
  unfold ValidatorTables.remove_outliers. intros H.
  split_result H. split_result H.
  destruct (keep_between_spec _ _ _ _ E) as (F1 & N1 & R1).
  destruct (keep_between_spec _ _ _ _ E0) as (F2 & N2 & R2).
  destruct (keep_between_spec _ _ _ _ H) as (F3 & N3 & R3).
  split; [ | split; [ | split; [ | split ] ] ].
  - apply (flows_trans (flows_trans F1 F2) F3).
  - auto.
  - eapply flows_col_all; [ exact (flows_trans F2 F3) | | exact R1 ]; auto.
  - eapply flows_col_all; [ exact F3 | | exact R2 ]; auto.
  - exact R3.
Qed.

Lemma series_ge_in_range lo hi s :
  Forall (in_range lo hi) s -> series_ge s lo = Ok (repeat true (length s)).
Proof.
  intros H. unfold series_ge.
  rewrite (mapR_ok _ (fun _ => true)).
  - f_equal. apply map_true. apply Forall_forall. auto.
  - intros x Hx. rewrite Forall_forall in H. apply (H x Hx).
Qed.

Lemma series_le_in_range lo hi s :
  Forall (in_range lo hi) s -> series_le s hi = Ok (repeat true (length s)).
Proof.
  intros H. unfold series_le.
  rewrite (mapR_ok _ (fun _ => true)).
  - f_equal. apply map_true. apply Forall_forall. auto.
  - intros x Hx. rewrite Forall_forall in H. apply (H x Hx).
Qed.

Lemma keep_between_same c lo hi t :
  rectangular t -> col_all (in_range lo hi) c t ->
  ValidatorTables.keep_between c lo hi t = Ok t.
Proof.
  intros R H. unfold ValidatorTables.keep_between.
  destruct (has_col c t) eqn:Hc; auto.
  apply has_col_get_col_iff in Hc. destruct Hc as [s G].
  unfold col. rewrite G. cbn [rbind].
  rewrite (series_ge_in_range (H s G)), (series_le_in_range (H s G)).
  cbn [rbind]. rewrite map2_and_true by (rewrite repeat_length; lia).
  rewrite filter_rows_all; auto.
  rewrite (@rectangular_length _ _ _ R G). lia.
Qed.

Lemma remove_outliers_same t :
  rectangular t ->
  col_all (in_range 300 700) "horse_weight" t ->
  col_all (in_range 1 (9999 / 10)) "odds" t ->
  col_all (in_range 800 4000) "distance" t ->
  ValidatorTables.remove_outliers t = Ok t.
Proof.
  intros R H1 H2 H3. unfold ValidatorTables.remove_outliers.
  rewrite (keep_between_same R H1). cbn [rbind].
  rewrite (keep_between_same R H2). cbn [rbind].
  apply (keep_between_same R H3).
Qed.

(** *** The stage of the missing values, on a cleaned table *)

Lemma notna_mask_all cols t :
  rectangular t ->
  (forall c, In c cols -> exists s, get_col c t = Some s /\
                                    Forall (fun x => isna x = false) s) ->
  notna_mask cols t = Ok (repeat true (nrows t)).
Proof.
  intros R. induction cols as [|c r IH]; intros H; simpl; auto.
  destruct (H c (or_introl eq_refl)) as (s & G & N). rewrite G.
  rewrite IH by (intros; apply H; right; auto). cbn [rbind]. f_equal.
  rewrite (map_true (fun x => negb (isna x)) (s := s)).
  - rewrite (@rectangular_length _ _ _ R G).
    apply map2_and_true. rewrite repeat_length. lia.
  - eapply Forall_impl; [ | exact N ]. intros x E. cbv beta. rewrite E.
    reflexivity.
Qed.

Lemma handle_missing_values_same t :
  rectangular t ->
  entries_all (fun c x => not_text "" x /\
                          (In c rank_columns -> not_text "0" x)) t ->
  no_missing_in rank_columns t ->
  (forall c, In c essential_columns -> col_all (fun x => isna x = false) c t) ->
  ValidatorTables.handle_missing_values t = Ok t.
Proof.
  intros R He Hm Hess. unfold ValidatorTables.handle_missing_values. cbv zeta.
  rewrite handled_table.
  assert (U : map (fun cs => (fst cs, map (handled_cell (fst cs)) (snd cs))) t = t).
  { rewrite <- (map_id t) at 2. apply map_ext_in. intros [c s] Hin.
    cbn [fst snd]. f_equal. apply map_same.
    specialize (He c s Hin). apply Forall_forall. intros x Hx.
    rewrite Forall_forall in He. destruct (He x Hx) as [E Z].
    unfold handled_cell.
    destruct (dict_get position_replacements c) as [pairs|] eqn:D.
    - destruct (dict_get_rank _ D) as [Hc ->].
      specialize (Hm c s Hc Hin). rewrite Forall_forall in Hm.
      specialize (Hm x Hx). specialize (Z Hc). unfold not_text in *.
      unfold rank_replacement. cbn [replace_cell]. rewrite Z.
      assert (K : same_key missing x = false).
      { destruct x as [[| | |]|]; try reflexivity. discriminate. }
      rewrite K, E. reflexivity.
    - unfold not_text in E. cbn [replace_cell]. rewrite E. reflexivity. }
  rewrite U.
  destruct (filter (fun c => has_col c t) essential_columns) as [|c0 cs] eqn:F;
    auto.
  rewrite (@notna_mask_all (c0 :: cs) t R).
  - cbn [rbind]. rewrite filter_rows_all; auto.
  - intros c Hc. rewrite <- F in Hc. apply filter_In in Hc.
    destruct Hc as [Hc Hh]. apply has_col_get_col_iff in Hh.
    destruct Hh as [s G]. exists s. split; auto. apply (Hess c Hc s G).
Qed.

(** *** The stage of the positions *)

Section Positions.
Context {P : Pandas}.

Lemma astype_int_is_int s s' :
  astype_int s = Ok s' -> Forall is_int_cell s'.
Proof.
  unfold astype_int. intros H. apply mapR_Forall2 in H.
  induction H as [|x y s s' Hxy _ IH]; constructor; auto.
  destruct x as [[r| | |]|u]; simpl in Hxy; try discriminate.
  - injection Hxy as <-. eexists. reflexivity.
  - destruct (str_to_float u) as [[r| | |]|]; try discriminate.
    destruct (Req_dec_T r (IZR (Ztrunc r))) as [E|_]; [ | discriminate ].
    injection Hxy as <-. exists (Ztrunc r). congruence.
Qed.

Lemma select_valid_position s :
  Forall valid_position
    (select (map negb (isin s invalid_positions)) s).
Proof.
  induction s as [|x s IH]; [ constructor | ].
  unfold isin in *. cbn [map select].
  destruct (existsb (same_key x) invalid_positions) eqn:E; cbn [negb];
    [ exact IH | constructor; [ exact E | exact IH ] ].
Qed.

Lemma remove_invalid_positions_spec t t' :
  ValidatorTables.remove_invalid_positions t = Ok t' ->
  col_all is_int_cell "finishing_position" t' /\
  col_all valid_position "raw_finishing_position" t'.
Proof.
  unfold ValidatorTables.remove_invalid_positions. intros H.
  split_result H. rename a into tA.
  assert (A : col_all is_int_cell "finishing_position" tA).
  { destruct (has_col "finishing_position" t) eqn:Hc.
    - split_result E. split_result E. split_result E. split_result E.
      injection E as <-. intros s G.
      rewrite get_col_set_col, String.eqb_refl in G. injection G as <-.
      eapply astype_int_is_int; eauto.
    - injection E as <-. intros s G. apply has_col_get_col in G. congruence. }
  destruct (has_col "raw_finishing_position" tA) eqn:Hr.
  - split_result H. injection H as <-. split.
    + eapply flows_col_all; [ apply flows_filter_rows | | exact A ]; auto.
    + intros s' G. rewrite get_col_filter_rows in G.
      unfold col in E0. destruct (get_col "raw_finishing_position" tA) as [s|];
        [ | discriminate ].
      injection E0 as <-. injection G as <-. apply select_valid_position.
  - injection H as <-. split; auto.
    intros s G. apply has_col_get_col in G. congruence.
Qed.

Lemma Ztrunc_IZR z : Ztrunc (IZR z) = z.
Proof.
  unfold Ztrunc. destruct (Rle_dec 0 (IZR z)).
  - apply ZfloorZ.
  - rewrite ZfloorNZ. lia.
Qed.

Lemma astype_int_same s : Forall is_int_cell s -> astype_int s = Ok s.
Proof.
  intros H. unfold astype_int. rewrite (mapR_ok _ (fun x => x)).
  - rewrite map_id. reflexivity.
  - intros x Hx. rewrite Forall_forall in H. destruct (H x Hx) as [z ->].
    simpl. rewrite Ztrunc_IZR. reflexivity.
Qed.

Lemma remove_invalid_positions_same t :
  rectangular t ->
  col_all is_int_cell "finishing_position" t ->
  col_all valid_position "raw_finishing_position" t ->
  ValidatorTables.remove_invalid_positions t = Ok t.
Proof.
  intros R Hi Hv. unfold ValidatorTables.remove_invalid_positions.
  match goal with |- rbind ?a _ = _ => assert (A : a = Ok t) end.
  { destruct (has_col "finishing_position" t) eqn:Hc; auto.
    apply has_col_get_col_iff in Hc. destruct Hc as [s G].
    pose proof (Hi s G) as Hs.
    rewrite (col_get_col _ _ G). cbn [rbind]. cbv zeta.
    rewrite to_numeric_number
      by (eapply Forall_impl; [ | exact Hs ]; intros x [z ->]; eexists; reflexivity).
    rewrite (set_col_same _ _ G).
    rewrite (@notna_mask_all ["finishing_position"%string] t R).
    - cbn [rbind]. rewrite filter_rows_all; auto.
      rewrite (col_get_col _ _ G). cbn [rbind].
      rewrite (astype_int_same Hs). cbn [rbind].
      rewrite (set_col_same _ _ G). reflexivity.
    - intros c [<-|[]]. exists s. split; auto.
      eapply Forall_impl; [ | exact Hs ]. intros x [z ->]. reflexivity. }
  rewrite A. cbn [rbind].
  destruct (has_col "raw_finishing_position" t) eqn:Hc; auto.
  apply has_col_get_col_iff in Hc. destruct Hc as [s G].
  rewrite (col_get_col _ _ G). cbn [rbind]. unfold isin. rewrite map_map.
  rewrite (map_true (fun x => negb (existsb (same_key x) invalid_positions))
             (s := s)).
  - rewrite filter_rows_all; auto.
    rewrite (@rectangular_length _ _ _ R G). lia.
  - eapply Forall_impl; [ | exact (Hv s G) ]. intros x E. cbv beta.
    unfold valid_position in E. rewrite E. reflexivity.
Qed.

End Positions.

(** *** The cells of a cleaned table *)

Section Cleaned.
Context {P : Pandas}.

Lemma to_numeric_cell_number x : is_number (to_numeric_cell x).
Proof.
  destruct x as [f|u]; simpl.
  - eexists. reflexivity.
  - destruct (str_to_float u); eexists; reflexivity.
Qed.

Lemma type_cell_numeric c x :
  In c numeric_columns -> type_cell c x = to_numeric_cell x.
Proof.
  intros Hc. simpl in Hc.
  repeat (destruct Hc as [<-|Hc]; [ reflexivity | ]). destruct Hc.
Qed.

Lemma type_cell_string c x :
  In c string_columns -> type_cell c x = astype_str_cell x.
Proof.
  intros Hc. simpl in Hc.
  repeat (destruct Hc as [<-|Hc]; [ reflexivity | ]). destruct Hc.
Qed.

Lemma handled_cell_string c x :
  In c string_columns ->
  handled_cell c x = replace_cell [(CStr (py ""), missing)] x.
Proof.
  intros Hc. simpl in Hc.
  repeat (destruct Hc as [<-|Hc]; [ reflexivity | ]). destruct Hc.
Qed.

Lemma replace_empty_text x :
  is_text x -> text_or_missing (replace_cell [(CStr (py ""), missing)] x).
Proof.
  intros [u ->]. cbn [replace_cell].
  destruct (same_key (CStr (py "")) (CStr u)).
  - right. reflexivity.
  - left. eexists. reflexivity.
Qed.

Lemma replace_empty_valid x :
  valid_position x ->
  valid_position (replace_cell [(CStr (py ""), missing)] x).
Proof.
  intros H. cbn [replace_cell].
  destruct (same_key (CStr (py "")) x); [ reflexivity | exact H ].
Qed.

Lemma col_all_any c t : col_all (fun _ => True) c t.
Proof. intros s _. apply Forall_forall. auto. Qed.

(** What holds of the cells of a table that [validate_and_clean] has
    returned. *)
Lemma validate_and_clean_spec t t' :
  ValidatorTables.validate_and_clean t = Ok t' ->
  col_all is_int_cell "finishing_position" t' /\
  col_all valid_position "raw_finishing_position" t' /\
  (forall c, In c numeric_columns -> col_all is_number c t') /\
  (forall c, In c string_columns -> col_all text_or_missing c t') /\
  entries_all (fun c x => not_text "" x /\
                          (In c rank_columns -> not_text "0" x)) t' /\
  (forall c, In c essential_columns -> col_all (fun x => isna x = false) c t') /\
  col_all (in_range 300 700) "horse_weight" t' /\
  col_all (in_range 1 (9999 / 10)) "odds" t' /\
  col_all (in_range 800 4000) "distance" t'.
Proof.
  unfold ValidatorTables.validate_and_clean. intros H.
  split_result H. rename a into t1.
  split_result H. rename a into t2.
  split_result H. rename a into t3.
  apply remove_invalid_positions_spec in E. destruct E as [J1 J2].
  assert (F2 : flows type_cell t1 t2)
    by (apply flows_columnwise, standardize_data_types_get_col; exact E0).
  apply handle_missing_values_spec in E1. destruct E1 as (F3 & N3 & J7).
  apply remove_outliers_spec in H. destruct H as (F4 & N4 & R1 & R2 & R3).
  pose proof (flows_trans F3 F4) as F34.
  pose proof (flows_trans F2 F34) as F234.
  split; [ | split; [ | split; [ | split; [ | split; [ | split ] ] ] ] ].
  - eapply flows_col_all; [ exact F234 | | exact J1 ].
    intros x [z ->]. exists z. reflexivity.
  - eapply flows_col_all; [ exact F234 | | exact J2 ].
    intros x Hx. apply replace_empty_valid. exact Hx.
  - intros c Hc.
    eapply flows_col_all; [ exact F234 | | apply (col_all_any c t1) ].
    intros x _. cbv beta. apply handled_number.
    rewrite type_cell_numeric by exact Hc. apply to_numeric_cell_number.
  - intros c Hc.
    eapply flows_col_all; [ exact F234 | | apply (col_all_any c t1) ].
    intros x _. cbv beta. rewrite handled_cell_string by exact Hc.
    apply replace_empty_text. rewrite type_cell_string by exact Hc.
    destruct x; eexists; reflexivity.
  - apply N4, N3, handled_entries.
  - intros c Hc. eapply flows_col_all; [ exact F4 | | exact (J7 c Hc) ]; auto.
  - auto.
Qed.

End Cleaned.

(** Claim C5, for a cleaned table without a missing rank or text.  A table
    that [validate_and_clean] has returned, whose columns all have the
    length of the table, and where no cell of a rank column or of a column
    coerced to text is missing, is returned as it is by
    [validate_and_clean]: same rows, same columns, same cells. *)
Theorem validate_and_clean_idempotent (P : Pandas) (t t' : DataFrame) :
  run_table validate_and_clean t = Ok t' ->
  rectangular t' ->
  no_missing_in (rank_columns ++ string_columns) t' ->
  run_table validate_and_clean t' = Ok t'.
Proof.
  rewrite !(run_table_transforms _ validate_and_clean_table).
  intros H R M.
  apply validate_and_clean_spec in H.
  destruct H as (J1 & J2 & J3 & J4 & J56 & J7 & R1 & R2 & R3).
  unfold ValidatorTables.validate_and_clean.
  rewrite remove_invalid_positions_same by assumption. cbn [rbind].
  rewrite standardize_data_types_same; auto.
  - cbn [rbind]. rewrite handle_missing_values_same; auto.
    + cbn [rbind]. apply remove_outliers_same; auto.
    + intros c s Hc Hin. apply (M c s); auto. apply in_or_app. auto.
  - intros c Hc s G. specialize (J4 c Hc s G).
    assert (N : Forall (fun x => isna x = false) s).
    { apply (M c s); [ apply in_or_app; auto | apply get_col_In; auto ]. }
    rewrite Forall_forall in *. intros x Hx.
    destruct (J4 x Hx) as [T| ->]; auto.
    specialize (N _ Hx). discriminate.
Qed.

(** *** A horse with a rank of ["0"] *)

Lemma clean_zero_rank :
  run_table (@validate_and_clean digits_only) (ranked_horse (CStr (py "0")))
  = Ok (ranked_horse missing).
Proof.
  rewrite (run_table_transforms _ validate_and_clean_table). reflexivity.
Qed.

Lemma clean_missing_rank :
  run_table (@validate_and_clean digits_only) (ranked_horse missing)
  = Ok (ranked_horse (CNum (Fin 18))).
Proof.
  rewrite (run_table_transforms _ validate_and_clean_table). reflexivity.
Qed.

Lemma validate_ranked_horse rank :
  run validate_race_data (ranked_horse rank) = Ok (true, []).
Proof.
  rewrite run_validate_race_data.
  unfold ValidatorTables.validate_race_data, ValidatorTables.validation_results,
    ValidatorTables.duplicate_check, ValidatorTables.field_size_check,
    ValidatorTables.declared_field_size.
  cbn -[feqb fleb]. rewrite feqb_refl. reflexivity.
Qed.

(** Claim C5 as stated fails on a rank of ["0"]: cleaning makes it a
    missing value, and cleaning the cleaned table makes the missing value
    18.  The cleaned table has one horse, its name, its track and its
    number, which is the declared field size: [validate_race_data] reports
    nothing on it. *)
Lemma cleaning_twice_changes_rank :
  run_table (@validate_and_clean digits_only) (ranked_horse (CStr (py "0")))
  = Ok (ranked_horse missing) /\
  run validate_race_data (ranked_horse missing) = Ok (true, []) /\
  run_table (@validate_and_clean digits_only) (ranked_horse missing)
  = Ok (ranked_horse (CNum (Fin 18))) /\
  get_col "last_race_corner2" (ranked_horse missing) = Some [missing] /\
  get_col "last_race_corner2" (ranked_horse (CNum (Fin 18)))
  = Some [CNum (Fin 18)] /\
  isna missing = true /\ isna (CNum (Fin 18)) = false.
Proof.
  split; [ exact clean_zero_rank | ].
  split; [ apply validate_ranked_horse | ].
  split; [ exact clean_missing_rank | ].
  repeat split.
Qed.

Lemma rectangular_ranked_horse rank : rectangular (ranked_horse rank).
Proof. repeat constructor. Qed.

Lemma no_missing_ranked_horse :
  no_missing_in (rank_columns ++ string_columns)
    (ranked_horse (CNum (Fin 18))).
Proof.
  intros c s _ Hin. simpl in Hin.
  repeat (destruct Hin as [E|Hin];
          [ injection E as <- <-; repeat constructor | ]).
  destruct Hin.
Qed.

Lemma validate_and_clean_idempotent_witness :
  run_table (@validate_and_clean digits_only) (ranked_horse (CNum (Fin 18)))
  = Ok (ranked_horse (CNum (Fin 18))).
Proof.
  apply (@validate_and_clean_idempotent digits_only (ranked_horse missing)).
  - exact clean_missing_rank.
  - apply rectangular_ranked_horse.
  - exact no_missing_ranked_horse.
Defined.

(** * More on [class DataValidator] *)

(** ** [_remove_outliers] *)

Lemma in_range_bounds lo hi x :
  in_range lo hi x <-> exists r, x = num r /\ (lo <= r <= hi)%R.
Proof.
  unfold in_range. split.
  - intros [G L]. destruct x as [[r| | |]|u]; simpl in *; try discriminate.
    exists r. split; [ reflexivity | ].
    destruct (Rle_dec lo r), (Rle_dec r hi); try discriminate. split; auto.
  - intros (r & -> & B1 & B2). simpl.
    destruct (Rle_dec lo r), (Rle_dec r hi); try contradiction. auto.
Qed.

Lemma col_all_in_range lo hi c t :
  col_all (in_range lo hi) c t ->
  forall s x, get_col c t = Some s -> In x s ->
    exists r, x = num r /\ (lo <= r <= hi)%R.
Proof.
  intros H s x G Hx. apply in_range_bounds.
  specialize (H s G). rewrite Forall_forall in H. auto.
Qed.

Lemma mapR_raise A B (f : A -> result B) e xs :
  (forall x, In x xs -> (exists y, f x = Ok y) \/ f x = Raise e) ->
  (exists x, In x xs /\ f x = Raise e) ->
  mapR f xs = Raise e.
Proof.
  induction xs as [|a xs IH]; intros H (x & Hx & E); [ destruct Hx | ].
  simpl. destruct (H a (or_introl eq_refl)) as [[y Ey]|Ea].
  - rewrite Ey. cbn [rbind]. rewrite IH; auto.
    + intros z Hz. apply H. right. exact Hz.
    + destruct Hx as [->|Hx]; [ congruence | eauto ].
  - rewrite Ea. reflexivity.
Qed.

Lemma mapR_returns A B (f : A -> result B) xs :
  (forall x, In x xs -> exists y, f x = Ok y) -> exists ys, mapR f xs = Ok ys.
Proof.
  induction xs as [|a xs IH]; intros H; simpl; eauto.
  destruct (H a (or_introl eq_refl)) as [y ->].
  destruct IH as [ys ->]; [ intros; apply H; right; auto | ].
  cbn [rbind]. eauto.
Qed.

Lemma keep_between_returns c lo hi t :
  col_all is_number c t ->
  exists t', ValidatorTables.keep_between c lo hi t = Ok t'.
Proof.
  intros H. unfold ValidatorTables.keep_between.
  destruct (has_col c t) eqn:Hc; eauto.
  apply has_col_get_col_iff in Hc. destruct Hc as [s G].
  unfold col. rewrite G. cbn [rbind].
  specialize (H s G). rewrite Forall_forall in H.
  destruct (@mapR_returns _ _ (cell_ge lo) s) as [ge Ege].
  { intros x Hx. destruct (H x Hx) as [f ->]. simpl. eauto. }
  destruct (@mapR_returns _ _ (cell_le hi) s) as [le Ele].
  { intros x Hx. destruct (H x Hx) as [f ->]. simpl. eauto. }
  unfold series_ge, series_le. rewrite Ege, Ele. cbn [rbind]. eauto.
Qed.

Lemma keep_between_numbers c c' lo hi t t' :
  ValidatorTables.keep_between c lo hi t = Ok t' ->
  col_all is_number c' t -> col_all is_number c' t'.
Proof.
  intros H N. apply keep_between_spec in H. destruct H as (F & _ & _).
  eapply flows_col_all; [ exact F | | exact N ]. auto.
Qed.

Lemma run_remove_outliers t :
  run_table _remove_outliers t = ValidatorTables.remove_outliers t.
Proof. apply run_table_transforms, remove_outliers_table. Qed.

(** The rows that [_remove_outliers] keeps hold a horse weight from 300
    to 700, odds from 1 to 999.9 and a distance from 800 to 4000, all of
    them finite numbers. *)
Theorem remove_outliers_within_bounds (t t' : DataFrame) :
  run_table _remove_outliers t = Ok t' ->
  (forall s x, get_col "horse_weight" t' = Some s -> In x s ->
     exists r, x = num r /\ (300 <= r <= 700)%R) /\
  (forall s x, get_col "odds" t' = Some s -> In x s ->
     exists r, x = num r /\ (1 <= r <= 9999 / 10)%R) /\
  (forall s x, get_col "distance" t' = Some s -> In x s ->
     exists r, x = num r /\ (800 <= r <= 4000)%R).
Proof.
  rewrite run_remove_outliers. intros H.
  apply remove_outliers_spec in H. destruct H as (_ & _ & R1 & R2 & R3).
  split; [ | split ]; apply col_all_in_range; assumption.
Qed.

(** [_remove_outliers] returns a table whenever the columns
    [horse_weight], [odds] and [distance], where the table has them, hold
    numbers only. *)
Theorem remove_outliers_returns (t : DataFrame) :
  (forall c s x, In c ["horse_weight"; "odds"; "distance"]%string ->
     get_col c t = Some s -> In x s -> exists f, x = CNum f) ->
  exists t', run_table _remove_outliers t = Ok t'.
Proof.
  intros H. rewrite run_remove_outliers.
  assert (N : forall c, In c ["horse_weight"; "odds"; "distance"]%string ->
                        col_all is_number c t).
  { intros c Hc s G. apply Forall_forall. intros x Hx. apply (H c s x Hc G Hx). }
  unfold ValidatorTables.remove_outliers.
  destruct (@keep_between_returns "horse_weight" 300 700 t) as [t1 E1];
    [ apply N; simpl; auto | ].
  rewrite E1. cbn [rbind].
  destruct (@keep_between_returns "odds" 1 (9999 / 10) t1) as [t2 E2].
  { eapply keep_between_numbers; [ exact E1 | apply N; simpl; auto ]. }
  rewrite E2. cbn [rbind].
  apply keep_between_returns.
  eapply keep_between_numbers; [ exact E2 | ].
  eapply keep_between_numbers; [ exact E1 | apply N; simpl; auto ].
Qed.

(** [_remove_outliers] raises [TypeError] on a table whose column
    [horse_weight] holds a text: a text is not compared with 300. *)
Theorem remove_outliers_text_raises (t : DataFrame) (s : Series) (u : pystr) :
  get_col "horse_weight" t = Some s -> In (CStr u) s ->
  run_table _remove_outliers t = Raise TypeError.
Proof.
  intros G Hu. rewrite run_remove_outliers.
  unfold ValidatorTables.remove_outliers, ValidatorTables.keep_between.
  rewrite (has_col_get_col _ _ G), (col_get_col _ _ G). cbn [rbind].
  unfold series_ge. rewrite (@mapR_raise _ _ (cell_ge 300) TypeError s).
  - reflexivity.
  - intros x _. destruct x; simpl; eauto.
  - exists (CStr u). auto.
Qed.

Lemma length_select_same A B (m : list bool) (xs : list A) (ys : list B) :
  length xs = length ys -> length (select m xs) = length (select m ys).
Proof.
  revert xs ys. induction m as [|b m IH]; intros [|x xs] [|y ys] E;
    simpl in *; try discriminate; auto.
  destruct b; simpl; auto.
Qed.

(** Boolean indexing keeps a table rectangular. *)
Lemma rectangular_filter_rows m t : rectangular t -> rectangular (filter_rows m t).
Proof.
  unfold rectangular. intros R. destruct t as [|[c0 s0] t]; [ constructor | ].
  simpl in *. rewrite Forall_forall in *. intros [c s] Hin. simpl in *.
  destruct Hin as [E|Hin].
  - injection E as <- <-. reflexivity.
  - apply in_map_iff in Hin. destruct Hin as ([c1 s1] & E & Hin).
    injection E as <- <-. simpl. apply length_select_same.
    apply (R (c1, s1)). right. exact Hin.
Qed.

Lemma keep_between_rectangular c lo hi t t' :
  ValidatorTables.keep_between c lo hi t = Ok t' ->
  rectangular t -> rectangular t'.
Proof.
  unfold ValidatorTables.keep_between. destruct (has_col c t).
  - intros H R. repeat split_result H.
    injection H as <-. apply rectangular_filter_rows, R.
  - intros [= <-]. auto.
Qed.

Lemma remove_outliers_rectangular t t' :
  ValidatorTables.remove_outliers t = Ok t' -> rectangular t -> rectangular t'.
Proof.
  unfold ValidatorTables.remove_outliers. intros H R.
  split_result H. split_result H.
  eapply keep_between_rectangular; [ exact H | ].
  eapply keep_between_rectangular; [ exact E0 | ].
  eapply keep_between_rectangular; [ exact E | exact R ].
Qed.

(** [_remove_outliers] keeps what it has returned: on a table whose
    columns all have the length of the table, removing the outliers of the
    result returns the result. *)
Theorem remove_outliers_idempotent (t t' : DataFrame) :
  rectangular t ->
  run_table _remove_outliers t = Ok t' ->
  run_table _remove_outliers t' = Ok t'.
Proof.
  rewrite !run_remove_outliers. intros R H.
  pose proof (@remove_outliers_rectangular _ _ H R) as R'.
  apply remove_outliers_spec in H. destruct H as (_ & _ & R1 & R2 & R3).
  apply remove_outliers_same; auto.
Qed.

Lemma fleb_le a b : (a <= b)%R -> fleb (Fin a) (Fin b) = true.
Proof. intros H. simpl. destruct (Rle_dec a b); [ reflexivity | contradiction ]. Qed.

Lemma fleb_gt a b : (b < a)%R -> fleb (Fin a) (Fin b) = false.
Proof. intros H. simpl. destruct (Rle_dec a b); [ lra | reflexivity ]. Qed.

Lemma remove_outliers_two_weights :
  run_table _remove_outliers two_weights = Ok [("horse_weight"%string, [num 450])].
Proof.
  rewrite run_remove_outliers.
  unfold ValidatorTables.remove_outliers, ValidatorTables.keep_between,
    series_ge, series_le.
  cbn -[fleb].
  rewrite (@fleb_le 300 450), (@fleb_le 300 800), (@fleb_le 450 700),
    (@fleb_gt 800 700) by lra.
  reflexivity.
Qed.

Lemma remove_outliers_within_bounds_witness :
  (forall s x, get_col "horse_weight" [("horse_weight"%string, [num 450])] = Some s ->
     In x s -> exists r, x = num r /\ (300 <= r <= 700)%R) /\
  (forall s x, get_col "odds" [("horse_weight"%string, [num 450])] = Some s ->
     In x s -> exists r, x = num r /\ (1 <= r <= 9999 / 10)%R) /\
  (forall s x, get_col "distance" [("horse_weight"%string, [num 450])] = Some s ->
     In x s -> exists r, x = num r /\ (800 <= r <= 4000)%R).
Proof.
  apply (@remove_outliers_within_bounds two_weights).
  exact remove_outliers_two_weights.
Defined.

Lemma remove_outliers_returns_witness :
  exists t', run_table _remove_outliers two_weights = Ok t'.
Proof.
  apply remove_outliers_returns.
  intros c s x Hc G Hx. simpl in Hc.
  destruct Hc as [<-|[<-|[<-|[]]]]; simpl in G; try discriminate.
  injection G as <-. simpl in Hx.
  destruct Hx as [<-|[<-|[]]]; eexists; reflexivity.
Defined.

Lemma remove_outliers_text_raises_witness :
  run_table _remove_outliers text_weight = Raise TypeError.
Proof.
  apply (@remove_outliers_text_raises text_weight [CStr (py "heavy")] (py "heavy")).
  - reflexivity.
  - left. reflexivity.
Defined.

Lemma remove_outliers_idempotent_witness :
  run_table _remove_outliers [("horse_weight"%string, [num 450])]
  = Ok [("horse_weight"%string, [num 450])].
Proof.
  apply (@remove_outliers_idempotent two_weights).
  - repeat constructor.
  - exact remove_outliers_two_weights.
Defined.

(** ** [_remove_invalid_positions] *)

Section InvalidPositions.
Context {P : Pandas}.

Lemma run_remove_invalid_positions t :
  run_table _remove_invalid_positions t
  = ValidatorTables.remove_invalid_positions t.
Proof. apply run_table_transforms, remove_invalid_positions_table. Qed.

Lemma Forall2_in_r A B (R : A -> B -> Prop) xs ys y :
  Forall2 R xs ys -> In y ys -> exists x, In x xs /\ R x y.
Proof.
  induction 1 as [|a b xs ys Hab _ IH]; intros Hy; [ destruct Hy | ].
  destruct Hy as [<-|Hy].
  - exists a. split; [ left; reflexivity | exact Hab ].
  - destruct (IH Hy) as (x & Hx & Rx). exists x. split; [ right | ]; auto.
Qed.

Lemma mapR_raise_inv A B (f : A -> result B) xs e :
  mapR f xs = Raise e -> exists x, In x xs /\ f x = Raise e.
Proof.
  induction xs as [|a xs IH]; simpl; [ discriminate | ].
  destruct (f a) as [y|e'] eqn:Ea; cbn [rbind].
  - destruct (mapR f xs) as [ys|e'']; cbn [rbind]; [ discriminate | ].
    intros [= ->]. destruct (IH eq_refl) as (x & Hx & Ex). eauto.
  - intros [= ->]. eauto.
Qed.

Lemma valid_position_not_in x : valid_position x -> ~ In x invalid_positions.
Proof.
  unfold valid_position. intros H Hin.
  assert (E : existsb (same_key x) invalid_positions = true).
  { apply existsb_exists. exists x. split; auto.
    unfold invalid_positions in Hin. simpl in Hin.
    destruct Hin as [<-|[<-|[<-|[<-|[]]]]]; reflexivity. }
  congruence.
Qed.

Lemma astype_int_numeric_cell y x :
  astype_int_cell (to_numeric_cell y) = Ok x ->
  exists r, to_numeric_cell y = num r /\ x = num (IZR (Ztrunc r)).
Proof.
  destruct (to_numeric_cell_number y) as [f E]. rewrite E.
  destruct f as [r| | |]; simpl; try discriminate.
  intros [= <-]. exists r. split; reflexivity.
Qed.

Lemma astype_int_numeric_raises y e :
  astype_int_cell (to_numeric_cell y) = Raise e ->
  e = ValueError /\ isna (to_numeric_cell y) = false ->
  is_infinite_cell (to_numeric_cell y).
Proof.
  destruct (to_numeric_cell_number y) as [f E]. rewrite E.
  destruct f as [r| | |]; simpl; try discriminate; intros _ [_ N];
    try discriminate; [ left | right ]; reflexivity.
Qed.

Lemma astype_int_numeric_error y e :
  astype_int_cell (to_numeric_cell y) = Raise e -> e = ValueError.
Proof.
  destruct (to_numeric_cell_number y) as [f E]. rewrite E.
  destruct f as [r| | |]; simpl; try discriminate; congruence.
Qed.

(** The column of positions and the rows that go into [astype(int)]. *)
Lemma notna_mask_position s t :
  exists m,
    notna_mask ["finishing_position"%string]
      (set_col "finishing_position" s t) = Ok m /\
    get_col "finishing_position"
      (filter_rows m (set_col "finishing_position" s t)) = Some (select m s) /\
    Forall (fun x => isna x = false) (select m s) /\
    (length s <= nrows (set_col "finishing_position" s t) ->
     m = map (fun x => negb (isna x)) s).
Proof.
  set (ta := set_col "finishing_position" s t).
  assert (G : get_col "finishing_position" ta = Some s).
  { unfold ta. rewrite get_col_set_col, String.eqb_refl. reflexivity. }
  simpl. rewrite G. cbn [rbind]. eexists. split; [ reflexivity | ].
  split; [ | split ].
  - rewrite get_col_filter_rows, G. reflexivity.
  - apply select_notna.
  - intros L. apply map2_and_true. rewrite length_map. exact L.
Qed.

Lemma remove_invalid_positions_raises t e :
  ValidatorTables.remove_invalid_positions t = Raise e ->
  e = ValueError /\
  exists s x, get_col "finishing_position" t = Some s /\ In x s /\
              is_infinite_cell (to_numeric_cell x).
Proof.
  unfold ValidatorTables.remove_invalid_positions. intros H.
  match type of H with rbind ?a _ = _ => destruct a as [tA|e'] eqn:EA end;
    cbn [rbind] in H.
  - exfalso. destruct (has_col "raw_finishing_position" tA) eqn:Hr;
      [ | discriminate ].
    apply has_col_get_col_iff in Hr. destruct Hr as [s G].
    rewrite (col_get_col _ _ G) in H. discriminate.
  - injection H as ->.
    destruct (has_col "finishing_position" t) eqn:Hc; [ | discriminate ].
    apply has_col_get_col_iff in Hc. destruct Hc as [s G].
    rewrite (col_get_col _ _ G) in EA. cbn [rbind] in EA. cbv zeta in EA.
    destruct (notna_mask_position (to_numeric s) t) as (m & Em & Gm & Nm & _).
    rewrite Em in EA. cbn [rbind] in EA.
    rewrite (col_get_col _ _ Gm) in EA. cbn [rbind] in EA.
    destruct (astype_int (select m (to_numeric s))) as [sc|e'] eqn:EI;
      cbn [rbind] in EA; [ discriminate | ].
    injection EA as ->. unfold astype_int in EI.
    apply mapR_raise_inv in EI. destruct EI as (y' & Hy' & Ey').
    assert (Hn : isna y' = false)
      by (rewrite Forall_forall in Nm; apply Nm; exact Hy').
    apply incl_select in Hy'. unfold to_numeric in Hy'.
    apply in_map_iff in Hy'. destruct Hy' as (y & <- & Hy).
    split; [ eapply astype_int_numeric_error; eauto | ].
    exists s, y. split; [ exact G | split; [ exact Hy | ] ].
    eapply astype_int_numeric_raises; eauto.
    split; [ eapply astype_int_numeric_error; eauto | exact Hn ].
Qed.

Lemma remove_invalid_positions_column t t' s :
  ValidatorTables.remove_invalid_positions t = Ok t' ->
  get_col "finishing_position" t = Some s ->
  exists m sc s',
    astype_int (select m (to_numeric s)) = Ok sc /\
    get_col "finishing_position" t' = Some s' /\ incl s' sc.
Proof.
  unfold ValidatorTables.remove_invalid_positions. intros H G.
  split_result H. rename a into tA.
  rewrite (has_col_get_col _ _ G), (col_get_col _ _ G) in E.
  cbn [rbind] in E. cbv zeta in E.
  destruct (notna_mask_position (to_numeric s) t) as (m & Em & Gm & _ & _).
  rewrite Em in E. cbn [rbind] in E.
  rewrite (col_get_col _ _ Gm) in E. cbn [rbind] in E.
  split_result E. rename a into sc. injection E as <-.
  exists m, sc.
  assert (GA : get_col "finishing_position"
                 (set_col "finishing_position" sc
                    (filter_rows m (set_col "finishing_position" (to_numeric s) t)))
               = Some sc)
    by (rewrite get_col_set_col, String.eqb_refl; reflexivity).
  destruct (has_col "raw_finishing_position" _) eqn:Hr.
  - split_result H. injection H as <-. eexists. split; [ exact E0 | ].
    split; [ rewrite get_col_filter_rows, GA; reflexivity | apply incl_select ].
  - injection H as <-. exists sc. split; [ exact E0 | ].
    split; [ exact GA | apply incl_refl ].
Qed.

End InvalidPositions.

(** A finishing position that [_remove_invalid_positions] returns is an
    integer, read from a cell of the column: where the number read lies
    within the range of the 64-bit integers, from [- 2 ^ 63] to below
    [2 ^ 63], it is that number truncated towards zero (beyond the range
    the conversion is the one of the machine, and nothing is said of its
    value).  No raw position that is returned is one of the four
    withdrawal markers. *)
Theorem remove_invalid_positions_result (P : Pandas) (t t' : DataFrame) :
  run_table _remove_invalid_positions t = Ok t' ->
  (forall s s' x, get_col "finishing_position" t = Some s ->
     get_col "finishing_position" t' = Some s' -> In x s' ->
     is_int_cell x /\
     exists y r, In y s /\ to_numeric_cell y = num r /\
                 ((- 2 ^ 63 <= r < 2 ^ 63)%R -> x = num (IZR (Ztrunc r)))) /\
  (forall s' x, get_col "raw_finishing_position" t' = Some s' -> In x s' ->
     ~ In x invalid_positions).
Proof.
  rewrite run_remove_invalid_positions. intros H. split.
  - intros s s' x G G' Hx.
    destruct (@remove_invalid_positions_column _ _ _ _ H G)
      as (m & sc & s'' & EI & G'' & I).
    assert (s'' = s') by congruence. subst s''.
    apply I in Hx. unfold astype_int in EI. apply mapR_Forall2 in EI.
    destruct (@Forall2_in_r _ _ _ _ _ _ EI Hx) as (y' & Hy' & Ey').
    apply incl_select in Hy'. unfold to_numeric in Hy'.
    apply in_map_iff in Hy'. destruct Hy' as (y & <- & Hy).
    destruct (@astype_int_numeric_cell _ _ _ Ey') as (r & Er & Ex).
    split; [ exists (Ztrunc r); exact Ex | ].
    exists y, r. auto.
  - intros s' x G' Hx. apply valid_position_not_in.
    apply remove_invalid_positions_spec in H. destruct H as [_ J2].
    specialize (J2 s' G'). rewrite Forall_forall in J2. auto.
Qed.

(** The only exception of [_remove_invalid_positions] is [ValueError], and
    it is raised only on a table whose column [finishing_position] holds a
    cell that reads as an infinity. *)
Theorem remove_invalid_positions_only_error (P : Pandas) (t : DataFrame)
  (e : exn) :
  run_table _remove_invalid_positions t = Raise e ->
  e = ValueError /\
  exists s x, get_col "finishing_position" t = Some s /\ In x s /\
              is_infinite_cell (to_numeric_cell x).
Proof.
  rewrite run_remove_invalid_positions. apply remove_invalid_positions_raises.
Qed.

Lemma nrows_set_col c s s' t :
  rectangular t -> get_col c t = Some s -> length s' = length s ->
  nrows (set_col c s' t) = length s'.
Proof.
  intros R G L. rewrite L, (@rectangular_length _ _ _ R G).
  destruct t as [|[c0 s0] r]; [ discriminate | ]. simpl in *.
  destruct (String.eqb_spec c0 c) as [->|N]; simpl.
  - injection G as ->. exact L.
  - reflexivity.
Qed.

Lemma In_select_mask A (f : A -> bool) y ys :
  In y ys -> f y = true -> In y (select (map f ys) ys).
Proof.
  induction ys as [|a ys IH]; intros Hy Fy; [ destruct Hy | ]. simpl.
  destruct Hy as [->|Hy].
  - rewrite Fy. left. reflexivity.
  - destruct (f a); [ right | ]; auto.
Qed.

(** [_remove_invalid_positions] raises [ValueError] on a table, whose
    columns all have the length of the table, when a cell of the column
    [finishing_position] reads as an infinity: the infinity is not
    missing, so its row is kept, and it is no integer. *)
Theorem infinite_position_raises (P : Pandas) (t : DataFrame) (s : Series)
  (x : cell) :
  rectangular t ->
  get_col "finishing_position" t = Some s -> In x s ->
  is_infinite_cell (to_numeric_cell x) ->
  run_table _remove_invalid_positions t = Raise ValueError.
Proof.
  intros R G Hx Hi. rewrite run_remove_invalid_positions.
  unfold ValidatorTables.remove_invalid_positions.
  rewrite (has_col_get_col _ _ G), (col_get_col _ _ G). cbn [rbind]. cbv zeta.
  destruct (notna_mask_position (to_numeric s) t) as (m & Em & Gm & _ & Hm).
  rewrite Em. cbn [rbind]. rewrite (col_get_col _ _ Gm). cbn [rbind].
  rewrite Hm.
  2:{ rewrite (@nrows_set_col _ s _ _ R G); [ lia | ].
      unfold to_numeric. apply length_map. }
  unfold astype_int.
  rewrite (@mapR_raise _ _ astype_int_cell ValueError); [ reflexivity | | ].
  - intros y Hy. apply incl_select in Hy. unfold to_numeric in Hy.
    apply in_map_iff in Hy. destruct Hy as (y0 & <- & _).
    destruct (astype_int_cell (to_numeric_cell y0)) as [z|e] eqn:E; eauto.
    right. f_equal. eapply astype_int_numeric_error; eauto.
  - exists (to_numeric_cell x). split.
    + apply In_select_mask.
      * unfold to_numeric. apply in_map. exact Hx.
      * destruct Hi as [-> | ->]; reflexivity.
    + destruct Hi as [-> | ->]; reflexivity.
Qed.

Lemma Ztrunc_5_2 : Ztrunc (5 / 2) = 2%Z.
Proof.
  unfold Ztrunc. destruct (Rle_dec 0 (5 / 2)) as [_|N]; [ | exfalso; lra ].
  apply Zfloor_eq. simpl. lra.
Qed.

Lemma clean_raw_positions :
  run_table (@_remove_invalid_positions digits_only) raw_positions
  = Ok [("finishing_position"%string, [num 2]);
        ("raw_finishing_position"%string, [CStr (py "2")])].
Proof.
  rewrite run_remove_invalid_positions.
  rewrite <- Ztrunc_5_2 at 1. reflexivity.
Qed.

Lemma remove_invalid_positions_result_witness :
  (forall s s' x,
     get_col "finishing_position" raw_positions = Some s ->
     get_col "finishing_position"
       [("finishing_position"%string, [num 2]);
        ("raw_finishing_position"%string, [CStr (py "2")])] = Some s' ->
     In x s' ->
     is_int_cell x /\
     exists y r, In y s /\ @to_numeric_cell digits_only y = num r /\
                 ((- 2 ^ 63 <= r < 2 ^ 63)%R -> x = num (IZR (Ztrunc r)))) /\
  (forall s' x,
     get_col "raw_finishing_position"
       [("finishing_position"%string, [num 2]);
        ("raw_finishing_position"%string, [CStr (py "2")])] = Some s' ->
     In x s' -> ~ In x invalid_positions).
Proof.
  apply (@remove_invalid_positions_result digits_only raw_positions).
  exact clean_raw_positions.
Defined.

Lemma clean_infinite_position :
  run_table (@_remove_invalid_positions digits_only) infinite_position
  = Raise ValueError.
Proof. rewrite run_remove_invalid_positions. reflexivity. Qed.

Lemma remove_invalid_positions_only_error_witness :
  ValueError = ValueError /\
  exists s x, get_col "finishing_position" infinite_position = Some s /\
              In x s /\ is_infinite_cell (@to_numeric_cell digits_only x).
Proof.
  apply (@remove_invalid_positions_only_error digits_only infinite_position).
  exact clean_infinite_position.
Defined.

Lemma infinite_position_raises_witness :
  run_table (@_remove_invalid_positions digits_only) infinite_position
  = Raise ValueError.
Proof.
  apply (@infinite_position_raises digits_only infinite_position
           [num 1; CNum PInf] (CNum PInf)).
  - repeat constructor.
  - reflexivity.
  - right. left. reflexivity.
  - left. reflexivity.
Defined.

(** ** [_standardize_data_types] *)

Section DataTypes.
Context {P : Pandas}.

Lemma run_standardize_data_types t :
  run_table _standardize_data_types t = ValidatorTables.standardize_data_types t.
Proof. apply run_table_transforms, standardize_data_types_table. Qed.

Lemma foldR_convert_column_returns (g : Series -> Series) cols : forall t,
  exists t', foldR (convert_column g) cols t = Ok t' /\ columns t' = columns t.
Proof.
  induction cols as [|c cols IH]; intros t; simpl; eauto.
  rewrite convert_column_shape. cbn [rbind].
  destruct (IH (match get_col c t with
                | Some s => set_col c (g s) t
                | None => t
                end)) as (t' & E & C).
  exists t'. split; auto. rewrite C.
  destruct (get_col c t) as [s|] eqn:G; auto.
  apply columns_set_col. eapply has_col_get_col; eauto.
Qed.

Lemma standardize_data_types_returns t :
  exists t', ValidatorTables.standardize_data_types t = Ok t' /\
             columns t' = columns t.
Proof.
  unfold ValidatorTables.standardize_data_types.
  destruct (foldR_convert_column_returns to_numeric numeric_columns t)
    as (t1 & E1 & C1).
  destruct (foldR_convert_column_returns astype_str string_columns t1)
    as (t2 & E2 & C2).
  exists t2. rewrite E1. cbn [rbind]. split; congruence.
Qed.

Lemma type_cell_other c x :
  ~ In c numeric_columns -> ~ In c string_columns -> type_cell c x = x.
Proof.
  intros Hn Hs. unfold type_cell.
  destruct (in_list c numeric_columns) eqn:En;
    [ apply in_list_In in En; contradiction | ].
  destruct (in_list c string_columns) eqn:Es;
    [ apply in_list_In in Es; contradiction | ].
  reflexivity.
Qed.

End DataTypes.

(** [_standardize_data_types] raises nothing.  The table it returns has
    the columns of its input; the thirteen numeric columns are read as
    numbers, the eight text columns are turned into texts, and every
    other column is as it was. *)
Theorem standardize_data_types_result (P : Pandas) (t : DataFrame) :
  exists t',
    run_table _standardize_data_types t = Ok t' /\
    columns t' = columns t /\
    (forall c s, In c numeric_columns -> get_col c t = Some s ->
       get_col c t' = Some (to_numeric s)) /\
    (forall c s, In c string_columns -> get_col c t = Some s ->
       get_col c t' = Some (astype_str s)) /\
    (forall c, ~ In c numeric_columns -> ~ In c string_columns ->
       get_col c t' = get_col c t).
Proof.
  rewrite run_standardize_data_types.
  destruct (standardize_data_types_returns t) as (t' & E & C).
  exists t'. split; [ exact E | split; [ exact C | ] ].
  pose proof (standardize_data_types_get_col _ E) as G.
  split; [ | split ].
  - intros c s Hc Hs. rewrite G, Hs. cbn [option_map]. f_equal.
    apply map_ext. intros x. apply type_cell_numeric. exact Hc.
  - intros c s Hc Hs. rewrite G, Hs. cbn [option_map]. f_equal.
    apply map_ext. intros x. apply type_cell_string. exact Hc.
  - intros c Hn Hs. rewrite G. destruct (get_col c t) as [s|]; auto.
    cbn [option_map]. f_equal. rewrite <- (map_id s) at 2.
    apply map_ext. intros x. apply type_cell_other; auto.
Qed.

(** [_standardize_data_types] is idempotent: on the table it has returned
    it returns that table. *)
Theorem standardize_data_types_idempotent (P : Pandas) (t t' : DataFrame) :
  run_table _standardize_data_types t = Ok t' ->
  run_table _standardize_data_types t' = Ok t'.
Proof.
  rewrite !run_standardize_data_types. intros H.
  pose proof (standardize_data_types_get_col _ H) as G.
  apply standardize_data_types_same.
  - intros c Hc s Hs. rewrite G in Hs.
    destruct (get_col c t) as [s0|]; [ | discriminate ].
    injection Hs as <-. apply Forall_map, Forall_forall. intros x _.
    rewrite type_cell_numeric by exact Hc. apply to_numeric_cell_number.
  - intros c Hc s Hs. rewrite G in Hs.
    destruct (get_col c t) as [s0|]; [ | discriminate ].
    injection Hs as <-. apply Forall_map, Forall_forall. intros x _.
    rewrite type_cell_string by exact Hc. destruct x; eexists; reflexivity.
Qed.

Lemma standardize_untyped_table :
  run_table (@_standardize_data_types digits_only) untyped_table
  = Ok [("age"%string, [num 4; missing]);
        ("horse_name"%string, [CStr (py "A"); CStr (py "B")]);
        ("memo"%string, [CStr (py "7"); num 7])].
Proof. rewrite run_standardize_data_types. reflexivity. Qed.

Lemma standardize_data_types_idempotent_witness :
  run_table (@_standardize_data_types digits_only)
    [("age"%string, [num 4; missing]);
     ("horse_name"%string, [CStr (py "A"); CStr (py "B")]);
     ("memo"%string, [CStr (py "7"); num 7])]
  = Ok [("age"%string, [num 4; missing]);
        ("horse_name"%string, [CStr (py "A"); CStr (py "B")]);
        ("memo"%string, [CStr (py "7"); num 7])].
Proof.
  apply (@standardize_data_types_idempotent digits_only untyped_table).
  exact standardize_untyped_table.
Defined.

(** ** [_handle_missing_values] *)

Lemma run_handle_missing_values t :
  run_table _handle_missing_values t = ValidatorTables.handle_missing_values t.
Proof. apply run_table_transforms, handle_missing_values_table. Qed.

Lemma notna_mask_returns cols u :
  (forall c, In c cols -> has_col c u = true) ->
  exists m, notna_mask cols u = Ok m.
Proof.
  induction cols as [|c cols IH]; intros H; simpl; eauto.
  destruct (proj1 (has_col_get_col_iff c u) (H c (or_introl eq_refl))) as [s ->].
  destruct IH as [m ->]; [ intros; apply H; right; auto | ].
  cbn [rbind]. eauto.
Qed.

Lemma columns_handled t :
  columns (map (fun cs => (fst cs, map (handled_cell (fst cs)) (snd cs))) t)
  = columns t.
Proof. apply (columns_map (fun c => map (handled_cell c))). Qed.

Lemma handle_missing_values_returns t :
  exists t', ValidatorTables.handle_missing_values t = Ok t' /\
             columns t' = columns t.
Proof.
  unfold ValidatorTables.handle_missing_values. cbv zeta.
  rewrite handled_table.
  set (u := map (fun cs => (fst cs, map (handled_cell (fst cs)) (snd cs))) t).
  destruct (filter (fun c => has_col c u) essential_columns) as [|c0 cs] eqn:F.
  - exists u. split; auto. apply columns_handled.
  - destruct (@notna_mask_returns (c0 :: cs) u) as [m Em].
    { intros c Hc. rewrite <- F in Hc. apply filter_In in Hc. tauto. }
    rewrite Em. cbn [rbind]. eexists. split; [ reflexivity | ].
    rewrite columns_filter_rows. apply columns_handled.
Qed.

Lemma not_text_neq v x : not_text v x -> x <> CStr (py v).
Proof.
  unfold not_text. intros H ->. simpl in H.
  assert (E : pystr_eqb (py v) (py v) = true) by (apply pystr_eqb_eq; reflexivity).
  congruence.
Qed.

(** [_handle_missing_values] raises nothing.  The table it returns has the
    columns of its input, holds the empty text nowhere, and holds no
    missing value in the columns [horse_name], [track_name] and
    [distance]. *)
Theorem handle_missing_values_result (t : DataFrame) :
  exists t',
    run_table _handle_missing_values t = Ok t' /\
    columns t' = columns t /\
    (forall c s x, In (c, s) t' -> In x s -> x <> CStr (py "")) /\
    (forall c s x, In c essential_columns -> get_col c t' = Some s ->
       In x s -> isna x = false).
Proof.
  rewrite run_handle_missing_values.
  destruct (handle_missing_values_returns t) as (t' & E & C).
  exists t'. split; [ exact E | split; [ exact C | ] ].
  apply handle_missing_values_spec in E. destruct E as (_ & N & J).
  split.
  - intros c s x Hin Hx. apply not_text_neq.
    pose proof (N _ (handled_entries t) c s Hin) as Q.
    rewrite Forall_forall in Q. apply (Q x Hx).
  - intros c s x Hc G Hx. specialize (J c Hc s G).
    rewrite Forall_forall in J. auto.
Qed.

(** ** [validate_and_clean] *)

Section Cleaning.
Context {P : Pandas}.

Lemma run_validate_and_clean t :
  run_table validate_and_clean t = ValidatorTables.validate_and_clean t.
Proof. apply run_table_transforms, validate_and_clean_table. Qed.

Lemma remove_outliers_total t :
  (forall c, In c ["horse_weight"; "odds"; "distance"]%string ->
     col_all is_number c t) ->
  exists t', ValidatorTables.remove_outliers t = Ok t'.
Proof.
  intros N. unfold ValidatorTables.remove_outliers.
  destruct (@keep_between_returns "horse_weight" 300 700 t) as [t1 E1];
    [ apply N; simpl; auto | ].
  rewrite E1. cbn [rbind].
  destruct (@keep_between_returns "odds" 1 (9999 / 10) t1) as [t2 E2].
  { eapply keep_between_numbers; [ exact E1 | apply N; simpl; auto ]. }
  rewrite E2. cbn [rbind].
  apply keep_between_returns.
  eapply keep_between_numbers; [ exact E2 | ].
  eapply keep_between_numbers; [ exact E1 | apply N; simpl; auto ].
Qed.

Lemma validate_and_clean_raises t e :
  ValidatorTables.validate_and_clean t = Raise e ->
  ValidatorTables.remove_invalid_positions t = Raise e.
Proof.
  unfold ValidatorTables.validate_and_clean.
  destruct (ValidatorTables.remove_invalid_positions t) as [t1|e1];
    cbn [rbind]; [ | auto ].
  destruct (standardize_data_types_returns t1) as (t2 & E2 & _).
  rewrite E2. cbn [rbind].
  destruct (handle_missing_values_returns t2) as (t3 & E3 & _).
  rewrite E3. cbn [rbind].
  destruct (@remove_outliers_total t3) as [t4 E4]; [ | congruence ].
  intros c Hc.
  assert (Hn : In c numeric_columns).
  { simpl in Hc. destruct Hc as [<-|[<-|[<-|[]]]]; simpl; auto 10. }
  apply handle_missing_values_spec in E3. destruct E3 as (F3 & _ & _).
  eapply flows_col_all; [ exact F3 | apply handled_number | ].
  intros s G. rewrite (standardize_data_types_get_col _ E2) in G.
  destruct (get_col c t1) as [s1|]; [ | discriminate ].
  injection G as <-. apply Forall_map, Forall_forall. intros x _.
  rewrite type_cell_numeric by exact Hn. apply to_numeric_cell_number.
Qed.

End Cleaning.

(** What [validate_and_clean] guarantees of the table it returns: the
    finishing positions are integers and no raw position is a withdrawal
    marker; the thirteen numeric columns hold numbers only (a missing
    value is one); no cell is the empty text; the names, the tracks and
    the distances are not missing; the horse weights, the odds and the
    distances are finite and within their bounds. *)
Theorem cleaned_table_guarantees (P : Pandas) (t t' : DataFrame) :
  run_table validate_and_clean t = Ok t' ->
  (forall s x, get_col "finishing_position" t' = Some s -> In x s ->
     exists z : Z, x = num (IZR z)) /\
  (forall s x, get_col "raw_finishing_position" t' = Some s -> In x s ->
     ~ In x invalid_positions) /\
  (forall c s x, In c numeric_columns -> get_col c t' = Some s -> In x s ->
     exists f, x = CNum f) /\
  (forall c s x, In (c, s) t' -> In x s -> x <> CStr (py "")) /\
  (forall c s x, In c essential_columns -> get_col c t' = Some s -> In x s ->
     isna x = false) /\
  (forall s x, get_col "horse_weight" t' = Some s -> In x s ->
     exists r, x = num r /\ (300 <= r <= 700)%R) /\
  (forall s x, get_col "odds" t' = Some s -> In x s ->
     exists r, x = num r /\ (1 <= r <= 9999 / 10)%R) /\
  (forall s x, get_col "distance" t' = Some s -> In x s ->
     exists r, x = num r /\ (800 <= r <= 4000)%R).
Proof.
  rewrite run_validate_and_clean. intros H.
  apply validate_and_clean_spec in H.
  destruct H as (J1 & J2 & J3 & _ & J56 & J7 & R1 & R2 & R3).
  repeat match goal with |- _ /\ _ => split end;
    try (apply col_all_in_range; assumption).
  - intros s x G Hx. specialize (J1 s G). rewrite Forall_forall in J1.
    apply (J1 x Hx).
  - intros s x G Hx. apply valid_position_not_in.
    specialize (J2 s G). rewrite Forall_forall in J2. auto.
  - intros c s x Hc G Hx. specialize (J3 c Hc s G).
    rewrite Forall_forall in J3. apply (J3 x Hx).
  - intros c s x Hin Hx. apply not_text_neq.
    specialize (J56 c s Hin). rewrite Forall_forall in J56.
    apply (J56 x Hx).
  - intros c s x Hc G Hx. specialize (J7 c Hc s G).
    rewrite Forall_forall in J7. auto.
Qed.

(** The only exception of [validate_and_clean] is the [ValueError] of an
    infinite finishing position: it returns a table on every input whose
    column [finishing_position], if there is one, has no cell that reads
    as an infinity. *)
Theorem validate_and_clean_only_error (P : Pandas) (t : DataFrame) (e : exn) :
  run_table validate_and_clean t = Raise e ->
  e = ValueError /\
  exists s x, get_col "finishing_position" t = Some s /\ In x s /\
              is_infinite_cell (to_numeric_cell x).
Proof.
  rewrite run_validate_and_clean. intros H.
  apply validate_and_clean_raises in H.
  apply remove_invalid_positions_raises in H. exact H.
Qed.

(** ** Rows and columns through the cleaning *)

Lemma shrinks_refl t : shrinks t t.
Proof. split; auto. intros c s H. exists s. auto. Qed.

Lemma shrinks_trans t1 t2 t3 : shrinks t1 t2 -> shrinks t2 t3 -> shrinks t1 t3.
Proof.
  intros [C1 L1] [C2 L2]. split; [ congruence | ].
  intros c s3 H3. destruct (L2 c s3 H3) as (s2 & H2 & B2).
  destruct (L1 c s2 H2) as (s1 & H1 & B1). exists s1. split; auto. lia.
Qed.

Lemma length_select A m (s : list A) : length (select m s) <= length s.
Proof.
  revert s. induction m as [|b m IH]; intros [|x s]; simpl; try lia.
  destruct b; simpl; specialize (IH s); lia.
Qed.

Lemma shrinks_filter_rows m t : shrinks t (filter_rows m t).
Proof.
  split; [ apply columns_filter_rows | ].
  intros c s' H. rewrite get_col_filter_rows in H.
  destruct (get_col c t) as [s|]; [ | discriminate ].
  injection H as <-. exists s. split; auto. apply length_select.
Qed.

Lemma shrinks_set_col c s s' t :
  get_col c t = Some s -> length s' <= length s -> shrinks t (set_col c s' t).
Proof.
  intros G L. split.
  - apply columns_set_col. eapply has_col_get_col; eauto.
  - intros c0 s0 H. rewrite get_col_set_col in H.
    destruct (String.eqb_spec c c0) as [->|N].
    + injection H as <-. eauto.
    + exists s0. auto.
Qed.

Lemma shrinks_columnwise (f : string -> cell -> cell) t t' :
  columns t' = columns t ->
  (forall c, get_col c t' = option_map (map (f c)) (get_col c t)) ->
  shrinks t t'.
Proof.
  intros C E. split; auto. intros c s' H. rewrite E in H.
  destruct (get_col c t) as [s|]; [ | discriminate ].
  injection H as <-. exists s. split; auto. rewrite length_map. lia.
Qed.

Lemma mapR_length A B (f : A -> result B) xs ys :
  mapR f xs = Ok ys -> length ys = length xs.
Proof.
  intros H. apply mapR_Forall2 in H. symmetry. eapply Forall2_length; eauto.
Qed.

Lemma keep_between_shrinks c lo hi t t' :
  ValidatorTables.keep_between c lo hi t = Ok t' -> shrinks t t'.
Proof.
  unfold ValidatorTables.keep_between. destruct (has_col c t).
  - intros H. repeat split_result H. injection H as <-.
    apply shrinks_filter_rows.
  - intros [= <-]. apply shrinks_refl.
Qed.

Section Shrinking.
Context {P : Pandas}.

Lemma remove_invalid_positions_shrinks t t' :
  ValidatorTables.remove_invalid_positions t = Ok t' -> shrinks t t'.
Proof.
  unfold ValidatorTables.remove_invalid_positions. intros H.
  split_result H. rename a into tA.
  assert (A : shrinks t tA).
  { destruct (has_col "finishing_position" t) eqn:Hc;
      [ | injection E as <-; apply shrinks_refl ].
    apply has_col_get_col_iff in Hc. destruct Hc as [s G].
    rewrite (col_get_col _ _ G) in E. cbn [rbind] in E. cbv zeta in E.
    destruct (notna_mask_position (to_numeric s) t) as (m & Em & Gm & _ & _).
    rewrite Em in E. cbn [rbind] in E.
    rewrite (col_get_col _ _ Gm) in E. cbn [rbind] in E.
    split_result E. rename a into sc. injection E as <-.
    eapply shrinks_trans; [ | eapply shrinks_trans ].
    - apply (@shrinks_set_col _ s (to_numeric s) _ G).
      unfold to_numeric. rewrite length_map. lia.
    - apply (shrinks_filter_rows m).
    - apply (@shrinks_set_col _ _ sc _ Gm).
      unfold astype_int in E0. rewrite (mapR_length _ _ E0). lia. }
  destruct (has_col "raw_finishing_position" tA).
  - split_result H. injection H as <-.
    eapply shrinks_trans; [ exact A | apply shrinks_filter_rows ].
  - injection H as <-. exact A.
Qed.

Lemma validate_and_clean_shrinks t t' :
  ValidatorTables.validate_and_clean t = Ok t' -> shrinks t t'.
Proof.
  unfold ValidatorTables.validate_and_clean. intros H.
  split_result H. rename a into t1.
  split_result H. rename a into t2.
  split_result H. rename a into t3.
  apply remove_invalid_positions_shrinks in E.
  assert (S2 : shrinks t1 t2).
  { destruct (standardize_data_types_returns t1) as (t2' & E2 & C2).
    assert (t2' = t2) by congruence. subst t2'.
    apply (@shrinks_columnwise type_cell _ _ C2).
    apply standardize_data_types_get_col. exact E0. }
  assert (S3 : shrinks t2 t3).
  { unfold ValidatorTables.handle_missing_values in E1. cbv zeta in E1.
    rewrite handled_table in E1.
    assert (U : shrinks t2 (map (fun cs => (fst cs,
                  map (handled_cell (fst cs)) (snd cs))) t2)).
    { apply (@shrinks_columnwise handled_cell _ _ (columns_handled t2)).
      intros c. apply (get_col_map (fun c => map (handled_cell c))). }
    destruct (filter _ essential_columns).
    - injection E1 as <-. exact U.
    - split_result E1. injection E1 as <-.
      eapply shrinks_trans; [ exact U | apply shrinks_filter_rows ]. }
  assert (S4 : shrinks t3 t').
  { unfold ValidatorTables.remove_outliers in H.
    split_result H. split_result H.
    apply keep_between_shrinks in E2, E3, H.
    eapply shrinks_trans; [ exact E2 | eapply shrinks_trans; eauto ]. }
  eapply shrinks_trans; [ exact E | ].
  eapply shrinks_trans; [ exact S2 | ].
  eapply shrinks_trans; [ exact S3 | exact S4 ].
Qed.

End Shrinking.

(** [validate_and_clean] adds no column and no row, and drops no column:
    the table it returns has the column names of its input, in their
    order, and none of its columns is longer than it was. *)
Theorem validate_and_clean_adds_nothing (P : Pandas) (t t' : DataFrame) :
  run_table validate_and_clean t = Ok t' ->
  columns t' = columns t /\
  forall c s', get_col c t' = Some s' ->
    exists s, get_col c t = Some s /\ length s' <= length s.
Proof.
  rewrite run_validate_and_clean. apply validate_and_clean_shrinks.
Qed.

Lemma validate_and_clean_infinite_position :
  run_table (@validate_and_clean digits_only) infinite_position
  = Raise ValueError.
Proof. rewrite run_validate_and_clean. reflexivity. Qed.

Lemma validate_and_clean_only_error_witness :
  ValueError = ValueError /\
  exists s x, get_col "finishing_position" infinite_position = Some s /\
              In x s /\ is_infinite_cell (@to_numeric_cell digits_only x).
Proof.
  apply (@validate_and_clean_only_error digits_only infinite_position).
  exact validate_and_clean_infinite_position.
Defined.

Lemma validate_and_clean_adds_nothing_witness :
  columns (ranked_horse (CNum (Fin 18))) = columns (ranked_horse missing) /\
  forall c s', get_col c (ranked_horse (CNum (Fin 18))) = Some s' ->
    exists s, get_col c (ranked_horse missing) = Some s /\
              length s' <= length s.
Proof.
  apply (@validate_and_clean_adds_nothing digits_only).
  exact clean_missing_rank.
Defined.

Lemma cleaned_table_guarantees_witness :
  exists t',
    run_table (@validate_and_clean digits_only) (ranked_horse missing) = Ok t' /\
    (forall c s x, In c numeric_columns -> get_col c t' = Some s -> In x s ->
       exists f, x = CNum f) /\
    (forall c s x, In c essential_columns -> get_col c t' = Some s -> In x s ->
       isna x = false).
Proof.
  exists (ranked_horse (CNum (Fin 18))).
  split; [ exact clean_missing_rank | ].
  destruct (@cleaned_table_guarantees digits_only (ranked_horse missing)
              (ranked_horse (CNum (Fin 18))) clean_missing_rank)
    as (_ & _ & J3 & _ & J7 & _).
  split; assumption.
Defined.

(** ** [validate_race_data] *)

(** [validate_race_data] changes nothing: whatever the store and the
    reference it is called with, and whether it returns or raises, the
    store after the call is the store before it. *)
Theorem validate_race_data_reads_only (h : heap) (df : ref) :
  snd (validate_race_data df h) = h.
Proof.
  destruct (nth_error h df) as [t|] eqn:E.
  - rewrite (validate_race_data_table _ _ E). reflexivity.
  - unfold validate_race_data, get_columns, bind, load. rewrite E. reflexivity.
Qed.

Lemma duplicated_from_inv seen s :
  any (duplicated_from seen s) = true ->
  (exists j b a, nth_error s j = Some b /\ In a seen /\ same_key b a = true) \/
  (exists i j a b, i < j /\ nth_error s i = Some a /\ nth_error s j = Some b /\
                   same_key a b = true).
Proof.
  revert seen. induction s as [|c r IH]; intros seen H; [ discriminate | ].
  unfold any in *. simpl in H. apply orb_true_iff in H. destruct H as [H|H].
  - left. apply existsb_exists in H. destruct H as (a & Ha & Ka).
    exists 0, c, a. auto.
  - destruct (IH _ H) as [(j & b & a & Hj & Ha & K)|(i & j & a & b & L & Hi & Hj & K)].
    + destruct Ha as [<-|Ha].
      * right. exists 0, (S j), c, b. repeat split; auto; try lia.
        rewrite same_key_sym. exact K.
      * left. exists (S j), b, a. auto.
    + right. exists (S i), (S j), a, b. repeat split; auto. lia.
Qed.

Lemma no_duplicate_iff s :
  any (duplicated s) = false <->
  forall i j a b, i < j -> nth_error s i = Some a -> nth_error s j = Some b ->
    same_key a b = false.
Proof.
  split.
  - intros H i j a b L Hi Hj. destruct (same_key a b) eqn:K; auto.
    rewrite (@any_duplicated s i j a b L Hi Hj K) in H. discriminate.
  - intros H. destruct (any (duplicated s)) eqn:A; auto.
    apply duplicated_from_inv in A.
    destruct A as [(j & b & a & _ & [] & _)|(i & j & a & b & L & Hi & Hj & K)].
    rewrite (H i j a b L Hi Hj) in K. discriminate.
Qed.

Lemma no_mismatch_iff s m dc :
  series_max s = Ok m -> (py_ne m dc = false <-> greatest_of s dc).
Proof.
  intros Hm. split.
  - intros E. apply py_ne_false in E. destruct E as [<- N].
    destruct (series_max_spec _ Hm) as [[N' _]|G]; [ congruence | exact G ].
  - intros G. apply py_ne_false.
    destruct (series_max_spec _ Hm) as [[N A]|G'].
    + destruct G as (Nd & Id & _). rewrite (A _ Id) in Nd. discriminate.
    + assert (E : m = dc) by (eapply greatest_of_unique; eauto).
      split; auto. rewrite E. apply G.
Qed.

(** When a table has the column [horse_number], [validate_race_data]
    returns true exactly when the table has the column [horse_name], no
    two rows have the same horse number, and, where the table has the
    column [field_size], the field size it declares is the maximum horse
    number. *)
Theorem validate_race_data_true_iff (t : DataFrame) (s : Series)
  (res : bool * list violation) :
  get_col "horse_number" t = Some s ->
  run validate_race_data t = Ok res ->
  (fst res = true <->
   has_col "horse_name" t = true /\
   (forall i j a b, i < j -> nth_error s i = Some a -> nth_error s j = Some b ->
      same_key a b = false) /\
   (forall fs, get_col "field_size" t = Some fs ->
      greatest_of s (declared_size t fs))).
Proof.
  intros Hs. rewrite run_validate_race_data.
  unfold ValidatorTables.validate_race_data, ValidatorTables.validation_results,
    ValidatorTables.duplicate_check, ValidatorTables.field_size_check,
    ValidatorTables.declared_field_size, ValidatorTables.missing_columns.
  rewrite (has_col_get_col _ _ Hs), (col_get_col _ _ Hs).
  cbn [rbind flat_map required_columns app]. rewrite (has_col_get_col _ _ Hs).
  rewrite andb_true_r. rewrite <- no_duplicate_iff.
  destruct (get_col "field_size" t) as [fs|] eqn:Hf.
  - rewrite (has_col_get_col _ _ Hf), (col_get_col _ _ Hf).
    destruct (series_max s) as [m|e] eqn:Hm; cbn [rbind]; [ | discriminate ].
    assert (Hd : (if (0 <? nrows t)%nat
                  then Ok (hd missing fs)
                  else Ok (CNum (Fin 0))) = Ok (declared_size t fs)).
    { unfold declared_size. destruct (0 <? nrows t)%nat; reflexivity. }
    rewrite Hd. cbn [rbind]. clear Hd.
    pose proof (@no_mismatch_iff s m (declared_size t fs) Hm) as Hiff.
    intros [= <-]. cbn [fst].
    assert (Hfs : (forall fs', Some fs = Some fs' ->
                     greatest_of s (declared_size t fs'))
                  <-> py_ne m (declared_size t fs) = false).
    { split.
      - intros C. apply Hiff. apply C. reflexivity.
      - intros E fs' [= <-]. apply Hiff. exact E. }
    rewrite Hfs.
    destruct (has_col "horse_name" t), (any (duplicated s)),
      (py_ne m (declared_size t fs)); cbn [app]; intuition discriminate.
  - assert (Hh : has_col "field_size" t = false).
    { destruct (has_col "field_size" t) eqn:E; auto.
      apply has_col_get_col_iff in E. destruct E as [x E]. congruence. }
    rewrite Hh. cbn [rbind]. intros [= <-]. cbn [fst].
    destruct (has_col "horse_name" t), (any (duplicated s)); cbn [app];
      intuition discriminate.
Qed.

Lemma validate_race_data_true_iff_witness :
  fst (true, @nil violation) = true <->
  has_col "horse_name" one_horse = true /\
  (forall i j a b, i < j -> nth_error [CNum (Fin 1)] i = Some a ->
     nth_error [CNum (Fin 1)] j = Some b -> same_key a b = false) /\
  (forall fs, get_col "field_size" one_horse = Some fs ->
     greatest_of [CNum (Fin 1)] (declared_size one_horse fs)).
Proof.
  apply (@validate_race_data_true_iff one_horse [CNum (Fin 1)] (true, [])).
  - reflexivity.
  - exact validate_one_horse.
Defined.

(** A table with the columns [horse_number] and [field_size] and no row
    is never valid: the field size it declares is 0, the maximum of its
    horse numbers is missing, and the two are reported as a mismatch. *)
Theorem empty_race_is_invalid (t : DataFrame) :
  get_col "horse_number" t = Some [] ->
  has_col "field_size" t = true ->
  nrows t = 0 ->
  exists v, run validate_race_data t = Ok (false, v) /\
            In (FieldSizeMismatch (CNum (Fin 0)) missing) v.
Proof.
  intros Hs Hf Hn. rewrite run_validate_race_data.
  unfold ValidatorTables.validate_race_data, ValidatorTables.validation_results,
    ValidatorTables.duplicate_check, ValidatorTables.field_size_check,
    ValidatorTables.declared_field_size.
  rewrite (has_col_get_col _ _ Hs), (col_get_col _ _ Hs), Hf, Hn.
  cbn [rbind duplicated duplicated_from any existsb andb series_max as_floats
       mapR nanmax filter Nat.ltb Nat.leb py_ne feqb negb].
  set (v := ValidatorTables.missing_columns t ++
            [] ++ [FieldSizeMismatch (CNum (Fin 0)) (CNum NaN)]).
  exists v. split.
  - destruct v eqn:E; [ | reflexivity ].
    exfalso. unfold v in E. apply app_eq_nil in E. destruct E as [_ E].
    discriminate.
  - unfold v. apply in_or_app. right. left. reflexivity.
Qed.

Lemma empty_race_is_invalid_witness :
  exists v, run validate_race_data empty_race = Ok (false, v) /\
            In (FieldSizeMismatch (CNum (Fin 0)) missing) v.
Proof.
  apply empty_race_is_invalid; reflexivity.
Defined.

(** On a table without the column [horse_number], [validate_race_data]
    raises nothing and returns false; it reports the missing column, and
    the missing column [horse_name] if there is none, and nothing else: no
    other check is made. *)
Theorem validate_race_data_without_numbers (t : DataFrame) :
  has_col "horse_number" t = false ->
  run validate_race_data t
  = Ok (false,
        MissingColumn "horse_number"
        :: (if has_col "horse_name" t then [] else [MissingColumn "horse_name"])).
Proof.
  intros H. rewrite run_validate_race_data.
  unfold ValidatorTables.validate_race_data, ValidatorTables.validation_results,
    ValidatorTables.duplicate_check, ValidatorTables.field_size_check,
    ValidatorTables.missing_columns.
  rewrite H, andb_false_r.
  cbn [rbind flat_map required_columns app]. rewrite H.
  destruct (has_col "horse_name" t); reflexivity.
Qed.

Lemma validate_race_data_without_numbers_witness :
  run validate_race_data names_only
  = Ok (false,
        MissingColumn "horse_number"
        :: (if has_col "horse_name" names_only
            then [] else [MissingColumn "horse_name"])).
Proof.
  apply validate_race_data_without_numbers. reflexivity.
Defined.

(** * More on [class FeatureEngineer] *)

(** ** The score of a row *)


Lemma row_stats_by_race t agg xs keys i k :
  get_col "race_id" t = Some keys -> nth_error keys i = Some k ->
  nth_error (row_stats t agg xs) i
  = Some (if isna k then NaN else agg (group_values keys xs k)).
Proof.
  intros Hk Hi. unfold row_stats. rewrite Hk. unfold transform_floats.
  rewrite nth_error_map, Hi. reflexivity.
Qed.

(** The cell of a value of a group that has a standard deviation. *)
Lemma group_cell_score g rs x :
  filter notnan g = map Fin rs ->
  2 <= length rs -> sample_variance rs <> 0%R -> In x g ->
  fillna_cell (CNum (Fin 50)) (CNum (zscore x (nanmean g) (nanstd g)))
  = score_in rs x.
Proof.
  intros Hf N V Hx.
  assert (Nn : rs <> []) by (destruct rs; simpl in *; [ lia | discriminate ]).
  rewrite (@nanmean_fin _ rs Hf Nn), (@nanstd_fin _ rs Hf N).
  assert (I : notnan x = true -> exists r, x = Fin r).
  { intros Nx. assert (Hin' : In x (filter notnan g))
      by (apply filter_In; auto).
    rewrite Hf in Hin'. apply in_map_iff in Hin'.
    destruct Hin' as (r & <- & _). eauto. }
  destruct x as [r| | |].
  - unfold zscore. cbn [fsub fneg fadd].
    rewrite fdiv_fin by (apply sample_std_nonzero; auto).
    reflexivity.
  - destruct (I eq_refl) as [r Er]. discriminate.
  - destruct (I eq_refl) as [r Er]. discriminate.
  - reflexivity.
Qed.

Lemma normalized_group_scores t keys xs k rs :
  get_col "race_id" t = Some keys -> isna k = false ->
  filter notnan (group_values keys xs k) = map Fin rs ->
  2 <= length rs -> sample_variance rs <> 0%R ->
  group_values keys (normalized_column t xs) k
  = map (score_in rs) (group_values keys xs k).
Proof.
  intros Hk Nk Hf N V. rewrite (@normalized_group t keys xs k Hk Nk).
  apply map_ext_in. intros x Hx. apply group_cell_score; auto.
Qed.




(** ** Normalization over the whole table *)




(** ** Normalization within a race *)



(** A row whose [race_id] is missing belongs to no race: it holds 50 in
    every catalogue column after normalization, whatever it held. *)
Theorem missing_race_scores_50 (t t' : DataFrame) (c : string)
  (keys s s' : Series) (k x : cell) (i : nat) :
  run_table _standardize_numerical_features t = Ok t' ->
  In c catalogue ->
  get_col "race_id" t = Some keys ->
  get_col c t = Some s -> get_col c t' = Some s' ->
  nth_error keys i = Some k -> isna k = true ->
  nth_error s i = Some x ->
  nth_error s' i = Some (num 50).
Proof.
  intros H Hc Hk Hs Hs' Ki Nk Hi.
  destruct (@standardize_spec _ _ H) as (_ & _ & Hin).
  destruct (Hin c s Hc Hs) as [E G].
  assert (Es' : s' = normalized_column t (floats_of t c)) by congruence.
  rewrite E, nth_error_map in Hi.
  destruct (nth_error (floats_of t c) i) as [y|] eqn:Hy; [ | discriminate ].
  rewrite Es'.
  apply (@normalized_column_neutral t (floats_of t c) i y NaN Hy).
  - rewrite (@row_stats_by_race t nanstd (floats_of t c) keys i k Hk Ki), Nk.
    reflexivity.
  - left. reflexivity.
Qed.

Lemma standardize_exists_unknown_race :
  exists t', run_table _standardize_numerical_features unknown_race = Ok t'.
Proof.
  rewrite (run_table_transforms _ standardize_numerical_features_table).
  eexists. reflexivity.
Qed.

Lemma missing_race_scores_50_witness :
  exists t' s',
    run_table _standardize_numerical_features unknown_race = Ok t' /\
    get_col "age" t' = Some s' /\ nth_error s' 2 = Some (num 50).
Proof.
  destruct standardize_exists_unknown_race as [t' H].
  destruct (@standardize_spec _ _ H) as (_ & _ & Hin).
  destruct (Hin "age"%string _ age_in_catalogue eq_refl) as [_ G].
  exists t'. eexists. split; [ exact H | split; [ exact G | ] ].
  apply (@missing_race_scores_50 unknown_race t' "age"%string
           [CStr (py "R1"); CStr (py "R1"); missing] [num 1; num 3; num 7]
           _ missing (num 7) 2
           H age_in_catalogue eq_refl eq_refl G eq_refl eq_refl eq_refl).
Defined.

(** A table without a catalogue column is returned as it is by
    [_standardize_numerical_features], with or without a [race_id]. *)
Theorem standardize_without_catalogue (t : DataFrame) :
  (forall c, In c catalogue -> has_col c t = false) ->
  run_table _standardize_numerical_features t = Ok t.
Proof.
  intros H.
  rewrite (run_table_transforms _ standardize_numerical_features_table).
  assert (E : existing catalogue (columns t) = []).
  { destruct (existing catalogue (columns t)) as [|c cs] eqn:E; auto.
    assert (Hc : In c (existing catalogue (columns t)))
      by (rewrite E; left; reflexivity).
    apply existing_In in Hc. destruct Hc as [Hc Hin].
    apply has_col_In in Hin. rewrite (H c Hc) in Hin. discriminate. }
  unfold FeatureTables.standardize_numerical_features,
    FeatureTables.calculate_zscore_by_race, FeatureTables.calculate_global_zscore,
    FeatureTables.zscore_with.
  rewrite E. destruct (has_col "race_id" t); reflexivity.
Qed.

Lemma standardize_without_catalogue_witness :
  run_table _standardize_numerical_features one_horse = Ok one_horse.
Proof.
  apply standardize_without_catalogue.
  intros c Hc. unfold catalogue, zscore_features, index_features in Hc.
  simpl in Hc.
  repeat (destruct Hc as [<-|Hc]; [ reflexivity | ]). destruct Hc.
Defined.

(** ** Normalization returns *)

Lemma as_floats_returns s :
  (forall x, In x s -> exists f, x = CNum f) -> exists xs, as_floats s = Ok xs.
Proof.
  intros H. apply mapR_returns. intros x Hx.
  destruct (H x Hx) as [f ->]. simpl. eauto.
Qed.

Lemma stat_columns_returns (G : Series -> list float -> Series) t cols :
  (forall c, In c cols -> has_col c t = true) ->
  (forall c s x, In c cols -> get_col c t = Some s -> In x s ->
     exists f, x = CNum f) ->
  exists fr,
    mapR (fun c => match get_col c t with
                   | None => Raise (KeyError c)
                   | Some s => let* xs := as_floats s in Ok (c, G s xs)
                   end) cols = Ok fr.
Proof.
  intros Hh Hn. apply mapR_returns. intros c Hc.
  destruct (proj1 (has_col_get_col_iff c t) (Hh c Hc)) as [s Hs]. rewrite Hs.
  destruct (@as_floats_returns s) as [xs ->]; [ | cbn [rbind]; eauto ].
  intros x Hx. apply (Hn c s x Hc Hs Hx).
Qed.

Lemma zscore_with_returns stat colstat features t :
  stat_of stat colstat t ->
  (forall agg, exists fr, stat (existing features (columns t)) agg t = Ok fr) ->
  exists t', FeatureTables.zscore_with stat features t = Ok t'.
Proof.
  intros Hstat Hret. unfold FeatureTables.zscore_with.
  destruct (existing features (columns t)) as [|f fs] eqn:E; eauto.
  remember (f :: fs) as ex eqn:Eex. clear Eex.
  destruct (Hret nanmean) as [means Hm]. destruct (Hret nanstd) as [stds Hs].
  rewrite Hm, Hs. cbn [rbind].
  destruct (Hstat _ _ _ Hm) as [Em A]. destruct (Hstat _ _ _ Hs) as [Es _].
  assert (Hget : forall c, In c ex ->
            get_col c t = Some (map CNum (floats_of t c))).
  { intros c Hc. destruct (A c Hc) as (s & G & Eq). rewrite G, <- Eq. auto. }
  rewrite (select_columns_frame_of ex (fun c => map CNum (floats_of t c)) t Hget).
  cbn [rbind]. subst means stds.
  rewrite (deviation_score_frame_of ex (floats_of t)
             (fun c => colstat nanmean (floats_of t c))
             (fun c => colstat nanstd (floats_of t c))).
  cbn [rbind].
  set (S := fun c => map CNum (deviation_scores (floats_of t c)
                                 (colstat nanmean (floats_of t c))
                                 (colstat nanstd (floats_of t c)))).
  set (t2 := set_cols (frame_of ex S) t).
  assert (Hget2 : forall c, In c ex -> get_col c t2 = Some (S c)).
  { intros c Hc. unfold t2. rewrite get_col_set_cols.
    apply existsb_eqb_In in Hc. rewrite Hc. reflexivity. }
  rewrite (select_columns_frame_of ex S t2 Hget2). cbn [rbind].
  eauto.
Qed.

Lemma no_group_some_key keys :
  keys = [] \/ (exists k, In k keys /\ isna k = false) ->
  no_group keys = false.
Proof.
  intros [->|(k & Hk & Nk)]; [ reflexivity | ].
  destruct keys as [|k0 keys]; [ reflexivity | ].
  unfold no_group. destruct (forallb isna (k0 :: keys)) eqn:F; auto.
  rewrite forallb_forall in F. rewrite (F k Hk) in Nk. discriminate.
Qed.

Lemma standardize_returns t :
  (forall c s x, In c catalogue -> get_col c t = Some s -> In x s ->
     exists f, x = CNum f) ->
  (forall keys, get_col "race_id" t = Some keys ->
     existing catalogue (columns t) = [] \/ no_group keys = false) ->
  exists t', run_table _standardize_numerical_features t = Ok t'.
Proof.
  intros Hn Hg.
  rewrite (run_table_transforms _ standardize_numerical_features_table).
  unfold FeatureTables.standardize_numerical_features,
    FeatureTables.calculate_zscore_by_race, FeatureTables.calculate_global_zscore.
  assert (Hh : forall c, In c (existing catalogue (columns t)) ->
                         has_col c t = true).
  { intros c Hc. apply existing_In in Hc. apply has_col_In. tauto. }
  assert (Hx : forall c s x, In c (existing catalogue (columns t)) ->
                 get_col c t = Some s -> In x s -> exists f, x = CNum f).
  { intros c s x Hc. apply existing_In in Hc. apply Hn. tauto. }
  destruct (has_col "race_id" t) eqn:Hr.
  - apply has_col_get_col_iff in Hr. destruct Hr as [keys Hk].
    destruct (Hg keys Hk) as [E|Ng].
    { unfold FeatureTables.zscore_with. rewrite E. eauto. }
    apply (@zscore_with_returns (groupby_transform "race_id")
             (fun agg => transform_floats agg keys) catalogue t).
    + apply groupby_transform_stat_of; auto.
    + intros agg. unfold groupby_transform. rewrite Hk, Ng.
      apply (stat_columns_returns (fun _ xs => transform agg keys xs)); auto.
  - apply (@zscore_with_returns column_stat
             (fun agg xs => repeat (agg xs) (length xs)) catalogue t).
    + apply column_stat_stat_of.
    + intros agg. unfold column_stat.
      apply (stat_columns_returns
               (fun s xs => repeat (CNum (agg xs)) (length s))); auto.
Qed.

(** [_standardize_numerical_features] raises nothing on a table whose
    catalogue columns hold numbers only (a missing value is one) and
    which, when it has a column [race_id], has a row whose [race_id] is
    not missing. *)
Theorem standardize_returns_on_numbers (t : DataFrame) :
  (forall c s x, In c catalogue -> get_col c t = Some s -> In x s ->
     exists f, x = CNum f) ->
  (forall keys, get_col "race_id" t = Some keys ->
     exists k, In k keys /\ isna k = false) ->
  exists t', run_table _standardize_numerical_features t = Ok t'.
Proof.
  intros Hn Hg. apply standardize_returns; auto.
  intros keys Hk. right. apply no_group_some_key. right. auto.
Qed.

Lemma standardize_returns_on_numbers_witness :
  exists t', run_table _standardize_numerical_features unknown_race = Ok t'.
Proof.
  apply standardize_returns_on_numbers.
  - intros c s x Hc G Hx.
    assert (E : s = [num 1; num 3; num 7]).
    { unfold catalogue, zscore_features, index_features in Hc. simpl in Hc.
      repeat (destruct Hc as [<-|Hc];
              [ first [ discriminate G | injection G as <-; reflexivity ] | ]).
      destruct Hc. }
    subst s. simpl in Hx.
    destruct Hx as [<-|[<-|[<-|[]]]]; eexists; reflexivity.
  - intros keys G. injection G as <-.
    exists (CStr (py "R1")). split; [ left | ]; reflexivity.
Defined.

(** ** Normalizing twice *)

Lemma race_id_not_in_catalogue : ~ In "race_id"%string catalogue.
Proof.
  unfold catalogue, zscore_features, index_features. simpl.
  intuition discriminate.
Qed.

Lemma normalized_numbers t t' :
  run_table _standardize_numerical_features t = Ok t' ->
  forall c s x, In c catalogue -> get_col c t' = Some s -> In x s ->
    exists f, x = CNum f.
Proof.
  intros H c s x Hc G Hx.
  destruct (@standardize_spec _ _ H) as (Hcols & _ & Hin).
  assert (Hh : has_col c t = true).
  { apply has_col_In. rewrite <- Hcols. apply has_col_In.
    eapply has_col_get_col; eauto. }
  apply has_col_get_col_iff in Hh. destruct Hh as [s0 G0].
  destruct (Hin c s0 Hc G0) as [_ G'].
  assert (s = normalized_column t (floats_of t c)) by congruence. subst s.
  pose proof (normalized_column_finite t (floats_of t c)) as Fi.
  rewrite Forall_forall in Fi. destruct (Fi x Hx) as [r ->]. eauto.
Qed.

Lemma standardize_had_group t t' keys :
  run_table _standardize_numerical_features t = Ok t' ->
  get_col "race_id" t = Some keys ->
  existing catalogue (columns t) = [] \/ no_group keys = false.
Proof.
  rewrite (run_table_transforms _ standardize_numerical_features_table).
  unfold FeatureTables.standardize_numerical_features,
    FeatureTables.calculate_zscore_by_race.
  intros H Hk. rewrite (has_col_get_col _ _ Hk) in H.
  unfold FeatureTables.zscore_with in H.
  destruct (existing catalogue (columns t)) as [|f fs]; [ left; reflexivity | ].
  right. unfold groupby_transform in H. rewrite Hk in H.
  destruct (no_group keys); [ discriminate | reflexivity ].
Qed.

(** Normalization can be applied again to the table it has returned:
    where [_standardize_numerical_features] returns a table, it returns
    one on that table too. *)
Theorem normalization_twice (t t1 : DataFrame) :
  run_table _standardize_numerical_features t = Ok t1 ->
  exists t2, run_table _standardize_numerical_features t1 = Ok t2.
Proof.
  intros H. destruct (@standardize_spec _ _ H) as (Hcols & Hout & _).
  apply standardize_returns.
  - apply (@normalized_numbers t t1 H).
  - intros keys Hk. rewrite Hcols.
    rewrite (Hout _ race_id_not_in_catalogue) in Hk.
    apply (@standardize_had_group t t1 keys H Hk).
Qed.

Lemma normalization_twice_witness :
  exists t1 t2,
    run_table _standardize_numerical_features unknown_race = Ok t1 /\
    run_table _standardize_numerical_features t1 = Ok t2.
Proof.
  destruct standardize_exists_unknown_race as [t1 H]. exists t1.
  destruct (@normalization_twice unknown_race t1 H) as [t2 H2].
  exists t2. split; [ exact H | exact H2 ].
Defined.

(** ** Positions in full-width digits *)






(** ** The columns [create_features] assigns *)

Lemma columns_set_col_new c s t :
  has_col c t = false -> columns (set_col c s t) = columns t ++ [c].
Proof.
  unfold has_col, columns. induction t as [|[c' s'] t IH]; simpl; auto.
  rewrite String.eqb_sym.
  destruct (String.eqb_spec c' c) as [->|N]; simpl; [ discriminate | ].
  intros H. f_equal. apply IH. exact H.
Qed.

Lemma writes_set_col c (g : DataFrame -> result Series) :
  writes [c] (fun t => let* s := g t in Ok (set_col c s t)).
Proof.
  intros t t' H. split_result H. injection H as <-. split.
  - destruct (has_col c t) eqn:Hc.
    + exists []. rewrite app_nil_r. apply columns_set_col. exact Hc.
    + exists [c]. apply columns_set_col_new. exact Hc.
  - intros c0 N. rewrite get_col_set_col.
    destruct (String.eqb_spec c c0) as [->|_]; auto.
    exfalso. apply N. left. reflexivity.
Qed.

Lemma writes_id names : writes names (fun t => Ok t).
Proof.
  intros t t' [= <-]. split; auto. exists []. rewrite app_nil_r. reflexivity.
Qed.

Lemma writes_ext names f g :
  (forall t, f t = g t) -> writes names f -> writes names g.
Proof. intros E H t t' G. apply H. rewrite E. exact G. Qed.

Lemma writes_weaken names names' f :
  incl names names' -> writes names f -> writes names' f.
Proof.
  intros I H t t' G. destruct (H t t' G) as [A B]. split; auto.
Qed.

Lemma writes_if names (b : DataFrame -> bool) f g :
  writes names f -> writes names g ->
  writes names (fun t => if b t then f t else g t).
Proof. intros Hf Hg t t' H. destruct (b t); auto. Qed.

Lemma writes_bind n1 n2 f g :
  writes n1 f -> writes n2 g ->
  writes (n1 ++ n2) (fun t => let* t1 := f t in g t1).
Proof.
  intros Hf Hg t t' H. split_result H. rename a into t1.
  destruct (Hf t t1 E) as [[a1 C1] G1]. destruct (Hg t1 t' H) as [[a2 C2] G2].
  split.
  - exists (a1 ++ a2). rewrite C2, C1, app_assoc. reflexivity.
  - intros c N. rewrite G2, G1; auto; intros I; apply N, in_or_app; auto.
Qed.

Lemma writes_foldR A (names : A -> list string)
  (f : A -> DataFrame -> result DataFrame) xs :
  (forall x, writes (names x) (f x)) ->
  writes (flat_map names xs) (foldR f xs).
Proof.
  intros H. induction xs as [|x xs IH].
  - apply writes_id.
  - cbn [flat_map foldR]. apply writes_bind; auto.
Qed.

Section Writes.
Context {P : Pandas}.

Lemma writes_combine_columns g a b new :
  writes [new] (FeatureTables.combine_columns g a b new).
Proof.
  unfold FeatureTables.combine_columns.
  apply (writes_if (fun t => has_col a t && has_col b t));
    [ | apply writes_id ].
  apply (writes_ext (f := fun t => let* s := (let* x := col a t in
                                              let* y := col b t in g x y) in
                               Ok (set_col new s t))).
  - intros t. destruct (col a t); cbn [rbind]; auto.
    destruct (col b t); cbn [rbind]; auto.
  - apply writes_set_col.
Qed.

Lemma writes_convert_column g c : writes [c] (convert_column g c).
Proof.
  unfold convert_column.
  apply (writes_if (fun t => has_col c t)); [ | apply writes_id ].
  apply (writes_ext (f := fun t => let* s := (let* s := col c t in Ok (g s)) in
                               Ok (set_col c s t))).
  - intros t. destruct (col c t); reflexivity.
  - apply writes_set_col.
Qed.

Lemma writes_month_column c :
  writes [str_replace "_date" "_month" c] (FeatureTables.month_column c).
Proof.
  unfold FeatureTables.month_column.
  apply (writes_if (fun t => has_col c t)); [ | apply writes_id ].
  apply (writes_ext (f := fun t =>
           let* s := (let* s := col c t in
                      Ok (_extract_month_from_date s)) in
           Ok (set_col (str_replace "_date" "_month" c) s t))).
  - intros t. destruct (col c t); reflexivity.
  - apply writes_set_col.
Qed.

Lemma writes_popularity_gap :
  writes ["popularity_performance_gap"%string] FeatureTables.popularity_gap.
Proof.
  unfold FeatureTables.popularity_gap.
  apply (writes_if (fun t => has_col "last_race_popularity" t
                             && has_col "last_race_position" t));
    [ | apply writes_id ].
  apply (writes_ext (f := fun t =>
           let* s := (let* popularity := col "last_race_popularity" t in
                      let* position := col "last_race_position" t in
                      let* gap := series_op cell_sub popularity position in
                      let* field_size := col "last_race_field_size" t in
                      series_op cell_div gap field_size) in
           Ok (set_col "popularity_performance_gap" s t))).
  - intros t.
    destruct (col "last_race_popularity" t) as [x|]; cbn [rbind]; auto.
    destruct (col "last_race_position" t) as [y|]; cbn [rbind]; auto.
    destruct (series_op cell_sub x y) as [gap|]; cbn [rbind]; auto.
    destruct (col "last_race_field_size" t) as [z|]; cbn [rbind]; auto.
  - apply writes_set_col.
Qed.

Lemma writes_derive :
  writes derived_columns FeatureTables.derive.
Proof.
  unfold FeatureTables.derive, FeatureTables.create_temporal_features,
    FeatureTables.create_performance_features,
    FeatureTables.create_physical_features,
    FeatureTables.create_race_condition_features,
    FeatureTables.create_interaction_features.
  eapply writes_weaken;
    [ | repeat first
          [ apply (writes_foldR (fun c => [str_replace "_date" "_month" c]));
            apply writes_month_column
          | apply (writes_foldR (fun c : string => [c]));
            intros; apply writes_convert_column
          | apply (writes_foldR (fun cu : string * string =>
                     [String.append (fst cu) "_uphill_combined"]));
            intros; apply writes_combine_columns
          | apply (writes_foldR (fun tpn : string * string * string =>
                     [snd tpn]));
            intros; apply writes_combine_columns
          | apply writes_combine_columns
          | apply writes_popularity_gap
          | apply writes_bind ] ].
  intros c Hc. cbn in Hc.
  repeat (destruct Hc as [<-|Hc]; [ unfold derived_columns; simpl; auto 30 | ]).
  destruct Hc.
Qed.

End Writes.

(** [create_features] keeps the columns of its input in their places and
    adds its columns after them; a column that is neither one of the
    columns it derives or converts nor a catalogue column is in the
    result as it was. *)
Theorem create_features_assigns (P : Pandas) (t t' : DataFrame) :
  run_table create_features t = Ok t' ->
  (exists added, columns t' = columns t ++ added) /\
  (forall c, ~ In c derived_columns -> ~ In c catalogue ->
     get_col c t' = get_col c t).
Proof.
  rewrite run_create_features. intros H. split_result H. rename a into t1.
  destruct (writes_derive _ E) as [[added C1] G1].
  destruct (@standardize_spec _ _ H) as (C2 & G2 & _).
  split.
  - exists added. congruence.
  - intros c Nd Nc. rewrite (G2 c Nc). apply G1. exact Nd.
Qed.

Lemma derive_owner_table :
  @FeatureTables.derive digits_only owner_table = Ok owner_table.
Proof. reflexivity. Qed.

Lemma standardize_exists_owner_table :
  exists t', run_table _standardize_numerical_features owner_table = Ok t'.
Proof.
  rewrite (run_table_transforms _ standardize_numerical_features_table).
  eexists. reflexivity.
Qed.

Lemma create_features_assigns_witness :
  exists t',
    run_table (@create_features digits_only) owner_table = Ok t' /\
    (exists added, columns t' = columns owner_table ++ added) /\
    get_col "owner" t' = Some [CStr (py "X")].
Proof.
  destruct standardize_exists_owner_table as [t' H]. exists t'.
  assert (H' : run_table (@create_features digits_only) owner_table = Ok t').
  { rewrite run_create_features, derive_owner_table. exact H. }
  split; [ exact H' | ].
  destruct (@create_features_assigns digits_only owner_table t' H') as [A G].
  split; [ exact A | ].
  rewrite G; [ reflexivity | | ].
  - unfold derived_columns. simpl. intuition discriminate.
  - unfold catalogue, zscore_features, index_features. simpl.
    intuition discriminate.
Defined.

(** ** The only [KeyError] of [create_features] *)

Lemma key_safe_ok A (a : A) : key_safe (Ok a).
Proof. intros c. discriminate. Qed.

Lemma key_safe_bind A B (r : result A) (k : A -> result B) :
  key_safe r -> (forall a, r = Ok a -> key_safe (k a)) -> key_safe (rbind r k).
Proof.
  intros Hr Hk c. destruct r as [a|e]; cbn [rbind].
  - exact (Hk a eq_refl c).
  - intros E. injection E as ->. exact (Hr c eq_refl).
Qed.

Lemma key_safe_mapR A B (f : A -> result B) xs :
  (forall x, In x xs -> key_safe (f x)) -> key_safe (mapR f xs).
Proof.
  induction xs as [|x xs IH]; intros H; simpl; [ apply key_safe_ok | ].
  apply key_safe_bind; [ apply H; left; reflexivity | intros y _ ].
  apply key_safe_bind; [ apply IH; intros; apply H; right; auto | intros ys _ ].
  apply key_safe_ok.
Qed.

Lemma key_safe_col c t : has_col c t = true -> key_safe (col c t).
Proof.
  intros H. apply has_col_get_col_iff in H. destruct H as [s G].
  rewrite (col_get_col _ _ G). apply key_safe_ok.
Qed.

Lemma key_safe_cell_add a b : key_safe (cell_add a b).
Proof.
  intros c. destruct a as [[| | |]|], b as [[| | |]|]; discriminate.
Qed.

Lemma key_safe_cell_arith op a b : key_safe (cell_arith op a b).
Proof.
  intros c. destruct a as [[| | |]|], b as [[| | |]|]; discriminate.
Qed.

Lemma key_safe_series_op op a b :
  (forall x y, key_safe (op x y)) -> key_safe (series_op op a b).
Proof. intros H. apply key_safe_mapR. intros. apply H. Qed.

Lemma key_safe_series_op_scalar op a k :
  (forall x y, key_safe (op x y)) -> key_safe (series_op_scalar op a k).
Proof. intros H. apply key_safe_mapR. intros. apply H. Qed.

Lemma key_safe_as_floats s : key_safe (as_floats s).
Proof.
  apply key_safe_mapR. intros x _ c. destruct x; discriminate.
Qed.

Ltac key_safe_tac :=
  repeat first
    [ apply key_safe_ok
    | apply key_safe_cell_add
    | apply key_safe_cell_arith
    | apply key_safe_as_floats
    | apply key_safe_series_op; intros
    | apply key_safe_series_op_scalar; intros
    | apply key_safe_bind; [ | intros ? _ ] ].

Section KeySafe.
Context {P : Pandas}.

Lemma key_safe_astype_float s : key_safe (astype_float s).
Proof.
  apply key_safe_mapR. intros x _ c. destruct x as [f|u]; simpl.
  - discriminate.
  - destruct (float_of_str u); discriminate.
Qed.

Lemma key_safe_joined a b : key_safe (joined a b).
Proof. unfold joined. key_safe_tac. Qed.

Lemma key_safe_joined_text a b : key_safe (FeatureTables.joined_text a b).
Proof. unfold FeatureTables.joined_text. key_safe_tac. Qed.

Lemma key_safe_corner_uphill a b : key_safe (FeatureTables.corner_uphill a b).
Proof.
  unfold FeatureTables.corner_uphill.
  apply key_safe_bind; [ apply key_safe_astype_float | intros ? _ ].
  apply key_safe_bind; [ unfold cell_mul; key_safe_tac | intros ? _ ].
  apply key_safe_bind; [ apply key_safe_astype_float | intros ? _ ].
  key_safe_tac.
Qed.

Lemma key_safe_burden_ratio a b : key_safe (FeatureTables.burden_ratio a b).
Proof.
  unfold FeatureTables.burden_ratio, cell_div, cell_mul. key_safe_tac.
Qed.

Lemma key_safe_float_difference a b :
  key_safe (FeatureTables.float_difference a b).
Proof.
  unfold FeatureTables.float_difference, cell_sub.
  apply key_safe_bind; [ apply key_safe_astype_float | intros ? _ ].
  apply key_safe_bind; [ apply key_safe_astype_float | intros ? _ ].
  key_safe_tac.
Qed.

Lemma key_safe_combine_columns g a b new t :
  (forall x y, key_safe (g x y)) ->
  key_safe (FeatureTables.combine_columns g a b new t).
Proof.
  intros H. unfold FeatureTables.combine_columns.
  destruct (has_col a t) eqn:Ha, (has_col b t) eqn:Hb; cbn [andb];
    try apply key_safe_ok.
  apply key_safe_bind; [ apply key_safe_col; auto | intros x _ ].
  apply key_safe_bind; [ apply key_safe_col; auto | intros y _ ].
  apply key_safe_bind; [ apply H | intros s _; apply key_safe_ok ].
Qed.

Lemma key_safe_convert_column g c t : key_safe (convert_column g c t).
Proof. rewrite convert_column_shape. apply key_safe_ok. Qed.

Lemma key_safe_month_column c t : key_safe (FeatureTables.month_column c t).
Proof.
  unfold FeatureTables.month_column. destruct (has_col c t) eqn:H;
    [ | apply key_safe_ok ].
  apply key_safe_bind; [ apply key_safe_col; auto | intros; apply key_safe_ok ].
Qed.

Lemma key_safe_foldR A (f : A -> DataFrame -> result DataFrame) xs :
  (forall x t, key_safe (f x t)) -> forall t, key_safe (foldR f xs t).
Proof.
  intros H. induction xs as [|x xs IH]; intros t; simpl;
    [ apply key_safe_ok | ].
  apply key_safe_bind; [ apply H | intros; apply IH ].
Qed.

Lemma key_safe_temporal t : key_safe (FeatureTables.create_temporal_features t).
Proof.
  unfold FeatureTables.create_temporal_features.
  apply key_safe_bind;
    [ apply key_safe_foldR; intros; apply key_safe_month_column | intros ? _ ].
  apply key_safe_bind;
    [ apply key_safe_combine_columns; intros; apply key_safe_joined
    | intros ? _ ].
  apply key_safe_combine_columns. intros. key_safe_tac.
Qed.

Lemma key_safe_physical t : key_safe (FeatureTables.create_physical_features t).
Proof.
  unfold FeatureTables.create_physical_features.
  apply key_safe_bind;
    [ apply key_safe_combine_columns; intros; apply key_safe_burden_ratio
    | intros ? _ ].
  apply key_safe_bind;
    [ apply key_safe_combine_columns; intros; unfold cell_sub; key_safe_tac
    | intros ? _ ].
  apply key_safe_combine_columns. intros. apply key_safe_float_difference.
Qed.

Lemma key_safe_race_condition t :
  key_safe (FeatureTables.create_race_condition_features t).
Proof.
  unfold FeatureTables.create_race_condition_features.
  apply key_safe_bind;
    [ apply key_safe_combine_columns; intros; apply key_safe_joined_text
    | intros ? _ ].
  apply key_safe_bind;
    [ apply key_safe_foldR; intros; apply key_safe_combine_columns;
      intros; apply key_safe_joined_text
    | intros ? _ ].
  apply key_safe_combine_columns. intros. apply key_safe_joined.
Qed.

Lemma key_safe_interaction t :
  key_safe (FeatureTables.create_interaction_features t).
Proof.
  unfold FeatureTables.create_interaction_features.
  apply key_safe_combine_columns. intros. apply key_safe_joined.
Qed.

End KeySafe.

(** *** Normalization raises no [KeyError] *)

Section KeySafeScores.
Context {P : Pandas}.

Lemma key_safe_stat_columns (G : Series -> list float -> Series) t cols :
  (forall c, In c cols -> has_col c t = true) ->
  key_safe (mapR (fun c => match get_col c t with
                           | None => Raise (KeyError c)
                           | Some s => let* xs := as_floats s in Ok (c, G s xs)
                           end) cols).
Proof.
  intros H. apply key_safe_mapR. intros c Hc.
  destruct (proj1 (has_col_get_col_iff c t) (H c Hc)) as [s ->].
  key_safe_tac.
Qed.

Lemma zscore_with_after_stats stat colstat features t f fs means stds :
  stat_of stat colstat t ->
  existing features (columns t) = f :: fs ->
  stat (f :: fs) nanmean t = Ok means ->
  stat (f :: fs) nanstd t = Ok stds ->
  exists t', FeatureTables.zscore_with stat features t = Ok t'.
Proof.
  intros Hstat E Hm Hs. unfold FeatureTables.zscore_with. rewrite E.
  remember (f :: fs) as ex eqn:Eex. clear Eex E.
  rewrite Hm, Hs. cbn [rbind].
  destruct (Hstat _ _ _ Hm) as [Em A]. destruct (Hstat _ _ _ Hs) as [Es _].
  assert (Hget : forall c, In c ex ->
            get_col c t = Some (map CNum (floats_of t c))).
  { intros c Hc. destruct (A c Hc) as (s & G & Eq). rewrite G, <- Eq. auto. }
  rewrite (select_columns_frame_of ex (fun c => map CNum (floats_of t c)) t Hget).
  cbn [rbind]. subst means stds.
  rewrite (deviation_score_frame_of ex (floats_of t)
             (fun c => colstat nanmean (floats_of t c))
             (fun c => colstat nanstd (floats_of t c))).
  cbn [rbind].
  set (S := fun c => map CNum (deviation_scores (floats_of t c)
                                 (colstat nanmean (floats_of t c))
                                 (colstat nanstd (floats_of t c)))).
  set (t2 := set_cols (frame_of ex S) t).
  assert (Hget2 : forall c, In c ex -> get_col c t2 = Some (S c)).
  { intros c Hc. unfold t2. rewrite get_col_set_cols.
    apply existsb_eqb_In in Hc. rewrite Hc. reflexivity. }
  rewrite (select_columns_frame_of ex S t2 Hget2). cbn [rbind].
  eauto.
Qed.

Lemma key_safe_zscore_with stat colstat features t :
  stat_of stat colstat t ->
  (forall agg, key_safe (stat (existing features (columns t)) agg t)) ->
  key_safe (FeatureTables.zscore_with stat features t).
Proof.
  intros Hstat Hsafe.
  destruct (existing features (columns t)) as [|f fs] eqn:E.
  - unfold FeatureTables.zscore_with. rewrite E. apply key_safe_ok.
  - destruct (stat (f :: fs) nanmean t) as [means|e] eqn:Hm.
    + destruct (stat (f :: fs) nanstd t) as [stds|e] eqn:Hs.
      * destruct (zscore_with_after_stats features Hstat E Hm Hs) as [t' ->].
        apply key_safe_ok.
      * unfold FeatureTables.zscore_with. rewrite E, Hm, Hs. cbn [rbind].
        intros c F. injection F as ->. apply (Hsafe nanstd c). exact Hs.
    + unfold FeatureTables.zscore_with. rewrite E, Hm. cbn [rbind].
      intros c F. injection F as ->. apply (Hsafe nanmean c). exact Hm.
Qed.

Lemma key_safe_standardize t :
  key_safe (FeatureTables.standardize_numerical_features t).
Proof.
  unfold FeatureTables.standardize_numerical_features,
    FeatureTables.calculate_zscore_by_race, FeatureTables.calculate_global_zscore.
  assert (Hh : forall c, In c (existing catalogue (columns t)) ->
                         has_col c t = true).
  { intros c Hc. apply existing_In in Hc. apply has_col_In. tauto. }
  destruct (has_col "race_id" t) eqn:Hr.
  - apply has_col_get_col_iff in Hr. destruct Hr as [keys Hk].
    apply (@key_safe_zscore_with (groupby_transform "race_id")
             (fun agg => transform_floats agg keys) catalogue t).
    + apply groupby_transform_stat_of; auto.
    + intros agg. unfold groupby_transform. rewrite Hk.
      destruct (no_group keys); [ intros c; discriminate | ].
      apply (key_safe_stat_columns (fun _ xs => transform agg keys xs)); auto.
  - apply (@key_safe_zscore_with column_stat
             (fun agg xs => repeat (agg xs) (length xs)) catalogue t).
    + apply column_stat_stat_of.
    + intros agg. unfold column_stat.
      apply (key_safe_stat_columns
               (fun s xs => repeat (CNum (agg xs)) (length s))); auto.
Qed.

End KeySafeScores.

(** *** The columns a derivation looks for *)

Lemma has_col_same_get_col c t t' :
  get_col c t' = get_col c t -> has_col c t' = has_col c t.
Proof.
  intros E. destruct (has_col c t) eqn:H.
  - apply has_col_get_col_iff in H. destruct H as [s G].
    apply has_col_get_col_iff. exists s. congruence.
  - destruct (has_col c t') eqn:H'; auto.
    apply has_col_get_col_iff in H'. destruct H' as [s G].
    rewrite E in G. apply has_col_get_col in G. congruence.
Qed.

Lemma has_col_set_col_other c new s t :
  new <> c -> has_col c (set_col new s t) = has_col c t.
Proof.
  intros N. apply has_col_same_get_col. rewrite get_col_set_col.
  destruct (String.eqb_spec new c); [ contradiction | reflexivity ].
Qed.

Lemma keeps_col_bind c f g :
  keeps_col c f -> keeps_col c g ->
  keeps_col c (fun t => let* u := f t in g u).
Proof.
  intros Hf Hg t t' H. destruct (f t) as [u|e] eqn:E; cbn [rbind] in H;
    [ | discriminate ].
  rewrite (Hg _ _ H). apply (Hf _ _ E).
Qed.

Lemma keeps_col_foldR A c (f : A -> DataFrame -> result DataFrame) xs :
  (forall x, In x xs -> keeps_col c (f x)) -> keeps_col c (foldR f xs).
Proof.
  induction xs as [|x xs IH]; intros H t t' E; simpl in E.
  - injection E as <-. reflexivity.
  - destruct (f x t) as [u|e] eqn:Eu; cbn [rbind] in E; [ | discriminate ].
    rewrite (IH (fun y Hy => H y (or_intror Hy)) _ _ E).
    apply (H x (or_introl eq_refl) _ _ Eu).
Qed.

Section Keeps.
Context {P : Pandas}.

Lemma keeps_col_combine_columns c g a b new :
  new <> c -> keeps_col c (FeatureTables.combine_columns g a b new).
Proof.
  intros N t t' H. unfold FeatureTables.combine_columns in H.
  destruct (has_col a t && has_col b t).
  - destruct (col a t) as [x|]; cbn [rbind] in H; [ | discriminate ].
    destruct (col b t) as [y|]; cbn [rbind] in H; [ | discriminate ].
    destruct (g x y) as [s|]; cbn [rbind] in H; [ | discriminate ].
    injection H as <-. apply has_col_set_col_other; auto.
  - injection H as <-. reflexivity.
Qed.

Lemma keeps_col_convert_column c g d : keeps_col c (convert_column g d).
Proof.
  intros t t' H. rewrite convert_column_shape in H. injection H as <-.
  destruct (get_col d t) as [s|] eqn:G; auto.
  unfold has_col. rewrite (@columns_set_col d (g s) t); auto.
  eapply has_col_get_col; eauto.
Qed.

Lemma keeps_col_month_column c d :
  str_replace "_date" "_month" d <> c ->
  keeps_col c (FeatureTables.month_column d).
Proof.
  intros N t t' H. unfold FeatureTables.month_column in H.
  destruct (has_col d t).
  - destruct (col d t) as [s|]; cbn [rbind] in H; [ | discriminate ].
    injection H as <-. apply has_col_set_col_other; auto.
  - injection H as <-. reflexivity.
Qed.

(** The columns the gap is computed from are there or not before the
    derivations as they are when the gap is reached. *)
Lemma keeps_col_before_gap c t t1 t2 t3 :
  In c ["last_race_popularity"; "last_race_position";
        "last_race_field_size"]%string ->
  FeatureTables.create_temporal_features t = Ok t1 ->
  foldR (convert_column _convert_position_to_numeric) position_features t1
  = Ok t2 ->
  foldR (fun cu => FeatureTables.combine_columns FeatureTables.corner_uphill
                     (fst cu) (snd cu)
                     (String.append (fst cu) "_uphill_combined"))
    corner_uphill_features t2 = Ok t3 ->
  has_col c t3 = has_col c t.
Proof.
  intros Hc E1 E2 E3.
  assert (K1 : keeps_col c FeatureTables.create_temporal_features).
  { unfold FeatureTables.create_temporal_features.
    apply (@keeps_col_bind c (foldR FeatureTables.month_column date_columns)).
    - apply keeps_col_foldR. intros d Hd. apply keeps_col_month_column.
      cbn in Hc, Hd.
      repeat (destruct Hd as [<-|Hd]; [ | ]);
        try (destruct Hd);
        repeat (destruct Hc as [<-|Hc]; [ vm_compute; discriminate | ]);
        destruct Hc.
    - apply (@keeps_col_bind c
               (FeatureTables.combine_columns _ "race_month" "gender"
                  "month_gender_combination")).
      + apply keeps_col_combine_columns. cbn in Hc.
        repeat (destruct Hc as [<-|Hc]; [ discriminate | ]). destruct Hc.
      + apply keeps_col_combine_columns. cbn in Hc.
        repeat (destruct Hc as [<-|Hc]; [ discriminate | ]). destruct Hc. }
  assert (K2 : keeps_col c
                 (foldR (convert_column _convert_position_to_numeric)
                    position_features)).
  { apply keeps_col_foldR. intros. apply keeps_col_convert_column. }
  assert (K3 : keeps_col c
                 (foldR (fun cu => FeatureTables.combine_columns
                                     FeatureTables.corner_uphill
                                     (fst cu) (snd cu)
                                     (String.append (fst cu) "_uphill_combined"))
                    corner_uphill_features)).
  { apply keeps_col_foldR. intros cu Hcu. apply keeps_col_combine_columns.
    cbn in Hc, Hcu.
    repeat (destruct Hcu as [<-|Hcu]; [ | ]);
      try (destruct Hcu);
      repeat (destruct Hc as [<-|Hc]; [ vm_compute; discriminate | ]);
      destruct Hc. }
  rewrite (K3 _ _ E3), (K2 _ _ E2). apply (K1 _ _ E1).
Qed.

Lemma popularity_gap_key_error t c :
  FeatureTables.popularity_gap t = Raise (KeyError c) ->
  c = "last_race_field_size"%string /\
  has_col "last_race_popularity" t = true /\
  has_col "last_race_position" t = true /\
  has_col "last_race_field_size" t = false.
Proof.
  unfold FeatureTables.popularity_gap. intros H.
  destruct (has_col "last_race_popularity" t) eqn:H1;
    [ | cbn [andb] in H; discriminate ].
  destruct (has_col "last_race_position" t) eqn:H2;
    [ | cbn [andb] in H; discriminate ].
  cbn [andb] in H.
  destruct (proj1 (has_col_get_col_iff _ _) H1) as [p Gp].
  destruct (proj1 (has_col_get_col_iff _ _) H2) as [q Gq].
  rewrite (col_get_col _ _ Gp), (col_get_col _ _ Gq) in H. cbn [rbind] in H.
  destruct (series_op cell_sub p q) as [gap|e] eqn:Eg; cbn [rbind] in H.
  - destruct (has_col "last_race_field_size" t) eqn:H3.
    + exfalso.
      destruct (proj1 (has_col_get_col_iff _ _) H3) as [f Gf].
      rewrite (col_get_col _ _ Gf) in H. cbn [rbind] in H.
      revert H. apply key_safe_bind;
        [ apply key_safe_series_op; intros; unfold cell_div; key_safe_tac
        | intros; apply key_safe_ok ].
    + unfold col in H.
      destruct (get_col "last_race_field_size" t) as [f|] eqn:Gf.
      * apply has_col_get_col in Gf. congruence.
      * cbn [rbind] in H. injection H as <-. auto.
  - exfalso. injection H as ->. revert Eg.
    apply key_safe_series_op. intros. unfold cell_sub. key_safe_tac.
Qed.

End Keeps.

(** The only [KeyError] [create_features] raises is the one of the
    popularity gap: the column named is [last_race_field_size], and the
    input has [last_race_popularity] and [last_race_position] and not
    [last_race_field_size].  Every other column a derivation or the
    normalization reads is looked for first. *)
Theorem create_features_only_key_error (P : Pandas) (t : DataFrame) (c : string) :
  run_table create_features t = Raise (KeyError c) ->
  c = "last_race_field_size"%string /\
  has_col "last_race_popularity" t = true /\
  has_col "last_race_position" t = true /\
  has_col "last_race_field_size" t = false.
Proof.
  rewrite (run_table_transforms _ create_features_table).
  unfold FeatureTables.create_features, FeatureTables.derive. intros H.
  destruct (FeatureTables.create_temporal_features t) as [t1|e] eqn:E1;
    cbn [rbind] in H;
    [ | exfalso; injection H as ->; exact (key_safe_temporal t E1) ].
  unfold FeatureTables.create_performance_features in H.
  destruct (foldR (convert_column _convert_position_to_numeric)
              position_features t1) as [t2|e] eqn:E2; cbn [rbind] in H;
    [ | exfalso; injection H as ->; revert E2;
        apply key_safe_foldR; intros; apply key_safe_convert_column ].
  match type of H with
  | rbind (rbind (rbind ?a _) _) _ = _ => destruct a as [t3|e] eqn:E3
  end; cbn [rbind] in H;
    [ | exfalso; injection H as ->; revert E3;
        apply key_safe_foldR; intros; apply key_safe_combine_columns;
        intros; apply key_safe_corner_uphill ].
  destruct (FeatureTables.popularity_gap t3) as [t4|e] eqn:E4;
    cbn [rbind] in H.
  - exfalso. revert H.
    apply key_safe_bind; [ | intros; apply key_safe_standardize ].
    apply key_safe_bind; [ apply key_safe_physical | intros ? _ ].
    apply key_safe_bind; [ apply key_safe_race_condition | intros ? _ ].
    apply key_safe_interaction.
  - injection H as ->.
    destruct (popularity_gap_key_error _ E4) as (-> & H1 & H2 & H3).
    rewrite <- (@keeps_col_before_gap P "last_race_popularity" t t1 t2 t3),
            <- (@keeps_col_before_gap P "last_race_position" t t1 t2 t3),
            <- (@keeps_col_before_gap P "last_race_field_size" t t1 t2 t3);
      auto; cbn; auto.
Qed.

Lemma create_features_gap_table (P : Pandas) :
  run_table create_features gap_table = Raise (KeyError "last_race_field_size").
Proof.
  rewrite (run_table_transforms _ create_features_table).
  unfold FeatureTables.create_features, FeatureTables.derive.
  assert (E1 : FeatureTables.create_temporal_features gap_table = Ok gap_table)
    by reflexivity.
  rewrite E1. cbn [rbind].
  unfold FeatureTables.create_performance_features.
  assert (E2 : foldR (convert_column _convert_position_to_numeric)
            position_features gap_table
          = Ok [("last_race_popularity"%string, [CNum (Fin 1)]);
                ("last_race_position"%string, [CNum (Fin 2)])]).
  { cbn. unfold to_numeric_cell.
    change (translate fullwidth_table (py "2")) with (py "2").
    rewrite str_to_float_2. reflexivity. }
  rewrite E2. cbn [rbind].
  reflexivity.
Qed.

Lemma create_features_only_key_error_witness :
  run_table (@create_features digits_only) gap_table
  = Raise (KeyError "last_race_field_size") /\
  ("last_race_field_size"%string = "last_race_field_size"%string /\
   has_col "last_race_popularity" gap_table = true /\
   has_col "last_race_position" gap_table = true /\
   has_col "last_race_field_size" gap_table = false).
Proof.
  split.
  - apply create_features_gap_table.
  - apply (@create_features_only_key_error digits_only gap_table).
    apply create_features_gap_table.
Defined.

(** ** The rows of [create_features] *)

Lemma has_rows_set_col n c s t :
  has_rows n t -> length s = n -> has_rows n (set_col c s t).
Proof.
  intros H L d u G. rewrite get_col_set_col in G.
  destruct (String.eqb c d).
  - injection G as <-. exact L.
  - apply (H d u G).
Qed.

Lemma has_rows_col n c s t : has_rows n t -> col c t = Ok s -> length s = n.
Proof.
  intros H E. unfold col in E. destruct (get_col c t) as [u|] eqn:G.
  - injection E as <-. apply (H c u G).
  - discriminate.
Qed.

Lemma keeps_rows_bind f g :
  keeps_rows f -> keeps_rows g -> keeps_rows (fun t => let* u := f t in g u).
Proof.
  intros Hf Hg n t t' R H. destruct (f t) as [u|e] eqn:E; cbn [rbind] in H;
    [ | discriminate ].
  apply (Hg n u t'); auto. apply (Hf n t u); auto.
Qed.

Lemma keeps_rows_foldR A (f : A -> DataFrame -> result DataFrame) xs :
  (forall x, keeps_rows (f x)) -> keeps_rows (foldR f xs).
Proof.
  intros H. induction xs as [|x xs IH]; intros n t t' R E; simpl in E.
  - injection E as <-. exact R.
  - destruct (f x t) as [u|e] eqn:Eu; cbn [rbind] in E; [ | discriminate ].
    apply (IH n u t'); auto. apply (H x n t u); auto.
Qed.

Lemma length_series_op op a b s :
  series_op op a b = Ok s -> length a = length b -> length s = length a.
Proof.
  intros H L. unfold series_op in H. apply mapR_length in H.
  rewrite H, length_combine. lia.
Qed.

Lemma length_series_op_scalar op a k s :
  series_op_scalar op a k = Ok s -> length s = length a.
Proof. intros H. apply mapR_length in H. exact H. Qed.

Section Rows.
Context {P : Pandas}.

Lemma length_astype_float a s : astype_float a = Ok s -> length s = length a.
Proof. intros H. apply mapR_length in H. exact H. Qed.

Lemma length_astype_str a : length (astype_str a) = length a.
Proof. apply length_map. Qed.

Lemma length_convert_position s :
  length (_convert_position_to_numeric s) = length s.
Proof.
  unfold _convert_position_to_numeric, to_numeric, astype_str.
  rewrite !length_map. reflexivity.
Qed.

Lemma same_length_series_op op : same_length (series_op op).
Proof. intros a b s H L. apply (length_series_op _ _ _ H L). Qed.

Lemma same_length_joined : same_length joined.
Proof.
  intros a b s H L. unfold joined in H.
  destruct (series_op_scalar cell_add a underscore) as [a_|] eqn:E;
    cbn [rbind] in H; [ | discriminate ].
  apply length_series_op_scalar in E.
  apply length_series_op in H; lia.
Qed.

Lemma same_length_joined_text : same_length FeatureTables.joined_text.
Proof.
  intros a b s H L. unfold FeatureTables.joined_text in H.
  destruct (series_op_scalar cell_add a underscore) as [a_|] eqn:E;
    cbn [rbind] in H; [ | discriminate ].
  apply length_series_op_scalar in E.
  apply length_series_op in H; rewrite ?length_astype_str; lia.
Qed.

Lemma same_length_month_gender :
  same_length (fun m g => joined (astype_str m) (astype_str g)).
Proof.
  intros a b s H L. apply same_length_joined in H;
    rewrite !length_astype_str in *; auto.
Qed.

Lemma same_length_corner_uphill : same_length FeatureTables.corner_uphill.
Proof.
  intros a b s H L. unfold FeatureTables.corner_uphill in H.
  destruct (astype_float a) as [a'|] eqn:Ea; cbn [rbind] in H;
    [ | discriminate ].
  destruct (series_op_scalar cell_mul a' (CNum (Fin (8 / 10)))) as [w|] eqn:Ew;
    cbn [rbind] in H; [ | discriminate ].
  destruct (astype_float b) as [b'|] eqn:Eb; cbn [rbind] in H;
    [ | discriminate ].
  apply length_astype_float in Ea, Eb. apply length_series_op_scalar in Ew.
  apply length_series_op in H; lia.
Qed.

Lemma same_length_burden_ratio : same_length FeatureTables.burden_ratio.
Proof.
  intros a b s H L. unfold FeatureTables.burden_ratio in H.
  destruct (series_op cell_div a b) as [r|] eqn:Er; cbn [rbind] in H;
    [ | discriminate ].
  apply length_series_op in Er; auto.
  apply length_series_op_scalar in H. lia.
Qed.

Lemma same_length_float_difference : same_length FeatureTables.float_difference.
Proof.
  intros a b s H L. unfold FeatureTables.float_difference in H.
  destruct (astype_float a) as [a'|] eqn:Ea; cbn [rbind] in H;
    [ | discriminate ].
  destruct (astype_float b) as [b'|] eqn:Eb; cbn [rbind] in H;
    [ | discriminate ].
  apply length_astype_float in Ea, Eb.
  apply length_series_op in H; lia.
Qed.

Lemma keeps_rows_combine_columns g a b new :
  same_length g -> keeps_rows (FeatureTables.combine_columns g a b new).
Proof.
  intros Hg n t t' R H. unfold FeatureTables.combine_columns in H.
  destruct (has_col a t && has_col b t).
  - destruct (col a t) as [x|] eqn:Ex; cbn [rbind] in H; [ | discriminate ].
    destruct (col b t) as [y|] eqn:Ey; cbn [rbind] in H; [ | discriminate ].
    destruct (g x y) as [s|] eqn:Es; cbn [rbind] in H; [ | discriminate ].
    injection H as <-.
    pose proof (has_rows_col _ R Ex) as Lx.
    pose proof (has_rows_col _ R Ey) as Ly.
    apply has_rows_set_col; auto.
    rewrite (Hg x y s Es); lia.
  - injection H as <-. exact R.
Qed.

Lemma keeps_rows_convert_column g c :
  (forall s, length (g s) = length s) -> keeps_rows (convert_column g c).
Proof.
  intros Hg n t t' R H. rewrite convert_column_shape in H. injection H as <-.
  destruct (get_col c t) as [s|] eqn:G; auto.
  apply has_rows_set_col; auto. rewrite Hg. apply (R c s G).
Qed.

Lemma keeps_rows_month_column c :
  (forall s, length (month_of_dates s) = length s) ->
  keeps_rows (FeatureTables.month_column c).
Proof.
  intros Hm n t t' R H. unfold FeatureTables.month_column in H.
  destruct (has_col c t).
  - destruct (col c t) as [s|] eqn:Es; cbn [rbind] in H; [ | discriminate ].
    injection H as <-. apply has_rows_set_col; auto.
    unfold _extract_month_from_date. rewrite Hm.
    apply (has_rows_col _ R Es).
  - injection H as <-. exact R.
Qed.

Lemma keeps_rows_popularity_gap : keeps_rows FeatureTables.popularity_gap.
Proof.
  intros n t t' R H. unfold FeatureTables.popularity_gap in H.
  destruct (has_col "last_race_popularity" t && has_col "last_race_position" t).
  - destruct (col "last_race_popularity" t) as [p|] eqn:Ep; cbn [rbind] in H;
      [ | discriminate ].
    destruct (col "last_race_position" t) as [q|] eqn:Eq; cbn [rbind] in H;
      [ | discriminate ].
    destruct (series_op cell_sub p q) as [gap|] eqn:Eg; cbn [rbind] in H;
      [ | discriminate ].
    destruct (col "last_race_field_size" t) as [f|] eqn:Ef; cbn [rbind] in H;
      [ | discriminate ].
    destruct (series_op cell_div gap f) as [s|] eqn:Es; cbn [rbind] in H;
      [ | discriminate ].
    injection H as <-.
    pose proof (has_rows_col _ R Ep) as Lp.
    pose proof (has_rows_col _ R Eq) as Lq.
    pose proof (has_rows_col _ R Ef) as Lf.
    apply length_series_op in Eg; [ | lia ].
    apply length_series_op in Es; [ | lia ].
    apply has_rows_set_col; auto. lia.
  - injection H as <-. exact R.
Qed.

Lemma keeps_rows_derive :
  (forall s, length (month_of_dates s) = length s) ->
  keeps_rows FeatureTables.derive.
Proof.
  intros Hm.
  unfold FeatureTables.derive, FeatureTables.create_temporal_features,
    FeatureTables.create_performance_features,
    FeatureTables.create_physical_features,
    FeatureTables.create_race_condition_features,
    FeatureTables.create_interaction_features.
  repeat first
    [ apply keeps_rows_popularity_gap
    | apply keeps_rows_month_column; exact Hm
    | apply keeps_rows_convert_column; apply length_convert_position
    | apply keeps_rows_combine_columns
    | apply keeps_rows_foldR; intros
    | apply same_length_series_op
    | apply same_length_joined
    | apply same_length_joined_text
    | apply same_length_month_gender
    | apply same_length_corner_uphill
    | apply same_length_burden_ratio
    | apply same_length_float_difference
    | apply keeps_rows_bind ].
Qed.

End Rows.

Lemma keeps_rows_standardize :
  keeps_rows (run_table _standardize_numerical_features).
Proof.
  intros n t t' R H. destruct (@standardize_spec _ _ H) as (Hc & Hout & Hin).
  intros c s' G'.
  destruct (in_dec string_dec c catalogue) as [Hcat|Hcat].
  - assert (Hh : has_col c t = true).
    { unfold has_col. rewrite <- Hc. eapply has_col_get_col; eauto. }
    apply has_col_get_col_iff in Hh. destruct Hh as [s G].
    destruct (Hin c s Hcat G) as [E G2]. rewrite G2 in G'.
    injection G' as <-. rewrite length_normalized_column.
    + rewrite <- (R c s G), E, length_map. reflexivity.
    + intros keys Hk. rewrite (R _ _ Hk).
      rewrite <- (R c s G), E, length_map. reflexivity.
  - rewrite (Hout c Hcat) in G'. apply (R c s' G').
Qed.

(** [create_features] neither drops nor adds a row: where the month
    extraction gives a month for every date (as pandas' does), and every
    column of the input has [n] cells, every column of the result, given or
    derived, has [n] cells. *)
Theorem create_features_keeps_rows (P : Pandas) (n : nat) (t t' : DataFrame) :
  (forall s, length (month_of_dates s) = length s) ->
  (forall c s, get_col c t = Some s -> length s = n) ->
  run_table create_features t = Ok t' ->
  forall c s, get_col c t' = Some s -> length s = n.
Proof.
  intros Hm R H. rewrite run_create_features in H.
  destruct (FeatureTables.derive t) as [t1|e] eqn:E; cbn [rbind] in H;
    [ | discriminate ].
  apply (@keeps_rows_standardize n t1 t'); auto.
  apply (@keeps_rows_derive P Hm n t t1); auto.
Qed.

Lemma derive_field_size_table :
  @FeatureTables.derive digits_only field_size_table
  = Ok (field_size_table
        ++ [("field_size_change"%string, [num (8 - 10); num (8 - 12)])]).
Proof. reflexivity. Qed.

Lemma create_features_field_size_table :
  run_table (@create_features digits_only) field_size_table
  = Ok (field_size_table
        ++ [("field_size_change"%string, [num (8 - 10); num (8 - 12)])]).
Proof.
  rewrite run_create_features, derive_field_size_table. cbn [rbind].
  rewrite (run_table_transforms _ standardize_numerical_features_table).
  reflexivity.
Qed.

Lemma create_features_keeps_rows_witness :
  exists t' s,
    run_table (@create_features digits_only) field_size_table = Ok t' /\
    get_col "field_size_change" t' = Some s /\ length s = 2%nat.
Proof.
  exists (field_size_table
          ++ [("field_size_change"%string, [num (8 - 10); num (8 - 12)])]),
         [num (8 - 10); num (8 - 12)].
  split; [ apply create_features_field_size_table | ].
  split; [ reflexivity | ].
  apply (@create_features_keeps_rows digits_only 2 field_size_table
           (field_size_table
            ++ [("field_size_change"%string, [num (8 - 10); num (8 - 12)])])
           (fun s => length_map _ s)) with (c := "field_size_change"%string);
    [ | apply create_features_field_size_table | reflexivity ].
  intros c u Hc. unfold field_size_table in Hc. cbn [get_col] in Hc.
  destruct (String.eqb "field_size" c); [ injection Hc as <-; reflexivity | ].
  destruct (String.eqb "last_race_field_size" c);
    [ injection Hc as <-; reflexivity | discriminate ].
Defined.

(** * The rank columns in [_handle_missing_values] *)

Lemma same_key_text_eq u x : same_key (CStr u) x = true -> x = CStr u.
Proof.
  destruct x as [f|v]; simpl; [ destruct f; discriminate | ].
  intros H. apply pystr_eqb_eq in H. congruence.
Qed.

Lemma holds_value_spec x :
  holds_value x = negb (isna x) && negb (same_key (CStr (py "")) x).
Proof.
  destruct x as [[| | |]|[|a u]]; reflexivity.
Qed.

Lemma rank_cell_after_handled x : rank_cell_handled x (rank_cell_after x).
Proof.
  unfold rank_cell_handled, rank_cell_after, DataValidator.rank_replacement.
  repeat split.
  - intros ->. reflexivity.
  - intros ->. reflexivity.
  - intros ->. reflexivity.
  - intros H N. rewrite holds_value_spec in H. apply andb_prop in H.
    destruct H as [H1 H2]. cbn [replace_cell].
    destruct (same_key (CStr (py "0")) x) eqn:E0.
    { apply same_key_text_eq in E0. congruence. }
    destruct (same_key missing x) eqn:E1.
    { destruct x as [[| | |]|]; simpl in *; discriminate. }
    destruct (same_key (CStr (py "")) x); [ discriminate | reflexivity ].
Qed.

Lemma essential_not_replaced c :
  In c DataValidator.essential_columns ->
  dict_get DataValidator.position_replacements c = None.
Proof.
  unfold DataValidator.essential_columns. intros H.
  repeat (destruct H as [<-|H]; [ reflexivity | ]). destruct H.
Qed.

Lemma isna_handled_essential c x :
  In c DataValidator.essential_columns ->
  negb (isna (handled_cell c x)) = holds_value x.
Proof.
  intros H. unfold handled_cell. rewrite (essential_not_replaced H).
  rewrite holds_value_spec. cbn [replace_cell].
  destruct (same_key (CStr (py "")) x) eqn:E.
  - rewrite andb_false_r. reflexivity.
  - rewrite andb_true_r. reflexivity.
Qed.

Lemma nrows_map (F : string -> Series -> Series) t :
  (forall c s, length (F c s) = length s) ->
  nrows (map (fun cs => (fst cs, F (fst cs) (snd cs))) t) = nrows t.
Proof. intros H. destruct t as [|[c s] t]; simpl; auto. Qed.

(** The mask of [dropna], column by column. *)
Lemma notna_mask_kept cols t :
  incl cols DataValidator.essential_columns ->
  let u := map (fun cs => (fst cs, map (handled_cell (fst cs)) (snd cs))) t in
  notna_mask (filter (fun c => has_col c u) cols) u
  = Ok (fold_right (fun c m => match get_col c t with
                               | Some s => map2 andb (map holds_value s) m
                               | None => m
                               end) (repeat true (nrows t)) cols).
Proof.
  intros I u.
  assert (Hn : nrows u = nrows t).
  { apply (nrows_map (fun c => map (handled_cell c))). intros. apply length_map. }
  assert (Hg : forall c, get_col c u
                         = option_map (map (handled_cell c)) (get_col c t)).
  { intros c. apply (get_col_map (fun c => map (handled_cell c))). }
  induction cols as [|c cols IH]; simpl.
  - rewrite Hn. reflexivity.
  - assert (Ic : incl cols DataValidator.essential_columns)
      by (intros x Hx; apply I; right; exact Hx).
    destruct (has_col c u) eqn:Hc.
    + apply has_col_get_col_iff in Hc. destruct Hc as [s' Hs'].
      cbn [notna_mask]. rewrite Hs', (IH Ic). cbn [rbind].
      rewrite Hg in Hs'. destruct (get_col c t) as [s|]; [ | discriminate ].
      injection Hs' as <-. rewrite map_map. f_equal. f_equal.
      apply map_ext. intros x. apply isna_handled_essential.
      apply I. left. reflexivity.
    + rewrite (IH Ic).
      destruct (get_col c t) as [s|] eqn:G; auto.
      assert (has_col c u = true).
      { apply has_col_get_col_iff. rewrite Hg, G. simpl. eauto. }
      congruence.
Qed.

(** The same mask, row by row. *)
Lemma repeat_true_seq n k : repeat true n = map (fun _ => true) (seq k n).
Proof. revert k. induction n; intros k; simpl; [ | rewrite (IHn (S k)) ]; auto. Qed.

Lemma map2_and_rows (h : cell -> bool) s : forall (g : nat -> bool),
  map2 andb (map h s) (map g (seq 0 (length s)))
  = map (fun i => match nth_error s i with
                  | Some x => h x
                  | None => true
                  end && g i) (seq 0 (length s)).
Proof.
  induction s as [|x s IH]; intros g; simpl; auto.
  f_equal. rewrite <- seq_shift, !map_map. apply IH.
Qed.

Lemma mask_by_rows t cols :
  rectangular t ->
  fold_right (fun c m => match get_col c t with
                         | Some s => map2 andb (map holds_value s) m
                         | None => m
                         end) (repeat true (nrows t)) cols
  = map (fun i => forallb (fun c => match get_col c t with
                                    | Some s => match nth_error s i with
                                                | Some x => holds_value x
                                                | None => true
                                                end
                                    | None => true
                                    end) cols) (seq 0 (nrows t)).
Proof.
  intros R. induction cols as [|c cols IH]; simpl.
  - apply repeat_true_seq.
  - rewrite IH. destruct (get_col c t) as [s|] eqn:G; auto.
    rewrite <- (@rectangular_length _ _ _ R G). apply map2_and_rows.
Qed.

Lemma select_on_rows m (s : Series) : select m s = on_rows m s.
Proof.
  unfold on_rows. revert s.
  induction m as [|b m IH]; intros [|x s]; simpl; auto.
  destruct b; simpl; rewrite IH; reflexivity.
Qed.

(** C7. In [_handle_missing_values], on a table whose columns all have
    the length of the table, the rows kept are those where every one of
    [horse_name], [track_name] and [distance] that the table has holds
    neither a missing value nor the empty text; and on these rows, in
    their order, every corner or final-furlong-rank column of the fixed
    list that the table has holds the missing value where it held the
    text ["0"] (or the empty text), 18 where it held a missing value, and
    what it held everywhere else. *)
Theorem rank_columns_missing_values (t t' : DataFrame) :
  rectangular t ->
  run_table DataValidator._handle_missing_values t = Ok t' ->
  forall c s, In c rank_columns -> get_col c t = Some s ->
    exists s', get_col c t' = Some s' /\
               Forall2 rank_cell_handled (on_rows (kept_rows t) s) s'.
Proof.
  intros R. rewrite (run_table_transforms _ handle_missing_values_table).
  unfold ValidatorTables.handle_missing_values. cbv zeta.
  intros H c s Hc Hs.
  pose proof (@notna_mask_kept DataValidator.essential_columns t
                (incl_refl _)) as K.
  cbv zeta in K. rewrite <- handled_table in K.
  rewrite (mask_by_rows _ R) in K.
  change (map _ (seq 0 (nrows t))) with (kept_rows t) in K.
  set (t1 := replace_value (CStr (py "")) missing
               (replace_columnwise DataValidator.position_replacements t)) in *.
  assert (G1 : get_col c t1 = Some (map rank_cell_after s)).
  { apply get_col_rank_replaced; auto. }
  rewrite <- select_on_rows.
  destruct (filter (fun c => has_col c t1) DataValidator.essential_columns)
    as [|e es] eqn:E.
  - injection H as <-. exists (map rank_cell_after s). split; [ exact G1 | ].
    cbn [notna_mask] in K.
    assert (nrows t1 = nrows t).
    { unfold t1. rewrite handled_table.
      apply (nrows_map (fun c => map (handled_cell c))).
      intros. apply length_map. }
    injection K as K. rewrite <- K, H, select_all.
    + apply Forall2_map_r. apply rank_cell_after_handled.
    + rewrite (@rectangular_length _ _ _ R Hs). lia.
  - rewrite K in H. cbn [rbind] in H. injection H as <-.
    exists (select (kept_rows t) (map rank_cell_after s)). split.
    + rewrite get_col_filter_rows, G1. reflexivity.
    + rewrite select_map. apply Forall2_map_r. apply rank_cell_after_handled.
Qed.

Lemma handle_corner_table :
  run_table DataValidator._handle_missing_values corner_table
  = Ok [("horse_name"%string, [CStr (py "A"); CStr (py "C"); CStr (py "D")]);
        ("last_race_corner2"%string, [missing; CNum (Fin 18); CNum (Fin 5)])].
Proof.
  rewrite (run_table_transforms _ handle_missing_values_table).
  unfold ValidatorTables.handle_missing_values. cbn -[feqb].
  change (feqb NaN (Fin 3)) with false. change (feqb NaN (Fin 5)) with false.
  cbn. reflexivity.
Qed.

Lemma rank_columns_missing_values_witness :
  run_table DataValidator._handle_missing_values corner_table
  = Ok [("horse_name"%string, [CStr (py "A"); CStr (py "C"); CStr (py "D")]);
        ("last_race_corner2"%string, [missing; CNum (Fin 18); CNum (Fin 5)])]
  /\ on_rows (kept_rows corner_table)
        [CStr (py "0"); CNum (Fin 3); missing; CNum (Fin 5)]
      = [CStr (py "0"); missing; CNum (Fin 5)]
  /\ exists s',
       get_col "last_race_corner2"
         [("horse_name"%string, [CStr (py "A"); CStr (py "C"); CStr (py "D")]);
          ("last_race_corner2"%string, [missing; CNum (Fin 18); CNum (Fin 5)])]
       = Some s' /\
       Forall2 rank_cell_handled
         (on_rows (kept_rows corner_table)
            [CStr (py "0"); CNum (Fin 3); missing; CNum (Fin 5)]) s'.
Proof.
  split; [ exact handle_corner_table | split; [ reflexivity | ] ].
  apply (@rank_columns_missing_values corner_table _
           ltac:(repeat constructor) handle_corner_table
           "last_race_corner2"%string).
  - unfold rank_columns. simpl. auto.
  - reflexivity.
Defined.

(** * The normalization in binary64 *)

Import Binary64.

(** ** Columns of numbers *)

Lemma as_floats_map_b s xs : as_floats s = Ok xs -> s = map BNum xs.
Proof.
  intros H. apply mapR_Forall2 in H.
  induction H as [|c x s xs Hc _ IH]; simpl; auto.
  destruct c; simpl in Hc; inversion Hc; subst; f_equal; exact IH.
Qed.

Lemma series_op_nums_b f a b :
  series_op (cell_arith f) (map BNum a) (map BNum b)
  = Ok (map BNum (map2 f a b)).
Proof.
  unfold series_op. revert b.
  induction a as [|x a IH]; intros [|y b]; simpl; auto.
  rewrite IH. reflexivity.
Qed.

Lemma series_op_scalar_nums_b f a k :
  series_op_scalar (cell_arith f) (map BNum a) (BNum k)
  = Ok (map BNum (map (fun x => f x k) a)).
Proof.
  unfold series_op_scalar. induction a as [|x a IH]; simpl; auto.
  rewrite IH. reflexivity.
Qed.

(** ** Tables that hold one column for each name of a list *)

Lemma frame_op_frame_of_b op ex F G H :
  (forall c, In c ex -> series_op op (F c) (G c) = Ok (H c)) ->
  frame_op op (frame_of ex F) (frame_of ex G) = Ok (frame_of ex H).
Proof.
  intros E. unfold frame_op, frame_of. rewrite combine_map_same, mapR_map.
  apply mapR_ok. intros c Hc. simpl. rewrite (E c Hc). reflexivity.
Qed.

Lemma frame_op_scalar_frame_of_b op k ex F H :
  (forall c, In c ex -> series_op_scalar op (F c) k = Ok (H c)) ->
  frame_op_scalar op (frame_of ex F) k = Ok (frame_of ex H).
Proof.
  intros E. unfold frame_op_scalar, frame_of. rewrite mapR_map.
  apply mapR_ok. intros c Hc. simpl. rewrite (E c Hc). reflexivity.
Qed.

Lemma frame_fillna_frame_of_b v ex F :
  frame_fillna v (frame_of ex F) = frame_of ex (fun c => fillna v (F c)).
Proof. unfold frame_fillna, frame_of. rewrite map_map. reflexivity. Qed.

Lemma select_columns_frame_of_b ex F t :
  (forall c, In c ex -> get_col c t = Some (F c)) ->
  select_columns ex t = Ok (frame_of ex F).
Proof.
  intros E. unfold select_columns, frame_of. apply mapR_ok.
  intros c Hc. rewrite (E c Hc). reflexivity.
Qed.

Lemma deviation_score_frame_of_b ex xs ms ss :
  deviation_score (frame_of ex (fun c => map BNum (xs c)))
                  (frame_of ex (fun c => map BNum (ms c)))
                  (frame_of ex (fun c => map BNum (ss c)))
  = Ok (frame_of ex (fun c => map BNum (deviation_scores (xs c) (ms c) (ss c)))).
Proof.
  unfold deviation_score.
  rewrite (frame_op_frame_of_b (cell_arith sub) ex _ _
             (fun c => map BNum (map2 sub (xs c) (ms c))))
    by (intros; apply series_op_nums_b).
  cbn [rbind].
  rewrite (frame_op_frame_of_b (cell_arith div) ex _ _
             (fun c => map BNum (map2 div (map2 sub (xs c) (ms c)) (ss c))))
    by (intros; apply series_op_nums_b).
  cbn [rbind].
  rewrite (frame_op_scalar_frame_of_b (cell_arith mul) (BNum (of_Z 10)) ex _
             (fun c => map BNum (map (fun x => mul x (of_Z 10))
                                   (map2 div (map2 sub (xs c) (ms c)) (ss c)))))
    by (intros; apply series_op_scalar_nums_b).
  cbn [rbind].
  rewrite (frame_op_scalar_frame_of_b (cell_arith add) (BNum (of_Z 50)) ex _
             (fun c => map BNum (deviation_scores (xs c) (ms c) (ss c)))).
  - reflexivity.
  - intros c Hc. rewrite series_op_scalar_nums_b. unfold deviation_scores.
    rewrite !map_map. reflexivity.
Qed.

(** ** Assigning columns *)

Lemma get_col_set_col_b c c' s t :
  get_col c (set_col c' s t) = if String.eqb c' c then Some s else get_col c t.
Proof.
  induction t as [|[d u] t IH]; simpl.
  - destruct (String.eqb c' c); reflexivity.
  - destruct (String.eqb_spec d c') as [->|N]; simpl.
    + destruct (String.eqb c' c); reflexivity.
    + rewrite IH. destruct (String.eqb_spec d c) as [->|N'].
      * destruct (String.eqb_spec c' c); congruence.
      * reflexivity.
Qed.

Lemma columns_set_col_b c s t :
  has_col c t = true -> columns (set_col c s t) = columns t.
Proof.
  unfold has_col, columns. induction t as [|[d u] t IH]; simpl; try discriminate.
  destruct (String.eqb_spec d c) as [->|N]; simpl; auto.
  destruct (String.eqb_spec c d); [ congruence | ]. simpl.
  intros H. rewrite IH; auto.
Qed.

Lemma has_col_In_b c t : has_col c t = true <-> In c (columns t).
Proof.
  unfold has_col. rewrite existsb_exists. split.
  - intros (x & Hx & E). apply String.eqb_eq in E. subst; auto.
  - intros H. exists c. split; auto. apply String.eqb_refl.
Qed.

Lemma has_col_get_col_b c t s : get_col c t = Some s -> has_col c t = true.
Proof.
  unfold has_col, columns. induction t as [|[c' s'] t IH]; simpl; try discriminate.
  destruct (String.eqb c' c) eqn:E.
  - rewrite String.eqb_sym, E. reflexivity.
  - intros H. rewrite (IH H). apply orb_true_r.
Qed.

Lemma has_col_get_col_iff_b c t :
  has_col c t = true <-> exists s, get_col c t = Some s.
Proof.
  split.
  - unfold has_col, columns.
    induction t as [|[c' s'] t IH]; simpl; [ discriminate | ].
    rewrite String.eqb_sym. destruct (String.eqb c' c); simpl; eauto.
  - intros [s H]. eapply has_col_get_col_b; eauto.
Qed.

Lemma get_col_set_cols_b ex F c t :
  get_col c (set_cols (frame_of ex F) t)
  = if existsb (String.eqb c) ex then Some (F c) else get_col c t.
Proof.
  unfold set_cols, frame_of. revert t.
  induction ex as [|d ex IH]; intros t; simpl; auto.
  rewrite IH, get_col_set_col_b.
  destruct (String.eqb_spec c d) as [->|N]; simpl.
  - rewrite String.eqb_refl. destruct (existsb (String.eqb d) ex); reflexivity.
  - destruct (String.eqb_spec d c); [ congruence | reflexivity ].
Qed.

Lemma columns_set_cols_b ex F t :
  (forall c, In c ex -> has_col c t = true) ->
  columns (set_cols (frame_of ex F) t) = columns t.
Proof.
  unfold set_cols, frame_of. revert t.
  induction ex as [|d ex IH]; intros t H; simpl; auto.
  rewrite IH.
  - apply columns_set_col_b. apply H. left; reflexivity.
  - intros c Hc. apply has_col_In_b. rewrite columns_set_col_b.
    + apply has_col_In_b. apply H. right; auto.
    + apply H. left; reflexivity.
Qed.

Lemma get_col_In_b c t s : get_col c t = Some s -> In (c, s) t.
Proof.
  induction t as [|[d u] t IH]; simpl; try discriminate.
  destruct (String.eqb_spec d c) as [->|N].
  - intros H. inversion H. auto.
  - auto.
Qed.

Lemma rectangular_length_b t c s :
  rectangular t -> get_col c t = Some s -> length s = nrows t.
Proof.
  intros R H. apply get_col_In_b in H. unfold rectangular in R.
  rewrite Forall_forall in R. apply (R _ H).
Qed.

(** ** The statistics *)

Lemma floats_of_numeric_b t c s xs :
  get_col c t = Some s -> as_floats s = Ok xs ->
  floats_of t c = xs /\ s = map BNum xs.
Proof.
  intros Hs Hx. unfold floats_of. rewrite Hs, Hx. split; auto.
  apply as_floats_map_b; auto.
Qed.

Lemma transform_nums_b agg keys xs :
  transform agg keys xs = map BNum (transform_floats agg keys xs).
Proof.
  unfold transform, transform_floats. rewrite map_map. apply map_ext.
  intros k. destruct (isna k); reflexivity.
Qed.

Lemma mapR_numeric_columns_b (G : Series -> list b64 -> Series) t cols fr :
  mapR (fun c => match get_col c t with
                 | None => Raise (KeyError c)
                 | Some s => let* xs := as_floats s in Ok (c, G s xs)
                 end) cols = Ok fr ->
  fr = frame_of cols (fun c => G (map BNum (floats_of t c)) (floats_of t c)) /\
  forall c, In c cols ->
    exists s, get_col c t = Some s /\ s = map BNum (floats_of t c).
Proof.
  revert fr. induction cols as [|c cols IH]; simpl; intros fr H.
  - inversion H. split; auto. intros c [].
  - destruct (get_col c t) as [s|] eqn:Hs; simpl in H; try discriminate.
    destruct (as_floats s) as [xs|e] eqn:Hx; simpl in H; try discriminate.
    destruct (mapR _ cols) as [fr'|e] eqn:Hr; simpl in H; try discriminate.
    inversion H; subst; clear H.
    destruct (IH _ eq_refl) as [E A].
    destruct (@floats_of_numeric_b _ _ _ _ Hs Hx) as [Ef Es].
    split.
    + unfold frame_of in *. simpl. rewrite Ef, <- Es, <- E. reflexivity.
    + intros c' [<-|Hc'].
      * exists s. rewrite Ef. auto.
      * apply A; auto.
Qed.

Lemma groupby_transform_stat_of_b t keys :
  get_col "race_id" t = Some keys ->
  stat_of_b (groupby_transform "race_id")
    (fun agg => transform_floats agg keys) t.
Proof.
  intros Hk cols agg fr H. unfold groupby_transform in H. rewrite Hk in H.
  destruct (no_group keys); [ discriminate | ].
  apply (mapR_numeric_columns_b (fun _ xs => transform agg keys xs)) in H.
  destruct H as [E A]. split; auto.
  rewrite E. unfold frame_of. apply map_ext. intros c.
  rewrite transform_nums_b. reflexivity.
Qed.

Lemma column_stat_stat_of_b t :
  stat_of_b column_stat (fun agg xs => repeat (agg xs) (length xs)) t.
Proof.
  intros cols agg fr H. unfold column_stat in H.
  apply (mapR_numeric_columns_b
           (fun s xs => repeat (BNum (agg xs)) (length s))) in H.
  destruct H as [E A]. split; auto.
  rewrite E. unfold frame_of. apply map_ext. intros c.
  rewrite length_map, repeat_map. reflexivity.
Qed.

(** ** The table after normalization *)

Lemma zscore_with_spec_b stat rows mean std features t t' :
  stat_of_b stat rows t ->
  zscore_with_b stat mean std features t = Ok t' ->
  columns t' = columns t /\
  (forall c, ~ In c (FeatureEngineer.existing features (columns t)) ->
     get_col c t' = get_col c t) /\
  (forall c, In c (FeatureEngineer.existing features (columns t)) ->
     get_col c t = Some (map BNum (floats_of t c)) /\
     get_col c t'
     = Some (fillna (BNum (of_Z 50))
               (map BNum (deviation_scores (floats_of t c)
                            (rows mean (floats_of t c))
                            (rows std (floats_of t c)))))).
Proof.
  intros Hstat. unfold zscore_with_b.
  destruct (FeatureEngineer.existing features (columns t)) as [|f fs] eqn:E.
  - intros H. inversion H; subst.
    split; [ reflexivity | split; [ reflexivity | intros c [] ] ].
  - remember (f :: fs) as ex eqn:Eex. clear Eex.
    destruct (stat ex mean t) as [means|e] eqn:Hm; cbn [rbind];
      [ | discriminate ].
    destruct (stat ex std t) as [stds|e] eqn:Hs; cbn [rbind];
      [ | discriminate ].
    destruct (Hstat _ _ _ Hm) as [Em A]. destruct (Hstat _ _ _ Hs) as [Es _].
    assert (Hget : forall c, In c ex ->
              get_col c t = Some (map BNum (floats_of t c))).
    { intros c Hc. destruct (A c Hc) as (s & G & Eq). rewrite G, <- Eq. auto. }
    rewrite (select_columns_frame_of_b ex
               (fun c => map BNum (floats_of t c)) t Hget).
    cbn [rbind]. subst means stds.
    rewrite (deviation_score_frame_of_b ex (floats_of t)
               (fun c => rows mean (floats_of t c))
               (fun c => rows std (floats_of t c))).
    cbn [rbind].
    set (S := fun c => map BNum (deviation_scores (floats_of t c)
                                   (rows mean (floats_of t c))
                                   (rows std (floats_of t c)))).
    set (t2 := set_cols (frame_of ex S) t).
    assert (Hhas : forall c, In c ex -> has_col c t = true).
    { intros c Hc. apply has_col_get_col_iff_b. eauto. }
    assert (Hget2 : forall c, In c ex -> get_col c t2 = Some (S c)).
    { intros c Hc. unfold t2. rewrite get_col_set_cols_b.
      apply existsb_eqb_In in Hc. rewrite Hc. reflexivity. }
    rewrite (select_columns_frame_of_b ex S t2 Hget2). cbn [rbind].
    rewrite frame_fillna_frame_of_b.
    intros H. injection H as <-.
    split; [ | split ].
    + rewrite columns_set_cols_b.
      * unfold t2. apply columns_set_cols_b; auto.
      * intros c Hc. apply has_col_In_b. unfold t2.
        rewrite columns_set_cols_b; auto. apply has_col_In_b; auto.
    + intros c Hc. rewrite get_col_set_cols_b.
      destruct (existsb (String.eqb c) ex) eqn:X.
      * apply existsb_eqb_In in X. tauto.
      * unfold t2. rewrite get_col_set_cols_b, X. reflexivity.
    + intros c Hc. split; auto.
      rewrite get_col_set_cols_b. apply existsb_eqb_In in Hc. rewrite Hc.
      reflexivity.
Qed.

Lemma calculate_zscore_by_race_with (A : Aggregates) t features :
  _calculate_zscore_by_race t features
  = zscore_with_b (groupby_transform "race_id") group_mean group_std features t.
Proof.
  unfold _calculate_zscore_by_race, zscore_with_b. cbv zeta.
  destruct (FeatureEngineer.existing features (columns t)); reflexivity.
Qed.

Lemma calculate_global_zscore_with (A : Aggregates) t features :
  _calculate_global_zscore t features
  = zscore_with_b column_stat column_mean column_std features t.
Proof.
  unfold _calculate_global_zscore, zscore_with_b. cbv zeta.
  destruct (FeatureEngineer.existing features (columns t)); reflexivity.
Qed.

Lemma fillna_nums_b v zs :
  fillna (BNum v) (map BNum zs)
  = map (fun z => BNum (if is_nan z then v else z)) zs.
Proof.
  unfold fillna. rewrite map_map. apply map_ext. intros z.
  unfold fillna_cell. simpl. destruct (is_nan z); reflexivity.
Qed.

Lemma has_col_race_id_b t :
  has_col "race_id" t = false -> get_col "race_id" t = None.
Proof.
  intros H. destruct (get_col "race_id" t) eqn:G; auto.
  apply has_col_get_col_b in G. congruence.
Qed.

(** The table of [_standardize_numerical_features]. *)
Lemma standardize_spec_b (A : Aggregates) t t' :
  _standardize_numerical_features t = Ok t' ->
  columns t' = columns t /\
  (forall c, ~ In c FeatureEngineer.catalogue -> get_col c t' = get_col c t) /\
  (forall c s, In c FeatureEngineer.catalogue -> get_col c t = Some s ->
     s = map BNum (floats_of t c) /\
     get_col c t' = Some (normalized_column t (floats_of t c))).
Proof.
  unfold _standardize_numerical_features. cbv zeta. intros H.
  assert (Hspec :
    columns t' = columns t /\
    (forall c, ~ In c (FeatureEngineer.existing FeatureEngineer.catalogue
                         (columns t)) ->
       get_col c t' = get_col c t) /\
    (forall c, In c (FeatureEngineer.existing FeatureEngineer.catalogue
                       (columns t)) ->
       get_col c t = Some (map BNum (floats_of t c)) /\
       get_col c t' = Some (normalized_column t (floats_of t c)))).
  { destruct (has_col "race_id" t) eqn:Hr.
    - apply has_col_get_col_iff_b in Hr. destruct Hr as [keys Hk].
      rewrite calculate_zscore_by_race_with in H.
      destruct (@zscore_with_spec_b _ _ _ _ _ _ _
                  (@groupby_transform_stat_of_b t keys Hk) H)
        as (Hc & Hout & Hin).
      split; [ exact Hc | split; [ exact Hout | ] ].
      intros c Hex. destruct (Hin c Hex) as [G G']. split; [ exact G | ].
      rewrite G', fillna_nums_b. unfold normalized_column, row_stats.
      rewrite Hk. reflexivity.
    - rewrite calculate_global_zscore_with in H.
      destruct (@zscore_with_spec_b _ _ _ _ _ _ _
                  (@column_stat_stat_of_b t) H)
        as (Hc & Hout & Hin).
      split; [ exact Hc | split; [ exact Hout | ] ].
      intros c Hex. destruct (Hin c Hex) as [G G']. split; [ exact G | ].
      rewrite G', fillna_nums_b. unfold normalized_column, row_stats.
      rewrite (@has_col_race_id_b _ Hr). reflexivity. }
  destruct Hspec as (Hc & Hout & Hin).
  split; [ exact Hc | split ].
  - intros c Hn. apply Hout. rewrite existing_In. tauto.
  - intros c s Hcat Hs.
    assert (Hex : In c (FeatureEngineer.existing FeatureEngineer.catalogue
                          (columns t))).
    { rewrite existing_In. split; auto. apply has_col_In_b.
      eapply has_col_get_col_b; eauto. }
    destruct (Hin c Hex) as [G G']. split; [ congruence | exact G' ].
Qed.

Lemma length_row_stats_b t f g xs :
  (forall keys, get_col "race_id" t = Some keys -> length keys = length xs) ->
  length (row_stats t f g xs) = length xs.
Proof.
  intros H. unfold row_stats. destruct (get_col "race_id" t) as [keys|].
  - unfold transform_floats. rewrite length_map. auto.
  - apply repeat_length.
Qed.

Lemma length_normalized_column_b (A : Aggregates) t xs :
  (forall keys, get_col "race_id" t = Some keys -> length keys = length xs) ->
  length (normalized_column t xs) = length xs.
Proof.
  intros H. unfold normalized_column, deviation_scores.
  rewrite !length_map, !length_map2, !length_row_stats_b; auto. lia.
Qed.

(** C10.  Normalization overwrites in place, in the arithmetic of the
    floating dtype and whatever the aggregations compute: on a table
    whose columns all have the length of the table,
    [_standardize_numerical_features] returns a table with the same
    column names in the same order (no new column), whose columns outside
    the catalogue are those of the input, whose catalogue columns hold
    numbers and are replaced by their deviation scores
    [(x - mean) / std * 10 + 50], with 50 where the score is NaN (the raw
    values are kept nowhere), and whose columns all have the length they
    had (no row is dropped). *)
Theorem standardize_overwrites_in_place (A : Aggregates) (t t' : DataFrame) :
  rectangular t ->
  _standardize_numerical_features t = Ok t' ->
  columns t' = columns t /\
  (forall c, ~ In c FeatureEngineer.catalogue -> get_col c t' = get_col c t) /\
  (forall c s, In c FeatureEngineer.catalogue -> get_col c t = Some s ->
     exists xs, s = map BNum xs /\
                get_col c t' = Some (normalized_column t xs)) /\
  (forall c s s', get_col c t = Some s -> get_col c t' = Some s' ->
     length s' = length s).
Proof.
  intros R H. destruct (@standardize_spec_b A _ _ H) as (Hc & Hout & Hin).
  split; [ exact Hc | split; [ exact Hout | split ] ].
  - intros c s Hcat Hs. destruct (Hin c s Hcat Hs) as [E G].
    exists (floats_of t c). auto.
  - intros c s s' Hs Hs'.
    destruct (in_dec string_dec c FeatureEngineer.catalogue) as [Hcat|Hcat].
    + destruct (Hin c s Hcat Hs) as [E G]. rewrite G in Hs'.
      inversion Hs'; subst s'; clear Hs'.
      rewrite length_normalized_column_b.
      * rewrite E, length_map. reflexivity.
      * intros keys Hk. rewrite (@rectangular_length_b _ _ _ R Hk).
        rewrite <- (@rectangular_length_b _ _ _ R Hs).
        rewrite E, length_map. reflexivity.
    + rewrite (Hout c Hcat) in Hs'. congruence.
Qed.

Lemma standardize_two_horses_b :
  @_standardize_numerical_features grouped two_horses
  = Ok [("race_id"%string, [BStr (py "R1"); BStr (py "R1")]);
        ("age"%string,
         [BNum (S754_finite false 6041710093934248 (-47));
          BNum (S754_finite false 8032038741598552 (-47))])].
Proof. vm_compute. reflexivity. Qed.

Lemma standardize_overwrites_in_place_witness :
  exists t',
    @_standardize_numerical_features grouped two_horses = Ok t' /\
    columns t' = columns two_horses /\
    get_col "race_id" t' = get_col "race_id" two_horses /\
    exists s', get_col "age" t' = Some s' /\ length s' = 2%nat.
Proof.
  eexists. split; [ exact standardize_two_horses_b | ].
  destruct (@standardize_overwrites_in_place grouped two_horses _
              ltac:(repeat constructor) standardize_two_horses_b)
    as (Hc & Hout & Hin & Hlen).
  split; [ exact Hc | split ].
  - apply Hout. unfold FeatureEngineer.catalogue,
      FeatureEngineer.zscore_features, FeatureEngineer.index_features.
    simpl. intuition discriminate.
  - eexists. split; [ reflexivity | ].
    apply (Hlen "age"%string [BNum (of_Z 1); BNum (of_Z 3)]); reflexivity.
Defined.

(** ** A race whose horses all hold the same value *)

Lemma level_race_statistics :
  kahan_mean [tenth; tenth; tenth] = S754_finite false 7205759403792795 (-56) /\
  tenth = S754_finite false 7205759403792794 (-56) /\
  welford_std [tenth; tenth; tenth] = zero.
Proof. vm_compute. auto. Qed.

(** C1.  A catalogue column is not always a finite number or 50 after
    [create_features].  On a race of three horses that all hold one tenth
    nothing is derived, and in the normalization the grouped mean is the
    float next above one tenth (the sum of three tenths is rounded up)
    and the grouped standard deviation is zero: the deviation of every
    horse is negative and not zero, its quotient by zero is minus
    infinity, not NaN, and [fillna(50)] leaves it.  The column holds
    minus infinity in every row, whatever the conversions and the
    aggregations of whole columns are. *)
Theorem level_race_scores_infinite (C : Conversions)
  (mean std : list b64 -> b64) :
  @create_features C (cython_groupby mean std) level_race
  = Ok [("race_id"%string, [BStr (py "R1"); BStr (py "R1"); BStr (py "R1")]);
        ("last_race_time_difference"%string,
         [BNum neg_infinity; BNum neg_infinity; BNum neg_infinity])].
Proof. vm_compute. reflexivity. Qed.
